(** * YouTube livestream notifier: the polling and registry core of index.js

    A shallow embedding of the later of the two revisions of [index.js]
    (the one that resolves handles): the identifier parser
    [getYoutubeIdentifier], the resolver [resolveToChannelId], the prober
    [checkYouTubeLiveStatus], the job body of [scheduleChecks] and the
    [addchannel] / [removechannel] command handlers, followed by the
    properties of the specification.

    Modelling conventions.
    - JavaScript strings are [string]s, one [ascii] per character: the model
      is exact for strings of ASCII characters. [toLowerCase] maps [A-Z] to
      [a-z] and leaves every other character alone, which is what
      [String.prototype.toLowerCase] does to an ASCII string; a property
      that depends on it is stated for ASCII strings ([ascii_only]).
    - Time stamps ([new Date()], ISO strings) are [Z] milliseconds; the
      round trip [new Date(d.toISOString())] keeps milliseconds, so
      [lastNotified] holds the instant itself.
    - The outside world (clock, YouTube Data API, Discord, file system) is a
      record of oracles indexed by the number of external calls made so far;
      every external call is appended to a chronological log.
    - Responses of the API are typed after its resources: an item carries
      the fields the code reads.
    - [M] runs a handler, or a run of the job, from its first line to its
      last: nothing else touches the array in between. The code has no lock,
      so a second handler can run while a first one awaits a response; for
      [addchannel] the two stretches on either side of its await,
      [addchannel_request] and [addchannel_resume], are modelled apart and
      [overlapping_adds] interleaves two handlers.
    - discord.js is version 14, the release whose [EmbedBuilder],
      [GatewayIntentBits] and [ActivityType] the file imports: its
      permission flag is named [Administrator], so
      [permissions.has('ADMINISTRATOR')] passes for an administrator and
      throws for anyone else.
    - [console.log] / [console.error] lines are not modelled, except for the
      clock reading in the first line of the job. *)

From Stdlib Require Import ZArith Ascii String List Bool Lia.
From stdpp Require Import base list strings.
Import ListNotations.
Local Open Scope string_scope.
Local Open Scope Z_scope.

(** ** JavaScript strings *)

Module Js.

Definition is_upper (c : ascii) : bool :=
  let n := nat_of_ascii c in (Nat.leb 65 n && Nat.leb n 90)%bool.

Definition is_lower (c : ascii) : bool :=
  let n := nat_of_ascii c in (Nat.leb 97 n && Nat.leb n 122)%bool.

Definition is_digit (c : ascii) : bool :=
  let n := nat_of_ascii c in (Nat.leb 48 n && Nat.leb n 57)%bool.

Definition lower_char (c : ascii) : ascii :=
  if is_upper c then ascii_of_nat (nat_of_ascii c + 32) else c.

(** [s.toLowerCase()] for a string of ASCII characters: [A-Z] become
    [a-z]. (Characters that are not ASCII are left as they are, where
    JavaScript lower-cases theirs too.) *)
Fixpoint toLowerCase (s : string) : string :=
  match s with
  | EmptyString => EmptyString
  | String c r => String (lower_char c) (toLowerCase r)
  end.

(** [s.startsWith(p)] *)
Fixpoint startsWith (p s : string) : bool :=
  match p, s with
  | EmptyString, _ => true
  | String a p', String b s' => (Ascii.eqb a b && startsWith p' s')%bool
  | String _ _, EmptyString => false
  end.

(** [s.includes(q)] *)
Fixpoint includes (q s : string) : bool :=
  (startsWith q s ||
   match s with
   | EmptyString => false
   | String _ r => includes q r
   end)%bool.

(** [s.split(sep)] for a one-character separator *)
Fixpoint split (sep : ascii) (s : string) : list string :=
  match s with
  | EmptyString => [EmptyString]
  | String c r =>
      if Ascii.eqb c sep then EmptyString :: split sep r
      else match split sep r with
           | [] => [String c EmptyString]
           | w :: ws => String c w :: ws
           end
  end.

(** [args.join(' ')] *)
Fixpoint join (sep : string) (l : list string) : string :=
  match l with
  | [] => EmptyString
  | [x] => x
  | x :: r => x ++ sep ++ join sep r
  end.

(** truthiness of a value that is a string or [undefined] / [null] *)
Definition truthy (v : option string) : bool :=
  match v with
  | Some (String _ _) => true
  | _ => false
  end.

(** a template literal renders [undefined] as the word *)
Definition render (v : option string) : string :=
  match v with
  | Some s => s
  | None => "undefined"
  end.

End Js.

(** ** Regular expressions

    The three patterns of [getYoutubeIdentifier] use literals, a character
    class under [+], optional non-capturing groups and one capturing group.
    [Regex.run] lists the ways a pattern matches a prefix of the input in the
    priority order of a backtracking matcher (greedy first); [Regex.exec]
    is [String.prototype.match] for a non-global pattern: the first start
    position with a match, and its first alternative. *)

Module Regex.

Inductive t : Type :=
| Lit (s : string)           (* a literal run of characters *)
| ClassPlus (p : ascii -> bool)   (* [...]+ , greedy *)
| Cat (r1 r2 : t)
| Opt (r : t)                (* (?:r)? , greedy *)
| Group (r : t).             (* (r) , capturing *)

(** a way of matching: what was consumed, what is left, the captures *)
Record way := mkWay { consumed : string; rest : string; groups : list string }.

(** the non-empty prefixes of [s] made of class characters, longest first *)
Fixpoint class_runs (p : ascii -> bool) (s : string) : list way :=
  match s with
  | EmptyString => []
  | String c r =>
      if p c then
        map (fun w => mkWay (String c (consumed w)) (rest w) []) (class_runs p r)
        ++ [mkWay (String c EmptyString) r []]
      else []
  end.

Fixpoint drop_prefix (p s : string) : string :=
  match p, s with
  | String _ p', String _ s' => drop_prefix p' s'
  | _, _ => s
  end.

Fixpoint run (r : t) (s : string) : list way :=
  match r with
  | Lit l => if Js.startsWith l s then [mkWay l (drop_prefix l s) []] else []
  | ClassPlus p => class_runs p s
  | Cat r1 r2 =>
      flat_map (fun w1 =>
        map (fun w2 => mkWay (consumed w1 ++ consumed w2) (rest w2)
                             (groups w1 ++ groups w2))
            (run r2 (rest w1)))
        (run r1 s)
  | Opt r1 => run r1 s ++ [mkWay EmptyString s []]
  | Group r1 => map (fun w => mkWay (consumed w) (rest w) (consumed w :: groups w)) (run r1 s)
  end.

(** [s.match(r)]: the match array (whole match, then the groups) or [null] *)
Fixpoint exec (r : t) (s : string) : option (list string) :=
  match run r s with
  | w :: _ => Some (consumed w :: groups w)
  | [] =>
      match s with
      | EmptyString => None
      | String _ s' => exec r s'
      end
  end.

End Regex.

(** ** Parsing a channel URL: [getYoutubeIdentifier] *)

Inductive IdentifierType := TyId | TyHandle | TyCustom.

Record Identifier := mkIdentifier { type : IdentifierType; value : string }.

(** the class [[a-zA-Z0-9_-]] *)
Definition id_char (c : ascii) : bool :=
  (Js.is_lower c || Js.is_upper c || Js.is_digit c
   || Ascii.eqb c "_" || Ascii.eqb c "-")%bool.

(** [(?:https?:\/\/)?(?:www\.)?youtube\.com\/] followed by [tail] and the
    captured [([a-zA-Z0-9_-]+)] *)
Definition youtube_regex (tail : string) : Regex.t :=
  Regex.Cat (Regex.Opt (Regex.Cat (Regex.Lit "http")
                       (Regex.Cat (Regex.Opt (Regex.Lit "s")) (Regex.Lit "://"))))
 (Regex.Cat (Regex.Opt (Regex.Lit "www."))
 (Regex.Cat (Regex.Lit "youtube.com/")
 (Regex.Cat (Regex.Lit tail)
            (Regex.Group (Regex.ClassPlus id_char))))).

Definition channelIdRegex : Regex.t := youtube_regex "channel/".
Definition handleRegex : Regex.t := youtube_regex "@".
Definition customRegex : Regex.t := youtube_regex "c/".

(** [m[1]] of a successful match *)
Definition group1 (m : list string) : string := nth 1 m EmptyString.

Definition getYoutubeIdentifier (url : string) : option Identifier :=
  let cleanUrl := hd EmptyString (Js.split "?" url) in
  match Regex.exec channelIdRegex cleanUrl with
  | Some channelMatch => Some (mkIdentifier TyId (group1 channelMatch))
  | None =>
      match Regex.exec handleRegex cleanUrl with
      | Some handleMatch => Some (mkIdentifier TyHandle (group1 handleMatch))
      | None =>
          match Regex.exec customRegex cleanUrl with
          | Some customMatch => Some (mkIdentifier TyCustom (group1 customMatch))
          | None => None
          end
      end
  end.

(** ** Data model *)

(** one entry of [youtubeChannels] *)
Record Channel := mkChannel {
  channelId : string;
  channelName : string;
  notificationChannelId : option string;
  addedBy : string;
  addedAt : Z;
  isLive : bool;
  lastNotified : option Z
}.

Definition set_isLive (b : bool) (c : Channel) : Channel :=
  mkChannel (channelId c) (channelName c) (notificationChannelId c)
            (addedBy c) (addedAt c) b (lastNotified c).

Definition set_lastNotified (t : Z) (c : Channel) : Channel :=
  mkChannel (channelId c) (channelName c) (notificationChannelId c)
            (addedBy c) (addedAt c) (isLive c) (Some t).

(** what [checkYouTubeLiveStatus] returns when it does not return [null] *)
Inductive Status :=
| StLive (videoId title thumbnailUrl channelTitle : string)
| StOffline.

Definition status_isLive (s : Status) : bool :=
  match s with StLive _ _ _ _ => true | StOffline => false end.

(** the embed and the message built for a notification *)
Record Embed := mkEmbed {
  color : string;
  embed_title : string;
  embed_url : string;
  author_name : string;
  author_iconURL : string;
  image : string;
  timestamp : Z
}.

Record Message := mkMessage { content : string; embeds : list Embed }.

(** ** The YouTube Data API, as the code reads it *)

(** [search?type=video&eventType=live]: one live video *)
Record VideoHit := mkVideoHit {
  id_videoId : string;
  snippet_title : string;
  snippet_thumbnails_high_url : string;
  snippet_channelTitle : string
}.

(** [channels?part=id&forHandle=]: the item's [id] *)
Record ChannelRef := mkChannelRef { ref_id : string }.

(** [search?type=channel]: [snippet.channelId] and [id.channelId] *)
Record ChannelHit := mkChannelHit {
  snippet_channelId : option string;
  id_channelId : option string
}.

(** [channels?part=snippet&id=]: [snippet.title] *)
Record ChannelInfo := mkChannelInfo { info_title : string }.

(** a parsed body: [data.items] may be missing *)
Record Listing (A : Type) := mkListing { items : option (list A) }.
Arguments mkListing {A} _.
Arguments items {A} _.

(** a resolved [fetch]: [json = None] when [response.json()] rejects *)
Record Response (A : Type) := mkResponse {
  ok : bool;
  status : Z;
  statusText : string;
  json : option (Listing A)
}.
Arguments mkResponse {A} _ _ _ _.
Arguments ok {A} _.
Arguments status {A} _.
Arguments statusText {A} _.
Arguments json {A} _.

Inductive Fetched (A : Type) :=
| Rejected            (* the promise of [fetch] rejects *)
| Resolved (r : Response A).
Arguments Rejected {A}.
Arguments Resolved {A} _.

(** [client.channels.fetch(id)] *)
Inductive ChannelsFetch := CfRejected | CfNull | CfChannel.

(** ** The outside world *)

Record World := mkWorld {
  YOUTUBE_API_KEY : option string;
  clock : nat -> Z;
  search_live : nat -> string -> Fetched VideoHit;
  channels_forHandle : nat -> string -> Fetched ChannelRef;
  search_channel : nat -> string -> Fetched ChannelHit;
  channels_snippet : nat -> string -> Fetched ChannelInfo;
  channels_fetch : nat -> string -> ChannelsFetch;
  send : nat -> string -> Message -> bool;    (* [false]: the promise rejects *)
  writeFileSync : nat -> bool                 (* [false]: it throws *)
}.

(** what a handler can throw *)
Inductive Error :=
| NetworkError
| ApiError (status : Z) (statusText : string)
| JsonError
| DiscordError
| RangeError                   (* [BitFieldInvalid]: not the name of a flag *)
| ValidationError.             (* a builder of discord.js refuses its input *)

(** the log: the external calls, in order, and next to the request of the
    prober the snapshot the loop got back for the channel id [channel];
    a send also records the id of the record it is sent for *)
Inductive Event :=
| EvFetch (url : string)                     (* an HTTP request to the API *)
| EvSnapshot (channel : string) (s : option Status)
                                             (* [status], [None] for [null] *)
| EvChannelsFetch (target : string)          (* [client.channels.fetch] *)
| EvSend (channel target : string) (m : Message) (delivered : bool)
                                             (* [discordChannel.send] *)
| EvWriteFile (data : list Channel) (written : bool).

(** the process state: the global array, the number of external calls made,
    the chronological log *)
Record State := mkState {
  youtubeChannels : list Channel;
  calls : nat;
  log : list Event
}.

Inductive Result (A : Type) :=
| Ok (a : A)
| Throw (e : Error).
Arguments Ok {A} _.
Arguments Throw {A} _.

(** ** A monad for handlers: reader of the world, state, exceptions *)

Definition M (A : Type) : Type := World -> State -> Result A * State.

Definition ret {A} (a : A) : M A := fun _ s => (Ok a, s).

Definition bind {A B} (m : M A) (k : A -> M B) : M B :=
  fun w s =>
    match m w s with
    | (Ok a, s') => k a w s'
    | (Throw e, s') => (Throw e, s')
    end.

Definition throw {A} (e : Error) : M A := fun _ s => (Throw e, s).

(** [try { m } catch (error) { h error }] *)
Definition try_catch {A} (m : M A) (h : Error -> M A) : M A :=
  fun w s =>
    match m w s with
    | (Ok a, s') => (Ok a, s')
    | (Throw e, s') => h e w s'
    end.

Declare Scope js_scope.
Delimit Scope js_scope with js.
Notation "x <- m ;; k" := (bind m (fun x => k))
  (at level 100, m at next level, right associativity) : js_scope.
Notation "m ;;; k" := (bind m (fun _ => k))
  (at level 100, right associativity) : js_scope.
Local Open Scope js_scope.

Definition ask : M World := fun w s => (Ok w, s).
Definition get : M State := fun _ s => (Ok s, s).

Definition emit (e : Event) : M unit :=
  fun _ s => (Ok tt, mkState (youtubeChannels s) (calls s) (log s ++ [e])).

(** take the next call number *)
Definition tick_call : M nat :=
  fun _ s => (Ok (calls s), mkState (youtubeChannels s) (S (calls s)) (log s)).

Definition set_channels (l : list Channel) : M unit :=
  fun _ s => (Ok tt, mkState l (calls s) (log s)).

(** [channel.field = v] for the element at index [i] of the array *)
Definition update_channel (i : nat) (f : Channel -> Channel) : M unit :=
  fun _ s =>
    match youtubeChannels s !! i with
    | Some c => (Ok tt, mkState (<[i := f c]> (youtubeChannels s)) (calls s) (log s))
    | None => (Ok tt, s)
    end.

(** [new Date()] *)
Definition new_Date : M Z :=
  w <- ask ;; n <- tick_call ;; ret (clock w n).

(** [await fetch(url)] against one of the four endpoints *)
Definition fetch {A} (endpoint : World -> nat -> string -> Fetched A)
    (url : string) : M (Response A) :=
  w <- ask ;; n <- tick_call ;;
  emit (EvFetch url) ;;;
  match endpoint w n url with
  | Resolved r => ret r
  | Rejected => throw NetworkError
  end.

(** [await response.json()] *)
Definition response_json {A} (r : Response A) : M (Listing A) :=
  match json r with
  | Some data => ret data
  | None => throw JsonError
  end.

(** [saveChannels]: a failed write is caught and logged only *)
Definition saveChannels : M unit :=
  w <- ask ;; s <- get ;; n <- tick_call ;;
  emit (EvWriteFile (youtubeChannels s) (writeFileSync w n)).

(** ** The prober: [checkYouTubeLiveStatus] *)

Definition api : string := "https://www.googleapis.com/youtube/v3/".

Definition live_url (w : World) (channelId : string) : string :=
  api ++ "search?part=snippet&channelId=" ++ channelId
      ++ "&type=video&eventType=live&key=" ++ Js.render (YOUTUBE_API_KEY w).

(** [null] is [None] *)
Definition checkYouTubeLiveStatus (channelId : string) : M (option Status) :=
  try_catch
    (w <- ask ;;
     if negb (Js.truthy (YOUTUBE_API_KEY w)) then ret None
     else
       response <- fetch search_live (live_url w channelId) ;;
       if negb (ok response)
       then throw (ApiError (status response) (statusText response))
       else
         data <- response_json response ;;
         match items data with
         | Some (liveStream :: _) =>
             ret (Some (StLive (id_videoId liveStream)
                               (snippet_title liveStream)
                               (snippet_thumbnails_high_url liveStream)
                               (snippet_channelTitle liveStream)))
         | _ => ret (Some StOffline)
         end)
    (fun _ => ret None).

(** ** The resolver: [resolveToChannelId] *)

Definition forHandle_url (w : World) (handle : string) : string :=
  api ++ "channels?part=id&forHandle=" ++ handle
      ++ "&key=" ++ Js.render (YOUTUBE_API_KEY w).

Definition search_url (w : World) (q : string) : string :=
  api ++ "search?part=snippet&q=" ++ q
      ++ "&type=channel&maxResults=1&key=" ++ Js.render (YOUTUBE_API_KEY w).

(** [a || b] on values that are strings or [undefined] *)
Definition js_or (a b : option string) : option string :=
  if Js.truthy a then a else b.

(** the search by name that ends [resolveToChannelId] *)
Definition search_by_name (identifier : Identifier) : M (option string) :=
  w <- ask ;;
  searchResponse <- fetch search_channel (search_url w (value identifier)) ;;
  if ok searchResponse then
    data <- response_json searchResponse ;;
    match items data with
    | Some (first :: _) => ret (js_or (snippet_channelId first) (id_channelId first))
    | _ => ret None
    end
  else ret None.

Definition resolveToChannelId (identifier : option Identifier) : M (option string) :=
  try_catch
    (match identifier with
     | None => ret None
     | Some identifier =>
         match type identifier with
         | TyId => ret (Some (value identifier))
         | TyHandle =>
             w <- ask ;;
             response <- fetch channels_forHandle (forHandle_url w (value identifier)) ;;
             if ok response then
               data <- response_json response ;;
               match items data with
               | Some (first :: _) => ret (Some (ref_id first))
               | _ => search_by_name identifier
               end
             else search_by_name identifier
         | TyCustom => search_by_name identifier
         end
     end)
    (fun _ => ret None).

(** ** The scheduled job of [scheduleChecks] *)

Definition cooldown : Z := 60 * 60 * 1000.

Definition build_message (status_title status_videoId status_channelTitle
                          status_thumbnailUrl : string) (now : Z) : Message :=
  mkMessage
    ("@everyone " ++ status_channelTitle ++ " is now live on YouTube!")
    [mkEmbed "#FF0000" status_title
             ("https://www.youtube.com/watch?v=" ++ status_videoId)
             (status_channelTitle ++ " is LIVE!")
             "https://i.imgur.com/yjy9ZLH.png"
             status_thumbnailUrl now].

(** [await client.channels.fetch(id)]: the channel, [null], or a rejection *)
Definition client_channels_fetch (id : string) : M bool :=
  w <- ask ;; n <- tick_call ;;
  emit (EvChannelsFetch id) ;;;
  match channels_fetch w n id with
  | CfChannel => ret true
  | CfNull => ret false
  | CfRejected => throw DiscordError
  end.

(** [await discordChannel.send(m)], for the record [channel] *)
Definition discordChannel_send (channel target : string) (m : Message) : M unit :=
  w <- ask ;; n <- tick_call ;;
  let delivered := send w n target m in
  emit (EvSend channel target m delivered) ;;;
  if delivered then ret tt else throw DiscordError.

(** the test that opens the loop body: [lastNotified] set and younger than
    the cooldown; the clock is only read when [lastNotified] is set *)
Definition recently_notified (channel : Channel) : M bool :=
  match lastNotified channel with
  | Some t0 => now <- new_Date ;; ret (now - t0 <? cooldown)
  | None => ret false
  end.

(** the notification branch, once the snapshot is live, the target [target]
    is set and the record was not live before *)
Definition notify (i : nat) (channel : Channel) (target : string)
    (status : Status) : M unit :=
  match status with
  | StOffline => ret tt
  | StLive videoId title thumbnailUrl channelTitle =>
      discordChannel <- client_channels_fetch target ;;
      if (discordChannel : bool) then
        stamp <- new_Date ;;
        discordChannel_send (channelId channel) target
          (build_message title videoId channelTitle thumbnailUrl stamp) ;;;
        update_channel i (set_isLive true) ;;;
        now <- new_Date ;;
        update_channel i (set_lastNotified now) ;;;
        saveChannels
      else ret tt
  end.

(** what the loop body does with a snapshot *)
Definition react (i : nat) (channel : Channel) (status : Status) : M unit :=
  if (status_isLive status && Js.truthy (notificationChannelId channel))%bool
  then
    let wasLiveBefore := (isLive channel || false)%bool in
    if negb wasLiveBefore
    then notify i channel (Js.render (notificationChannelId channel)) status
    else ret tt
  else if (negb (status_isLive status) && isLive channel)%bool
  then update_channel i (set_isLive false) ;;; saveChannels
  else ret tt.

(** one iteration of [for (const channel of youtubeChannels)], at index [i] *)
Definition check_channel (i : nat) : M unit :=
  s <- get ;;
  match youtubeChannels s !! i with
  | None => ret tt
  | Some channel =>
      skip <- recently_notified channel ;;
      if (skip : bool) then ret tt
      else
        status <- checkYouTubeLiveStatus (channelId channel) ;;
        emit (EvSnapshot (channelId channel) status) ;;;
        match status with
        | None => ret tt
        | Some status => react i channel status
        end
  end.

Fixpoint for_each (indices : list nat) (body : nat -> M unit) : M unit :=
  match indices with
  | [] => ret tt
  | i :: more => body i ;;; for_each more body
  end.

(** the loop over the channels from index [i] on, [n] of them *)
Definition check_from (i n : nat) : M unit := for_each (seq i n) check_channel.

(** the job: the time stamp of its first line, then the loop *)
Definition job : M unit :=
  new_Date ;;;
  s <- get ;;
  check_from 0 (length (youtubeChannels s)).

(** a run by the scheduler: a rejected job is reported, not rethrown *)
Definition scheduled_job : M unit := try_catch job (fun _ => ret tt).

(** successive runs of the job, each against its own view of the world *)
Fixpoint run_jobs (worlds : list World) (s : State) : State :=
  match worlds with
  | [] => s
  | w :: more => run_jobs more (snd (scheduled_job w s))
  end.

(** ** The command handlers of [messageCreate] *)

(** what a handler reads of the incoming message *)
Record Incoming := mkIncoming {
  is_administrator : bool;     (* the member holds the Administrator permission *)
  channel_id : string;         (* [message.channel.id] *)
  author_tag : string          (* [message.author.tag] *)
}.

(** the replies of [addchannel] and [removechannel], by their text *)
Inductive Reply :=
| NeedAdministrator
| ProvideUrl
| InvalidUrl
| CouldNotFind
| AlreadyMonitored (where_ : option string)
| Added (channelName : string)
| ErrorAdding (e : Error)
| ProvideUrlOrName
| RemovedFromList
| NotInList.

Definition snippet_url (w : World) (channelId : string) : string :=
  api ++ "channels?part=snippet&id=" ++ channelId
      ++ "&key=" ++ Js.render (YOUTUBE_API_KEY w).

(** [youtubeChannels.push(c)] *)
Definition push (c : Channel) : M unit :=
  s <- get ;; set_channels (youtubeChannels s ++ [c]).

(** [addchannel] from the duplicate test on, for the resolved [channelId] *)
Definition add_resolved (message : Incoming) (channelId_ : string) : M Reply :=
  s <- get ;;
  match find (fun c => String.eqb (channelId c) channelId_) (youtubeChannels s) with
  | Some existingChannel =>
      ret (AlreadyMonitored
             (if Js.truthy (notificationChannelId existingChannel)
              then notificationChannelId existingChannel else None))
  | None =>
      w <- ask ;;
      response <- fetch channels_snippet (snippet_url w channelId_) ;;
      if negb (ok response)
      then throw (ApiError (status response) (statusText response))
      else
        data <- response_json response ;;
        match items data with
        | Some (first :: _) =>
            let channelName_ := info_title first in
            now <- new_Date ;;
            push (mkChannel channelId_ channelName_ (Some (channel_id message))
                            (author_tag message) now false None) ;;;
            saveChannels ;;;
            ret (Added channelName_)
        | _ => ret CouldNotFind
        end
  end.

(** [message.member.permissions.has('ADMINISTRATOR')]. In discord.js 14
    [has(permission)] is [super.has(Administrator) || super.has(permission)]:
    an administrator passes before the name is looked up; for anyone else
    [BitField.resolve] looks the name up among the flags, where the flag is
    ['Administrator'], and throws a [RangeError]. *)
Definition permissions_has_ADMINISTRATOR (message : Incoming) : M bool :=
  if is_administrator message then ret true else throw RangeError.

Definition addchannel (message : Incoming) (args : list string) : M Reply :=
  allowed <- permissions_has_ADMINISTRATOR message ;;
  if negb allowed then ret NeedAdministrator
  else
    match args with
    | [] => ret ProvideUrl
    | channelUrl :: _ =>
        match getYoutubeIdentifier channelUrl with
        | None => ret InvalidUrl
        | Some identifier =>
            try_catch
              (resolved <- resolveToChannelId (Some identifier) ;;
               if negb (Js.truthy resolved) then ret CouldNotFind
               else add_resolved message (Js.render resolved))
              (fun error => ret (ErrorAdding error))
        end
    end.

(** *** [addchannel] on either side of its await

    Between the duplicate test and the [push] the handler awaits the
    response of [channels?part=snippet] and its body; until they arrive
    other handlers run. [addchannel_request] is the handler up to that
    await, [addchannel_resume] is the handler from there to its end. *)

(** where the handler stands when it yields: it has replied, or it awaits
    the response to the request it made for [channelId] *)
Inductive Suspended :=
| Replied (reply : Reply)
| Awaiting (channelId_ : string) (promise : Fetched ChannelInfo).

(** [add_resolved] up to the request *)
Definition add_resolved_request (channelId_ : string) : M Suspended :=
  s <- get ;;
  match find (fun c => String.eqb (channelId c) channelId_) (youtubeChannels s) with
  | Some existingChannel =>
      ret (Replied (AlreadyMonitored
             (if Js.truthy (notificationChannelId existingChannel)
              then notificationChannelId existingChannel else None)))
  | None =>
      w <- ask ;; n <- tick_call ;;
      emit (EvFetch (snippet_url w channelId_)) ;;;
      ret (Awaiting channelId_ (channels_snippet w n (snippet_url w channelId_)))
  end.

(** [add_resolved] from the response on *)
Definition add_resolved_resume (message : Incoming) (channelId_ : string)
    (promise : Fetched ChannelInfo) : M Reply :=
  match promise with
  | Rejected => throw NetworkError
  | Resolved response =>
      if negb (ok response)
      then throw (ApiError (status response) (statusText response))
      else
        data <- response_json response ;;
        match items data with
        | Some (first :: _) =>
            let channelName_ := info_title first in
            now <- new_Date ;;
            push (mkChannel channelId_ channelName_ (Some (channel_id message))
                            (author_tag message) now false None) ;;;
            saveChannels ;;;
            ret (Added channelName_)
        | _ => ret CouldNotFind
        end
  end.

Definition addchannel_request (message : Incoming) (args : list string)
    : M Suspended :=
  allowed <- permissions_has_ADMINISTRATOR message ;;
  if negb allowed then ret (Replied NeedAdministrator)
  else
    match args with
    | [] => ret (Replied ProvideUrl)
    | channelUrl :: _ =>
        match getYoutubeIdentifier channelUrl with
        | None => ret (Replied InvalidUrl)
        | Some identifier =>
            try_catch
              (resolved <- resolveToChannelId (Some identifier) ;;
               if negb (Js.truthy resolved) then ret (Replied CouldNotFind)
               else add_resolved_request (Js.render resolved))
              (fun error => ret (Replied (ErrorAdding error)))
        end
    end.

Definition addchannel_resume (message : Incoming) (at_ : Suspended) : M Reply :=
  match at_ with
  | Replied reply => ret reply
  | Awaiting channelId_ promise =>
      try_catch (add_resolved_resume message channelId_ promise)
                (fun error => ret (ErrorAdding error))
  end.

(** two handlers of [addchannel], the second one started while the first
    awaits its response; the responses arrive in the order of the requests *)
Definition overlapping_adds (message1 : Incoming) (args1 : list string)
    (message2 : Incoming) (args2 : list string) : M (Reply * Reply) :=
  first <- addchannel_request message1 args1 ;;
  second <- addchannel_request message2 args2 ;;
  reply1 <- addchannel_resume message1 first ;;
  reply2 <- addchannel_resume message2 second ;;
  ret (reply1, reply2).

(** [youtubeChannels = youtubeChannels.filter(keep)], and whether the array
    got shorter *)
Definition filter_channels (keep : Channel -> bool) : M bool :=
  s <- get ;;
  let initialLength := length (youtubeChannels s) in
  let kept := List.filter keep (youtubeChannels s) in
  set_channels kept ;;;
  ret (Nat.ltb (length kept) initialLength).

Definition other_id (channelId_ : string) (c : Channel) : bool :=
  negb (String.eqb (channelId c) channelId_).

Definition name_without (query : string) (c : Channel) : bool :=
  negb (Js.includes (Js.toLowerCase query) (Js.toLowerCase (channelName c))).

Definition removechannel (message : Incoming) (args : list string) : M Reply :=
  allowed <- permissions_has_ADMINISTRATOR message ;;
  if negb allowed then ret NeedAdministrator
  else
    match args with
    | [] => ret ProvideUrlOrName
    | _ :: _ =>
        let query := Js.join " " args in
        removed <-
          match getYoutubeIdentifier query with
          | Some identifier =>
              try_catch
                (resolved <- resolveToChannelId (Some identifier) ;;
                 if Js.truthy resolved
                 then filter_channels (other_id (Js.render resolved))
                 else ret false)
                (fun _ => ret false)
          | None => ret false
          end ;;
        removed <-
          (if negb removed then filter_channels (name_without query)
           else ret removed) ;;
        if (removed : bool) then saveChannels ;;; ret RemovedFromList
        else ret NotInList
    end.

(** every character of [s] satisfies [p] *)
Fixpoint all_chars (p : ascii -> bool) (s : string) : bool :=
  match s with
  | EmptyString => true
  | String c r => (p c && all_chars p r)%bool
  end.

(** a string of ASCII characters *)
Definition ascii_only (s : string) : bool :=
  all_chars (fun c => Nat.ltb (nat_of_ascii c) 128) s.

(** *** A substring match that ignores case, as the specification words it

    Two characters are the same letter when they are equal or are the
    capital and the small form of one of the 26 letters. *)
Definition capitals : string := "ABCDEFGHIJKLMNOPQRSTUVWXYZ".
Definition smalls : string := "abcdefghijklmnopqrstuvwxyz".

Fixpoint paired (a b : ascii) (xs ys : string) : bool :=
  match xs, ys with
  | String x xs', String y ys' =>
      ((Ascii.eqb a x && Ascii.eqb b y) || paired a b xs' ys')%bool
  | _, _ => false
  end.

Definition same_letter (a b : ascii) : bool :=
  (Ascii.eqb a b || paired a b capitals smalls || paired b a capitals smalls)%bool.

Fixpoint starts_ignoring_case (p s : string) : bool :=
  match p, s with
  | EmptyString, _ => true
  | String a p', String b s' => (same_letter a b && starts_ignoring_case p' s')%bool
  | String _ _, EmptyString => false
  end.

Fixpoint contains_ignoring_case (q s : string) : bool :=
  (starts_ignoring_case q s ||
   match s with
   | EmptyString => false
   | String _ r => contains_ignoring_case q r
   end)%bool.

(** ** Reading the log and the responses *)

(** a delivered notification for the channel [k] *)
Definition delivered_for (k : string) (e : Event) : bool :=
  match e with
  | EvSend c _ _ true => String.eqb c k
  | _ => false
  end.

(** the job saw the channel [k] offline *)
Definition offline_for (k : string) (e : Event) : bool :=
  match e with
  | EvSnapshot c (Some StOffline) => String.eqb c k
  | _ => false
  end.

Definition notifications (k : string) (l : list Event) : nat :=
  length (List.filter (delivered_for k) l).

(** [client.channels.fetch] resolved to a channel *)
Definition found (c : ChannelsFetch) : bool :=
  match c with
  | CfChannel => true
  | _ => false
  end.

(** the attempts to send a notification, delivered or not *)
Definition is_send (e : Event) : bool :=
  match e with
  | EvSend _ _ _ _ => true
  | _ => false
  end.

Definition sends (l : list Event) : list Event := List.filter is_send l.

(** a monitor reading the log from the left: it remembers whether a
    notification for [k] was delivered since [k] was last seen offline, and
    stops with [None] at a second one *)
Definition watch (k : string) (st : option bool) (e : Event) : option bool :=
  match st with
  | None => None
  | Some fired =>
      if offline_for k e then Some false
      else if delivered_for k e then (if fired then None else Some true)
      else Some fired
  end.

Definition watch_log (k : string) (st : option bool) (l : list Event) : option bool :=
  fold_left (watch k) l st.

(** the registry invariant: no two records share a channel id *)
Definition unique_keys (l : list Channel) : Prop := NoDup (map channelId l).

(** the monitor for [k] accepts the log, and if it holds a delivered
    notification then the record of [k] is marked live *)
Definition settled (k : string) (s : State) : Prop :=
  unique_keys (youtubeChannels s) /\
  exists fired,
    watch_log k (Some false) (log s) = Some fired /\
    (fired = true ->
     forall c, In c (youtubeChannels s) -> channelId c = k -> isLive c = true).

(** the request was answered by a success code and a body without results *)
Definition empty_result {A} (f : Fetched A) : Prop :=
  exists r data, f = Resolved r /\ ok r = true /\ json r = Some data /\
                 (items data = None \/ items data = Some []).

(** the request was answered by a non-success code *)
Definition refused {A} (f : Fetched A) : Prop :=
  exists r, f = Resolved r /\ ok r = false.

(** the request failed in the network or its body did not parse *)
Definition failed {A} (f : Fetched A) : Prop :=
  f = Rejected \/ exists r, f = Resolved r /\ ok r = true /\ json r = None.

(** the request was answered by a success code and the results [x :: more] *)
Definition results {A} (f : Fetched A) (x : A) (more : list A) : Prop :=
  exists r data, f = Resolved r /\ ok r = true /\ json r = Some data /\
                 items data = Some (x :: more).

(** the answer read off a search by name *)
Definition search_answer (f : Fetched ChannelHit) : option string :=
  match f with
  | Rejected => None
  | Resolved r =>
      if ok r then
        match json r with
        | Some data =>
            match items data with
            | Some (first :: _) => js_or (snippet_channelId first) (id_channelId first)
            | _ => None
            end
        | None => None
        end
      else None
  end.

(** the API key is set *)
Definition configured (w : World) : Prop :=
  exists key, YOUTUBE_API_KEY w = Some key /\ key <> "".

(** whenever it is asked, the API reports a live stream of [k] *)
Definition shows_live (w : World) (k : string) : Prop :=
  configured w /\
  forall n, exists x more, results (search_live w n (live_url w k)) x more.

(** whenever it is asked, the API reports no live stream of [k] *)
Definition shows_offline (w : World) (k : string) : Prop :=
  configured w /\
  forall n, empty_result (search_live w n (live_url w k)).

(** Discord finds every channel and accepts every message *)
Definition delivers (w : World) : Prop :=
  (forall n id, channels_fetch w n id = CfChannel) /\
  (forall n id m, send w n id m = true).

(** every reading of the clock falls in [lo, hi) *)
Definition clock_between (lo hi : Z) (w : World) : Prop :=
  forall n, lo <= clock w n < hi.

(** every reading of the clock is at or after [lo] *)
Definition clock_from (lo : Z) (w : World) : Prop :=
  forall n, lo <= clock w n.

(** the record is not in its cooldown at any reading of the clock *)
Definition due (ch : Channel) (w : World) : Prop :=
  match lastNotified ch with
  | Some t0 => forall n, cooldown <= clock w n - t0
  | None => True
  end.

(** the state after one more external call and the events [evs] *)
Definition advance (n : nat) (evs : list Event) (s : State) : State :=
  mkState (youtubeChannels s) (n + calls s) (log s ++ evs).

(** ** Sample worlds and records *)

Module Sample.

Definition answer {A} (l : list A) : Fetched A :=
  Resolved (mkResponse true 200 "OK" (Some (mkListing (Some l)))).

Definition forbidden {A} : Fetched A :=
  Resolved (mkResponse false 403 "Forbidden" None).

Definition stream : VideoHit :=
  mkVideoHit "vid1" "Launch" "https://i.ytimg.com/vi/vid1/hqdefault.jpg" "Some Channel".

(** a world whose clock stands at [now], whose live search answers [live],
    and whose Discord side answers [target] and [delivered] *)
Definition world (now : Z) (live : string -> Fetched VideoHit)
    (target : ChannelsFetch) (delivered : bool) : World :=
  mkWorld (Some "KEY") (fun _ => now) (fun _ => live)
          (fun _ _ => answer []) (fun _ _ => answer [])
          (fun _ _ => answer [mkChannelInfo "Some Channel"])
          (fun _ _ => target) (fun _ _ _ => delivered) (fun _ => true).

Definition world_live (now : Z) : World :=
  world now (fun _ => answer [stream]) CfChannel true.

Definition world_offline (now : Z) : World :=
  world now (fun _ => answer []) CfChannel true.

(** the live search is refused for the channel [bad] and finds a stream for
    every other one *)
Definition live_unless (bad : string) (url : string) : Fetched VideoHit :=
  if Js.includes ("channelId=" ++ bad ++ "&") url then forbidden
  else answer [stream].

Definition world_partial (now : Z) (bad : string) : World :=
  world now (live_unless bad) CfChannel true.

(** every channel is live and Discord has no channel for the target *)
Definition world_no_target (now : Z) : World :=
  world now (fun _ => answer [stream]) CfNull true.

(** every channel is live and Discord rejects the send *)
Definition world_undelivered (now : Z) : World :=
  world now (fun _ => answer [stream]) CfChannel false.

(** a world for the resolver: the handle lookup answers [byHandle], the
    search [byName] *)
Definition world_lookup (byHandle : Fetched ChannelRef)
    (byName : Fetched ChannelHit) : World :=
  mkWorld (Some "KEY") (fun _ => 0) (fun _ _ => answer [])
          (fun _ _ => byHandle) (fun _ _ => byName)
          (fun _ _ => answer [mkChannelInfo "Some Channel"])
          (fun _ _ => CfChannel) (fun _ _ _ => true) (fun _ => true).

Definition record (id : string) (target : option string) (live : bool)
    (notified : option Z) : Channel :=
  mkChannel id "Some Channel" target "admin#0001" 0 live notified.

Definition start (l : list Channel) : State := mkState l 0 [].

Definition admin : Incoming := mkIncoming true "chan-42" "admin#0001".

End Sample.

(** ** Shapes of channel URLs *)

(** what follows [youtube.com/] for each type of identifier *)
Definition marker (t : IdentifierType) : string :=
  match t with
  | TyId => "channel/"
  | TyHandle => "@"
  | TyCustom => "c/"
  end.

(** the usual beginnings of a channel URL *)
Definition url_prefixes : list string :=
  ["https://www.youtube.com/"; "http://www.youtube.com/";
   "https://youtube.com/"; "http://youtube.com/";
   "www.youtube.com/"; "youtube.com/"].

(** a string that ends a name: empty, or starting outside [[a-zA-Z0-9_-]] *)
Definition ends_name (rest : string) : Prop :=
  match rest with
  | EmptyString => True
  | String c _ => id_char c = false
  end.

(** a pattern without a capturing group *)
Fixpoint group_free (r : Regex.t) : bool :=
  match r with
  | Regex.Lit _ => true
  | Regex.ClassPlus _ => true
  | Regex.Cat r1 r2 => (group_free r1 && group_free r2)%bool
  | Regex.Opt r1 => group_free r1
  | Regex.Group _ => false
  end.

(** ** A record across a run of the job *)

(** how one iteration of the loop may move its record, in the world [w]:
    not at all; from live to offline; or from offline to live and notified,
    with the cooldown test read at call [n0] and the time stamp at [n1] *)
Inductive record_step (w : World) (c c' : Channel) : Prop :=
| step_same : c' = c -> record_step w c c'
| step_went_offline :
    isLive c = true -> c' = set_isLive false c -> record_step w c c'
| step_was_notified (n0 n1 : nat) :
    isLive c = false ->
    Js.truthy (notificationChannelId c) = true ->
    (n0 < n1)%nat ->
    (forall t0, lastNotified c = Some t0 -> cooldown <= clock w n0 - t0) ->
    c' = set_lastNotified (clock w n1) (set_isLive true c) ->
    record_step w c c'.

(** the fields that identify a record and tell where it came from *)
Definition identity (c : Channel) : string * string * option string * string * Z :=
  (channelId c, channelName c, notificationChannelId c, addedBy c, addedAt c).

(** a record marked live carries the time of its notification *)
Definition tracked (c : Channel) : Prop :=
  isLive c = true -> lastNotified c <> None.

(** readings of the clock never go back *)
Definition clock_monotone (w : World) : Prop :=
  forall n m, (n <= m)%nat -> clock w n <= clock w m.

Definition is_fetch (e : Event) : bool :=
  match e with EvFetch _ => true | _ => false end.

Definition is_channels_fetch (e : Event) : bool :=
  match e with EvChannelsFetch _ => true | _ => false end.

Definition is_write (e : Event) : bool :=
  match e with EvWriteFile _ _ => true | _ => false end.

(** the snapshot of a failed probe *)
Definition null_snapshot (e : Event) : bool :=
  match e with EvSnapshot _ None => true | _ => false end.

(** what the last [writeFileSync] of a stretch of the log was given *)
Definition last_write (l : list Event) : option (list Channel) :=
  fold_left (fun acc e => match e with EvWriteFile d _ => Some d | _ => acc end)
            l None.

(** how many events of a kind a stretch of the log holds *)
Definition count (p : Event -> bool) (l : list Event) : nat :=
  length (List.filter p l).

(** what [addchannel] may have made of the state [s]: for someone who is
    not an administrator it threw at the permission test, with no effect;
    otherwise it replied, and either kept the array and wrote nothing, or
    answered "added", appended one fresh record for an id [k] that no record
    had, and wrote the array *)
Definition add_outcome (message : Incoming) (s : State)
    (out : Result Reply * State) : Prop :=
  (is_administrator message = false /\ out = (Throw RangeError, s)) \/
  exists reply evs,
    fst out = Ok reply /\
    log (snd out) = (log s ++ evs)%list /\
    ((youtubeChannels (snd out) = youtubeChannels s /\ last_write evs = None /\
      forall name, reply <> Added name) \/
     (exists k name now,
        reply = Added name /\
        youtubeChannels (snd out)
        = (youtubeChannels s ++
           [mkChannel k name (Some (channel_id message)) (author_tag message)
                      now false None])%list /\
        last_write evs = Some (youtubeChannels (snd out)) /\
        is_administrator message = true /\ k <> "" /\
        ~ In k (map channelId (youtubeChannels s)))).

(** what [removechannel] may have made of the state [s]: for someone who
    is not an administrator it threw at the permission test, with no effect;
    otherwise it replied, the array is a filter of the old one, and either
    something was removed and the array written, or nothing was removed or
    written *)
Definition remove_outcome (message : Incoming) (s : State)
    (out : Result Reply * State) : Prop :=
  (is_administrator message = false /\ out = (Throw RangeError, s)) \/
  exists reply evs keep,
    fst out = Ok reply /\
    log (snd out) = (log s ++ evs)%list /\
    youtubeChannels (snd out) = List.filter keep (youtubeChannels s) /\
    ((reply = RemovedFromList /\
      last_write evs = Some (youtubeChannels (snd out)) /\
      (length (youtubeChannels (snd out)) < length (youtubeChannels s))%nat) \/
     (reply <> RemovedFromList /\ last_write evs = None /\
      youtubeChannels (snd out) = youtubeChannels s)).

(** ** The dispatcher of [messageCreate], [listchannels] and [help] *)

Module Text.

(** the white space of [trim] among the ASCII characters: tab, line feed,
    vertical tab, form feed, carriage return, space. (The other characters
    [trim] strips, such as U+00A0 and U+FEFF, are not ASCII: [trim] below is
    [String.prototype.trim] on ASCII strings.) *)
Definition is_space (c : ascii) : bool :=
  let n := nat_of_ascii c in
  ((Nat.leb 9 n && Nat.leb n 13) || Nat.eqb n 32)%bool.

Fixpoint trimStart (s : string) : string :=
  match s with
  | EmptyString => EmptyString
  | String c r => if is_space c then trimStart r else s
  end.

Fixpoint trimEnd (s : string) : string :=
  match s with
  | EmptyString => EmptyString
  | String c r =>
      match trimEnd r with
      | EmptyString => if is_space c then EmptyString else String c EmptyString
      | r' => String c r'
      end
  end.

(** [s.trim()] *)
Definition trim (s : string) : string := trimEnd (trimStart s).

(** [s.slice(n)] for [n] within the string *)
Fixpoint slice (n : nat) (s : string) : string :=
  match n, s with
  | S m, String _ r => slice m r
  | _, _ => s
  end.

(** [s.split(/ +/)]: [after_space] tells that the previous character was a
    space of the run being skipped *)
Fixpoint split_runs (after_space : bool) (s : string) : list string :=
  match s with
  | EmptyString => [EmptyString]
  | String c r =>
      if Ascii.eqb c " " then
        if after_space then split_runs true r
        else EmptyString :: split_runs true r
      else
        match split_runs false r with
        | [] => [String c EmptyString]
        | word :: more => String c word :: more
        end
  end.

Definition split_spaces (s : string) : list string := split_runs false s.

End Text.

(** a word of a command line: not empty, no white space, ASCII *)
Definition wordlike (word : string) : Prop :=
  word <> EmptyString /\
  all_chars (fun c => negb (Text.is_space c)) word = true /\
  ascii_only word = true.

(** what the dispatcher reads of a message *)
Record Posted := mkPosted {
  author_bot : bool;           (* [message.author.bot] *)
  post_content : string;       (* [message.content] *)
  incoming : Incoming
}.

Record Field := mkField { field_name : string; field_value : string; inline : bool }.

(** the embeds of [listchannels] and [help] *)
Record Panel := mkPanel {
  panel_color : string;
  panel_title : string;
  panel_description : string;
  panel_fields : list Field;
  panel_timestamp : Z
}.

(** what a message is answered *)
Inductive Answer :=
| Silent                       (* the handler returns without a reply *)
| Said (r : Reply)
| NoChannels                   (* 'No YouTube channels are being monitored.' *)
| Shown (p : Panel).

Definition channel_field (channel : Channel) : Field :=
  mkField (channelName channel)
          (if isLive channel then "🔴 Currently Live!" else "⚪ Offline")
          true.

(** what [EmbedBuilder.addFields] accepts: a name of 1 to 256 characters
    and a value of 1 to 1024 *)
Definition fits_a_name (name : string) : bool :=
  (Nat.leb 1 (String.length name) && Nat.leb (String.length name) 256)%bool.

Definition field_ok (f : Field) : bool :=
  (fits_a_name (field_name f) &&
   Nat.leb 1 (String.length (field_value f)) &&
   Nat.leb (String.length (field_value f)) 1024)%bool.

(** [new EmbedBuilder()....addFields(fields)]: the builder validates what it
    is given and throws on more than 25 fields or on a field it does not
    accept *)
Definition addFields (fields : list Field) : M (list Field) :=
  if (Nat.leb (length fields) 25 && forallb field_ok fields)%bool
  then ret fields
  else throw ValidationError.

(** [Shown p]: the embed [p] was built and handed to [message.reply] *)
Definition listchannels : M Answer :=
  s <- get ;;
  match youtubeChannels s with
  | [] => ret NoChannels
  | _ :: _ =>
      fields <- addFields (map channel_field (youtubeChannels s)) ;;
      now <- new_Date ;;
      ret (Shown (mkPanel "#0099ff" "Monitored YouTube Channels"
                    "These channels will trigger notifications when they go live:"
                    fields now))
  end.

Definition help : M Answer :=
  fields <- addFields
    [mkField "!addchannel [YouTube Channel URL]"
       "Add a YouTube channel to monitor for livestreams (Admin only)" false;
     mkField "!removechannel [YouTube Channel URL or Name]"
       "Remove a YouTube channel from monitoring (Admin only)" false;
     mkField "!listchannels"
       "List all monitored YouTube channels and their current status" false;
     mkField "!help" "Show this help message" false] ;;
  now <- new_Date ;;
  ret (Shown (mkPanel "#0099ff" "YouTube Livestream Bot Commands"
                "Here are the commands you can use:" fields now)).

(** the chain of [if (command === ...)] *)
Definition dispatch (command : string) (message : Incoming) (args : list string)
    : M Answer :=
  if String.eqb command "addchannel" then
    reply <- addchannel message args ;; ret (Said reply)
  else if String.eqb command "removechannel" then
    reply <- removechannel message args ;; ret (Said reply)
  else if String.eqb command "listchannels" then listchannels
  else if String.eqb command "help" then help
  else ret Silent.

Definition command_prefix : string := "!".

Definition messageCreate (message : Posted) : M Answer :=
  if author_bot message then ret Silent
  else if negb (Js.startsWith command_prefix (post_content message)) then ret Silent
  else
    let args := Text.split_spaces
                  (Text.trim (Text.slice (String.length command_prefix) (post_content message))) in
    match args with
    | [] => ret Silent         (* not reached: [split] gives at least one string *)
    | first :: args =>
        let command := Js.toLowerCase first in
        dispatch command (incoming message) args
    end.

(** ** More sample worlds *)

Module Demo.

(** a world in which the API key is not set *)
Definition world_keyless (now : Z) : World :=
  mkWorld None (fun _ => now) (fun _ _ => Sample.answer [Sample.stream])
          (fun _ _ => Sample.answer []) (fun _ _ => Sample.answer [])
          (fun _ _ => Sample.answer [mkChannelInfo "Some Channel"])
          (fun _ _ => CfChannel) (fun _ _ _ => true) (fun _ => true).

(** a world whose clock advances by one minute at every call *)
Definition world_ticking (start : Z) : World :=
  mkWorld (Some "KEY") (fun n => start + 60000 * Z.of_nat n)
          (fun _ _ => Sample.answer [Sample.stream])
          (fun _ _ => Sample.answer []) (fun _ _ => Sample.answer [])
          (fun _ _ => Sample.answer [mkChannelInfo "Some Channel"])
          (fun _ _ => CfChannel) (fun _ _ _ => true) (fun _ => true).

(** a world in which every request to the API is rejected *)
Definition world_unreachable (now : Z) : World :=
  mkWorld (Some "KEY") (fun _ => now)
          (fun _ _ => Rejected) (fun _ _ => Rejected) (fun _ _ => Rejected)
          (fun _ _ => Rejected)
          (fun _ _ => CfChannel) (fun _ _ _ => true) (fun _ => true).

End Demo.

(** * Properties *)

(** ** The parser on the shapes of the specification *)

Example getYoutubeIdentifier_channel :
  getYoutubeIdentifier "https://www.youtube.com/channel/UC123?view=1"
  = Some (mkIdentifier TyId "UC123").
Proof. vm_compute. reflexivity. Qed.

Example getYoutubeIdentifier_handle :
  getYoutubeIdentifier "youtube.com/@someHandle"
  = Some (mkIdentifier TyHandle "someHandle").
Proof. vm_compute. reflexivity. Qed.

Example getYoutubeIdentifier_custom :
  getYoutubeIdentifier "see http://youtube.com/c/My-Name/videos"
  = Some (mkIdentifier TyCustom "My-Name").
Proof. vm_compute. reflexivity. Qed.

Example getYoutubeIdentifier_none :
  getYoutubeIdentifier "https://example.com/channel/UC123" = None.
Proof. vm_compute. reflexivity. Qed.


(** ** Running the monad *)

Ltac run_js :=
  unfold bind, ret, throw, ask, get, emit, tick_call, set_channels, try_catch;
  cbn.

Lemma truthy_render (v : option string) :
  Js.truthy v = true -> v = Some (Js.render v).
Proof. destruct v as [[|c r]|]; cbn; intros H; congruence. Qed.

Lemma truthy_key (w : World) (key : string) :
  YOUTUBE_API_KEY w = Some key -> key <> "" -> Js.truthy (YOUTUBE_API_KEY w) = true.
Proof. intros -> Hne. destruct key; [congruence | reflexivity]. Qed.

(** ** The prober *)

(** What [checkYouTubeLiveStatus] returns, by the answer to its request. *)
Lemma probe_eq (w : World) (s : State) (cid : string) :
  Js.truthy (YOUTUBE_API_KEY w) = true ->
  checkYouTubeLiveStatus cid w s =
  (match search_live w (calls s) (live_url w cid) with
   | Rejected => Ok None
   | Resolved r =>
       if ok r then
         match json r with
         | None => Ok None
         | Some data =>
             match items data with
             | Some (x :: _) =>
                 Ok (Some (StLive (id_videoId x) (snippet_title x)
                       (snippet_thumbnails_high_url x) (snippet_channelTitle x)))
             | _ => Ok (Some StOffline)
             end
         end
       else Ok None
   end, advance 1 [EvFetch (live_url w cid)] s).
Proof.
  intros Hkey. unfold checkYouTubeLiveStatus, try_catch, bind, ask.
  rewrite Hkey. cbn [negb].
  unfold fetch, response_json, advance. run_js.
  destruct (search_live w (calls s) (live_url w cid)) as [|r]; [reflexivity|].
  destruct (ok r); cbn; [|reflexivity].
  destruct (json r) as [d|]; [|reflexivity].
  destruct (items d) as [[|x l]|]; reflexivity.
Qed.

Lemma probe_no_key (w : World) (s : State) (cid : string) :
  Js.truthy (YOUTUBE_API_KEY w) = false ->
  checkYouTubeLiveStatus cid w s = (Ok None, s).
Proof.
  intros Hkey. unfold checkYouTubeLiveStatus, try_catch, bind, ask.
  rewrite Hkey. reflexivity.
Qed.

(** The prober never throws and touches neither the array nor the log beyond
    its one request. *)
Lemma probe_total (w : World) (s : State) (cid : string) :
  exists st evs n,
    checkYouTubeLiveStatus cid w s = (Ok st, advance n evs s) /\
    (evs = [] \/ evs = [EvFetch (live_url w cid)]).
Proof.
  destruct (Js.truthy (YOUTUBE_API_KEY w)) eqn:Hkey.
  - rewrite probe_eq by assumption.
    destruct (search_live w (calls s) (live_url w cid)) as [|r].
    { eexists _, _, 1%nat. split; [reflexivity | auto]. }
    destruct (ok r); [|eexists _, _, 1%nat; split; [reflexivity | auto]].
    destruct (json r) as [d|]; [|eexists _, _, 1%nat; split; [reflexivity | auto]].
    destruct (items d) as [[|x l]|];
      eexists _, _, 1%nat; (split; [reflexivity | auto]).
  - rewrite probe_no_key by assumption. exists None, [], 0%nat.
    split; [|auto]. unfold advance. destruct s; cbn. rewrite app_nil_r. reflexivity.
Qed.

(** C4. With the API key configured, a probe issues exactly one request; a
    non-success response code gives [null] (the probe failed); a success
    response without results gives [{isLive: false}]; a success response
    with results gives [{isLive: true}] with the first result's video id,
    title, thumbnail and channel title. *)
Theorem probe_contract (w : World) (s : State) (cid key : string) :
  YOUTUBE_API_KEY w = Some key -> key <> "" ->
  let request := search_live w (calls s) (live_url w cid) in
  let out := checkYouTubeLiveStatus cid w s in
  snd out = advance 1 [EvFetch (live_url w cid)] s /\
  (refused request -> fst out = Ok None) /\
  (empty_result request -> fst out = Ok (Some StOffline)) /\
  (forall x more, results request x more ->
     fst out = Ok (Some (StLive (id_videoId x) (snippet_title x)
                           (snippet_thumbnails_high_url x)
                           (snippet_channelTitle x)))).
Proof.
  intros Hkey Hne request out. subst out.
  rewrite probe_eq by (eapply truthy_key; eassumption).
  fold request. cbn [fst snd].
  split; [reflexivity|]. split; [|split].
  - intros (r & -> & Hok). rewrite Hok. reflexivity.
  - intros (r & d & -> & Hok & Hj & Hit). rewrite Hok, Hj.
    destruct Hit as [-> | ->]; reflexivity.
  - intros x more (r & d & -> & Hok & Hj & Hit). rewrite Hok, Hj, Hit. reflexivity.
Qed.

Lemma probe_contract_witness :
  let w := Sample.world_live 0 in
  let s := Sample.start [] in
  YOUTUBE_API_KEY w = Some "KEY" /\
  fst (checkYouTubeLiveStatus "UC1" w s)
  = Ok (Some (StLive "vid1" "Launch"
                     "https://i.ytimg.com/vi/vid1/hqdefault.jpg" "Some Channel")).
Proof.
  split; [reflexivity|].
  refine (proj2 (proj2 (proj2
    (probe_contract (Sample.world_live 0) (Sample.start []) "UC1" "KEY"
       eq_refl _))) Sample.stream [] _).
  - discriminate.
  - eexists _, _. repeat split; reflexivity.
Defined.

(** ** The resolver *)

(** [search_by_name] under the [try] of [resolveToChannelId]: one request,
    no exception left. *)
Lemma search_by_name_eq (ident : Identifier) (w : World) (s : State) :
  try_catch (search_by_name ident) (fun _ => ret None) w s =
  (Ok (search_answer (search_channel w (calls s) (search_url w (value ident)))),
   advance 1 [EvFetch (search_url w (value ident))] s).
Proof.
  unfold search_by_name, fetch, response_json, advance, search_answer. run_js.
  destruct (search_channel w (calls s) (search_url w (value ident))) as [|r];
    [reflexivity|].
  destruct (ok r); cbn; [|reflexivity].
  destruct (json r) as [d|]; [|reflexivity].
  destruct (items d) as [[|x l]|]; reflexivity.
Qed.

Lemma resolve_id (v : string) (w : World) (s : State) :
  resolveToChannelId (Some (mkIdentifier TyId v)) w s = (Ok (Some v), s).
Proof. reflexivity. Qed.

Lemma resolve_custom (v : string) (w : World) (s : State) :
  resolveToChannelId (Some (mkIdentifier TyCustom v)) w s =
  (Ok (search_answer (search_channel w (calls s) (search_url w v))),
   advance 1 [EvFetch (search_url w v)] s).
Proof.
  unfold resolveToChannelId. cbn [type].
  exact (search_by_name_eq (mkIdentifier TyCustom v) w s).
Qed.

Lemma advance_advance (n m : nat) (e1 e2 : list Event) (s : State) :
  advance n e2 (advance m e1 s) = advance (n + m) (e1 ++ e2) s.
Proof.
  unfold advance. cbn. f_equal; [lia | now rewrite app_assoc].
Qed.

Lemma resolve_handle (h : string) (w : World) (s : State) :
  let lookup := EvFetch (forHandle_url w h) in
  let search := EvFetch (search_url w h) in
  let by_name :=
    (Ok (search_answer (search_channel w (S (calls s)) (search_url w h))),
     advance 2 [lookup; search] s) in
  resolveToChannelId (Some (mkIdentifier TyHandle h)) w s =
  match channels_forHandle w (calls s) (forHandle_url w h) with
  | Rejected => (Ok None, advance 1 [lookup] s)
  | Resolved r =>
      if ok r then
        match json r with
        | None => (Ok None, advance 1 [lookup] s)
        | Some data =>
            match items data with
            | Some (first :: _) => (Ok (Some (ref_id first)), advance 1 [lookup] s)
            | _ => by_name
            end
        end
      else by_name
  end.
Proof.
  intros lookup search by_name.
  pose proof (search_by_name_eq (mkIdentifier TyHandle h) w
                (advance 1 [lookup] s)) as Hs.
  rewrite advance_advance in Hs. cbn [value Nat.add app] in Hs.
  change (calls (advance 1 [lookup] s)) with (S (calls s)) in Hs.
  unfold resolveToChannelId. cbn [type value].
  unfold try_catch in *. unfold bind at 1. unfold ask at 1. unfold bind at 1.
  unfold fetch at 1. unfold bind at 1. unfold ask at 1. unfold bind at 1.
  unfold tick_call at 1. unfold bind at 1. unfold emit at 1. cbn [youtubeChannels calls log].
  fold lookup. change (mkState (youtubeChannels s) (S (calls s)) (log s ++ [lookup]))
    with (advance 1 [lookup] s).
  destruct (channels_forHandle w (calls s) (forHandle_url w h)) as [|r];
    [reflexivity|].
  unfold ret at 1. destruct (ok r); [|exact Hs].
  unfold bind at 1. unfold response_json.
  destruct (json r) as [d|]; [|reflexivity].
  unfold ret at 1.
  destruct (items d) as [[|x l]|]; [exact Hs | reflexivity | exact Hs].
Qed.

Lemma split_without (sep : ascii) (s : string) :
  all_chars (fun c => negb (Ascii.eqb c sep)) s = true -> Js.split sep s = [s].
Proof.
  induction s as [|c r IH]; cbn; [reflexivity|].
  intros H. apply andb_prop in H as [Hc Hr].
  destruct (Ascii.eqb c sep); [discriminate|].
  rewrite IH by assumption. reflexivity.
Qed.

Lemma class_runs_all (p : ascii -> bool) (c : ascii) (r : string) :
  all_chars p (String c r) = true ->
  exists more, Regex.class_runs p (String c r)
               = Regex.mkWay (String c r) EmptyString [] :: more.
Proof.
  revert c. induction r as [|d r IH]; intros c H; cbn in H |- *.
  - apply andb_prop in H as [-> _]. cbn. eauto.
  - apply andb_prop in H as [Hc Hr]. rewrite Hc.
    destruct (IH d Hr) as [more Hm]. cbn in Hm. rewrite Hm. cbn. eauto.
Qed.

Lemma id_char_no_query (s : string) :
  all_chars id_char s = true ->
  all_chars (fun c => negb (Ascii.eqb c "?")) s = true.
Proof.
  induction s as [|c r IH]; cbn; [reflexivity|].
  intros H. apply andb_prop in H as [Hc Hr]. rewrite IH by assumption.
  rewrite andb_true_r. destruct (Ascii.eqb_spec c "?") as [->|]; [discriminate Hc | reflexivity].
Qed.

Lemma direct_id_url (c : ascii) (r : string) :
  all_chars id_char (String c r) = true ->
  getYoutubeIdentifier ("https://www.youtube.com/channel/" ++ String c r)
  = Some (mkIdentifier TyId (String c r)).
Proof.
  intros H. cbv beta iota fix delta [String.append].
  unfold getYoutubeIdentifier.
  rewrite split_without.
  2:{ cbn -[id_char]. apply (id_char_no_query (String c r)). exact H. }
  cbn [hd].
  destruct (class_runs_all id_char c r H) as [more Hm].
  unfold channelIdRegex, youtube_regex, Regex.exec.
  cbn -[Regex.class_runs id_char]. rewrite Hm. cbn. 
  reflexivity.
Qed.

(** the handle lookup and the search are different requests *)
Lemma lookup_urls_differ (w : World) (h q : string) :
  forHandle_url w h <> search_url w q.
Proof.
  intros H.
  cbv beta iota fix delta [forHandle_url search_url api String.append] in H.
  discriminate H.
Qed.

(** C5. A URL of the direct-ID shape resolves to the ID it carries, with no
    external call. A handle is first looked up by one handle-specific
    request; results there give the first one's id and no further request;
    an empty answer is followed by one search by name, whose answer is
    returned. The resolver never throws: a request that fails, and a search
    that is refused or empty, give [null]. *)
Theorem resolver_contract :
  (forall url v w s,
     getYoutubeIdentifier url = Some (mkIdentifier TyId v) ->
     resolveToChannelId (getYoutubeIdentifier url) w s = (Ok (Some v), s)) /\
  (forall c r w s,
     all_chars id_char (String c r) = true ->
     resolveToChannelId
       (getYoutubeIdentifier ("https://www.youtube.com/channel/" ++ String c r)) w s
     = (Ok (Some (String c r)), s)) /\
  (forall url h w s,
     getYoutubeIdentifier url = Some (mkIdentifier TyHandle h) ->
     let out := resolveToChannelId (getYoutubeIdentifier url) w s in
     let lookup := channels_forHandle w (calls s) (forHandle_url w h) in
     let search := search_channel w (S (calls s)) (search_url w h) in
     (exists later,
        log (snd out) = (log s ++ EvFetch (forHandle_url w h) :: later)%list /\
        (later = [] \/ later = [EvFetch (search_url w h)]) /\
        forHandle_url w h <> search_url w h) /\
     (forall x more, results lookup x more ->
        out = (Ok (Some (ref_id x)), advance 1 [EvFetch (forHandle_url w h)] s)) /\
     (empty_result lookup ->
        out = (Ok (search_answer search),
               advance 2 [EvFetch (forHandle_url w h); EvFetch (search_url w h)] s)) /\
     (failed lookup -> fst out = Ok None) /\
     (empty_result lookup \/ refused lookup ->
      failed search \/ refused search \/ empty_result search ->
      fst out = Ok None)) /\
  (forall url v w s,
     getYoutubeIdentifier url = Some (mkIdentifier TyCustom v) ->
     let out := resolveToChannelId (getYoutubeIdentifier url) w s in
     let search := search_channel w (calls s) (search_url w v) in
     out = (Ok (search_answer search), advance 1 [EvFetch (search_url w v)] s) /\
     (failed search \/ refused search \/ empty_result search -> fst out = Ok None)) /\
  (forall identifier w s,
     exists answer, fst (resolveToChannelId identifier w s) = Ok answer).
Proof.
  assert (Hnone : forall f : Fetched ChannelHit,
             failed f \/ refused f \/ empty_result f -> search_answer f = None).
  { intros f [[-> | (r & -> & Hok & Hj)] | [(r & -> & Hok) | (r & d & -> & Hok & Hj & Hit)]];
      cbn; rewrite ?Hok, ?Hj; try reflexivity.
    destruct Hit as [-> | ->]; reflexivity. }
  split; [|split; [|split; [|split]]].
  - intros url v w s ->. apply resolve_id.
  - intros c r w s H. rewrite direct_id_url by assumption. apply resolve_id.
  - intros url h w s -> out lookup search. subst out.
    rewrite resolve_handle. fold lookup search.
    split; [|split; [|split; [|split]]].
    + pose proof (lookup_urls_differ w h h) as Hd.
      destruct lookup as [|r]; [cbn; eauto|].
      destruct (ok r); [|cbn; eauto].
      destruct (json r) as [d|]; [|cbn; eauto].
      destruct (items d) as [[|x l]|]; cbn; eauto.
    + intros x more (r & d & -> & -> & -> & ->). reflexivity.
    + intros (r & d & -> & -> & -> & [-> | ->]); reflexivity.
    + intros [-> | (r & -> & -> & ->)]; reflexivity.
    + intros Hl Hs. apply Hnone in Hs.
      destruct Hl as [(r & d & -> & -> & -> & [-> | ->]) | (r & -> & ->)];
        cbn; now rewrite Hs.
  - intros url v w s -> out search. subst out. rewrite resolve_custom.
    fold search. split; [reflexivity|].
    intros Hs. cbn. now rewrite (Hnone _ Hs).
  - intros [[[] v]|] w s.
    + rewrite resolve_id. eauto.
    + rewrite resolve_handle.
      destruct (channels_forHandle w (calls s) (forHandle_url w v)) as [|r];
        [cbn; eauto|].
      destruct (ok r); [|cbn; eauto].
      destruct (json r) as [d|]; [|cbn; eauto].
      destruct (items d) as [[|x l]|]; cbn; eauto.
    + rewrite resolve_custom. cbn. eauto.
    + cbn. eauto.
Qed.

Lemma resolver_contract_witness :
  let url := "https://www.youtube.com/@someHandle" in
  let w := Sample.world_lookup (Sample.answer [])
             (Sample.answer [mkChannelHit (Some "UC9") None]) in
  getYoutubeIdentifier url = Some (mkIdentifier TyHandle "someHandle") /\
  resolveToChannelId (getYoutubeIdentifier url) w (Sample.start [])
  = (Ok (Some "UC9"),
     advance 2 [EvFetch (forHandle_url w "someHandle");
                EvFetch (search_url w "someHandle")] (Sample.start [])).
Proof.
  split; [vm_compute; reflexivity|].
  refine (proj1 (proj2 (proj2
    (proj1 (proj2 (proj2 resolver_contract))
       "https://www.youtube.com/@someHandle" "someHandle"
       (Sample.world_lookup (Sample.answer [])
          (Sample.answer [mkChannelHit (Some "UC9") None]))
       (Sample.start []) _))) _).
  - vm_compute. reflexivity.
  - eexists _, _. repeat split; try reflexivity. right. reflexivity.
Defined.

(** ** The loop body of the job *)

Lemma advance_0 (s : State) : advance 0 [] s = s.
Proof. destruct s. unfold advance. cbn. now rewrite app_nil_r. Qed.

Lemma recently_notified_eq (ch : Channel) (w : World) (s : State) :
  recently_notified ch w s =
  match lastNotified ch with
  | Some t0 => (Ok (clock w (calls s) - t0 <? cooldown), advance 1 [] s)
  | None => (Ok false, s)
  end.
Proof.
  unfold recently_notified, new_Date, advance. destruct (lastNotified ch); run_js.
  - now rewrite app_nil_r.
  - reflexivity.
Qed.

Lemma recently_notified_frame (ch : Channel) (w : World) (s s0 : State) (r : Result bool) :
  recently_notified ch w s = (r, s0) ->
  exists n b, r = Ok b /\ s0 = advance n [] s.
Proof.
  rewrite recently_notified_eq. destruct (lastNotified ch); intros [= <- <-].
  - eauto.
  - exists 0%nat, false. now rewrite advance_0.
Qed.

Lemma probe_frame (cid : string) (w : World) (s s1 : State) (r : Result (option Status)) :
  checkYouTubeLiveStatus cid w s = (r, s1) ->
  exists n evs, s1 = advance n evs s /\ (evs = [] \/ evs = [EvFetch (live_url w cid)]).
Proof.
  destruct (probe_total w s cid) as (st & evs & n & -> & Hev).
  intros [= <- <-]. eauto.
Qed.

(** The loop body once the record is not skipped and the prober has
    answered: the snapshot is logged and [react] runs. *)
Lemma check_channel_probed (i : nat) (w : World) (s s0 s1 : State)
    (ch : Channel) (st : option Status) :
  youtubeChannels s !! i = Some ch ->
  recently_notified ch w s = (Ok false, s0) ->
  checkYouTubeLiveStatus (channelId ch) w s0 = (Ok st, s1) ->
  check_channel i w s =
  match st with
  | None => (Ok tt, advance 0 [EvSnapshot (channelId ch) None] s1)
  | Some status =>
      react i ch status w (advance 0 [EvSnapshot (channelId ch) st] s1)
  end.
Proof.
  intros Hi Hr Hp. unfold check_channel, bind at 1, get at 1.
  rewrite Hi. unfold bind at 1. rewrite Hr. unfold bind at 1. rewrite Hp.
  unfold bind at 1, emit at 1. unfold advance. cbn [Nat.add].
  destruct st; reflexivity.
Qed.

Lemma check_channel_skipped (i : nat) (w : World) (s : State) (ch : Channel) (t0 : Z) :
  youtubeChannels s !! i = Some ch ->
  lastNotified ch = Some t0 ->
  clock w (calls s) - t0 < cooldown ->
  check_channel i w s = (Ok tt, advance 1 [] s).
Proof.
  intros Hi Ht Hlt. unfold check_channel, bind at 1, get at 1.
  rewrite Hi. unfold bind at 1. rewrite recently_notified_eq, Ht.
  apply Z.ltb_lt in Hlt. rewrite Hlt. reflexivity.
Qed.

(** C3. A record whose [lastNotified] is set and less than one hour old at
    the clock reading of its iteration is skipped: the iteration ends
    normally, no request is issued, nothing is logged and the array is
    unchanged. *)
Theorem cooldown_skips (i : nat) (w : World) (s : State) (ch : Channel) (t0 : Z) :
  youtubeChannels s !! i = Some ch ->
  lastNotified ch = Some t0 ->
  clock w (calls s) - t0 < 3600000 ->
  let out := check_channel i w s in
  fst out = Ok tt /\
  youtubeChannels (snd out) = youtubeChannels s /\
  log (snd out) = log s /\
  calls (snd out) = S (calls s).
Proof.
  intros Hi Ht Hlt out. subst out.
  rewrite (check_channel_skipped i w s ch t0) by assumption.
  cbn. rewrite app_nil_r. auto.
Qed.

Lemma cooldown_skips_witness :
  let ch := Sample.record "UC1" (Some "chan-42") true (Some 1000) in
  let s := Sample.start [ch] in
  let w := Sample.world_live 3600999 in
  3600999 - 1000 < 3600000 /\
  snd (check_channel 0 w s) = mkState [ch] 1 [].
Proof.
  cbn zeta. split; [lia|].
  pose proof (cooldown_skips 0 (Sample.world_live 3600999)
    (Sample.start [Sample.record "UC1" (Some "chan-42") true (Some 1000)])
    (Sample.record "UC1" (Some "chan-42") true (Some 1000)) 1000
    eq_refl eq_refl ltac:(cbn; lia)) as (_ & Hc & Hl & Hn).
  destruct (snd (check_channel 0 _ _)) as [l n e]. cbn in *. congruence.
Defined.

(** the array is the only field of the state that [update_channel] touches *)
Lemma update_channel_at (i : nat) (f : Channel -> Channel) (w : World)
    (s : State) (ch : Channel) :
  youtubeChannels s !! i = Some ch ->
  update_channel i f w s
  = (Ok tt, mkState (<[i := f ch]> (youtubeChannels s)) (calls s) (log s)).
Proof. intros H. unfold update_channel. now rewrite H. Qed.

Lemma saveChannels_eq (w : World) (s : State) :
  saveChannels w s
  = (Ok tt, advance 1 [EvWriteFile (youtubeChannels s) (writeFileSync w (calls s))] s).
Proof. reflexivity. Qed.

(** The notification branch, by what Discord answers. *)
Lemma notify_eq (i : nat) (ch : Channel) (target v t th ct : string)
    (w : World) (s : State) :
  youtubeChannels s !! i = Some ch ->
  let n := calls s in
  let m := build_message t v ct th (clock w (S n)) in
  let l' := <[i := mkChannel (channelId ch) (channelName ch)
                    (notificationChannelId ch) (addedBy ch) (addedAt ch)
                    true (Some (clock w (S (S (S n)))))]> (youtubeChannels s) in
  notify i ch target (StLive v t th ct) w s =
  match channels_fetch w n target with
  | CfRejected => (Throw DiscordError, advance 1 [EvChannelsFetch target] s)
  | CfNull => (Ok tt, advance 1 [EvChannelsFetch target] s)
  | CfChannel =>
      if send w (S (S n)) target m then
        (Ok tt,
         mkState l' (5 + n)
           (log s ++ [EvChannelsFetch target;
                      EvSend (channelId ch) target m true;
                      EvWriteFile l' (writeFileSync w (S (S (S (S n)))))]))
      else
        (Throw DiscordError,
         advance 3 [EvChannelsFetch target; EvSend (channelId ch) target m false] s)
  end.
Proof.
  intros Hi n m l'. subst n m l'.
  assert (Hlt : (i < length (youtubeChannels s))%nat) by (eapply lookup_lt_Some; exact Hi).
  unfold notify, client_channels_fetch, discordChannel_send, new_Date,
    saveChannels, update_channel, advance.
  run_js.
  destruct (channels_fetch w (calls s) target); [reflexivity | reflexivity |].
  cbn. destruct (send w (S (S (calls s))) target _); cbn.
  - rewrite Hi. cbn. rewrite list_lookup_insert_eq by exact Hlt. cbn.
    rewrite list_insert_insert_eq. rewrite <- !app_assoc. reflexivity.
  - rewrite <- !app_assoc. reflexivity.
Qed.

Lemma react_offline (i : nat) (ch : Channel) (w : World) (s : State) :
  youtubeChannels s !! i = Some ch ->
  react i ch StOffline w s =
  if isLive ch then
    let l' := <[i := mkChannel (channelId ch) (channelName ch)
                      (notificationChannelId ch) (addedBy ch) (addedAt ch)
                      false (lastNotified ch)]> (youtubeChannels s) in
    (Ok tt, mkState l' (S (calls s))
              (log s ++ [EvWriteFile l' (writeFileSync w (calls s))]))
  else (Ok tt, s).
Proof.
  intros Hi. unfold react. cbn [status_isLive andb negb].
  destruct (isLive ch); [|reflexivity].
  unfold saveChannels, update_channel. run_js. rewrite Hi. reflexivity.
Qed.

Lemma react_live (i : nat) (ch : Channel) (v t th ct : string) (w : World) (s : State) :
  react i ch (StLive v t th ct) w s =
  if Js.truthy (notificationChannelId ch) then
    if isLive ch then (Ok tt, s)
    else notify i ch (Js.render (notificationChannelId ch)) (StLive v t th ct) w s
  else (Ok tt, s).
Proof.
  unfold react. cbn [status_isLive andb negb].
  destruct (Js.truthy (notificationChannelId ch)); [|reflexivity].
  destruct (isLive ch); reflexivity.
Qed.

Lemma sends_app (l1 l2 : list Event) : sends (l1 ++ l2) = (sends l1 ++ sends l2)%list.
Proof. apply List.filter_app. Qed.

(** Up to the snapshot, an iteration issues at most the request of the
    prober: the array is the one it started with and nothing was sent. *)
Lemma probed_frame (ch : Channel) (w : World) (s s0 s1 : State)
    (b : bool) (st : option Status) :
  recently_notified ch w s = (Ok b, s0) ->
  checkYouTubeLiveStatus (channelId ch) w s0 = (Ok st, s1) ->
  youtubeChannels s1 = youtubeChannels s /\
  sends (log s1) = sends (log s) /\
  (forall k, watch_log k (Some false) (log s1) = watch_log k (Some false) (log s)) /\
  (forall k, notifications k (log s1) = notifications k (log s)).
Proof.
  intros Hr Hp.
  apply recently_notified_frame in Hr as (n & b' & _ & ->).
  apply probe_frame in Hp as (m & evs & -> & Hev).
  cbn. rewrite app_nil_r.
  split; [reflexivity|].
  unfold notifications, sends, watch_log.
  destruct Hev as [-> | ->].
  - rewrite app_nil_r. auto.
  - repeat split; intros; rewrite ?List.filter_app, ?fold_left_app; cbn;
      rewrite ?app_nil_r; try reflexivity.
    destruct (fold_left (watch k) (log s) (Some false)) as [[]|]; reflexivity.
Qed.

(** C8. When a record marked live is probed and the snapshot is not live,
    the iteration ends normally, [isLive] becomes [false], every other field
    of the record and every other record stay as they were, the array is
    saved, and nothing is sent. *)
Theorem live_to_offline_edge (i : nat) (w : World) (s s0 s1 : State) (ch : Channel) :
  youtubeChannels s !! i = Some ch ->
  isLive ch = true ->
  recently_notified ch w s = (Ok false, s0) ->
  checkYouTubeLiveStatus (channelId ch) w s0 = (Ok (Some StOffline), s1) ->
  let l' := <[i := mkChannel (channelId ch) (channelName ch)
                    (notificationChannelId ch) (addedBy ch) (addedAt ch)
                    false (lastNotified ch)]> (youtubeChannels s) in
  check_channel i w s =
    (Ok tt, mkState l' (S (calls s1))
              (log s1 ++ [EvSnapshot (channelId ch) (Some StOffline);
                          EvWriteFile l' (writeFileSync w (calls s1))])) /\
  sends (log (snd (check_channel i w s))) = sends (log s).
Proof.
  intros Hi Hlive Hr Hp l'.
  destruct (probed_frame ch w s s0 s1 _ _ Hr Hp) as (Hl & Hs & _).
  rewrite (check_channel_probed i w s s0 s1 ch _ Hi Hr Hp).
  rewrite react_offline by (cbn; rewrite Hl; exact Hi).
  rewrite Hlive. cbn. rewrite Hl. fold l'. rewrite <- !app_assoc. cbn.
  split; [reflexivity|].
  rewrite sends_app. cbn. rewrite app_nil_r. exact Hs.
Qed.

Lemma live_to_offline_edge_witness :
  let ch := Sample.record "UC1" (Some "chan-42") true (Some 1000) in
  let w := Sample.world_offline 9000000 in
  youtubeChannels (snd (check_channel 0 w (Sample.start [ch])))
  = [Sample.record "UC1" (Some "chan-42") false (Some 1000)] /\
  sends (log (snd (check_channel 0 w (Sample.start [ch])))) = [].
Proof.
  cbn zeta.
  pose proof (live_to_offline_edge 0 (Sample.world_offline 9000000)
    (Sample.start [Sample.record "UC1" (Some "chan-42") true (Some 1000)])
    _ _ (Sample.record "UC1" (Some "chan-42") true (Some 1000))
    eq_refl eq_refl eq_refl eq_refl) as [He Hs].
  cbn zeta in He. rewrite He. split; reflexivity.
Defined.

(** ** The loop *)

Lemma check_from_S (i n : nat) (w : World) (s : State) :
  check_from i (S n) w s =
  match check_channel i w s with
  | (Ok _, s') => check_from (S i) n w s'
  | (Throw e, s') => (Throw e, s')
  end.
Proof. reflexivity. Qed.

Lemma for_each_app (l1 l2 : list nat) (body : nat -> M unit) (w : World) (s : State) :
  for_each (l1 ++ l2) body w s =
  match for_each l1 body w s with
  | (Ok _, s') => for_each l2 body w s'
  | (Throw e, s') => (Throw e, s')
  end.
Proof.
  revert s. induction l1 as [|i l1 IH]; intros s; cbn; [reflexivity|].
  unfold bind. destruct (body i w s) as [[[]|e] s']; [apply IH | reflexivity].
Qed.

Lemma check_from_split (i n : nat) (w : World) (s : State) :
  check_from 0 (i + n) w s =
  match check_from 0 i w s with
  | (Ok _, s') => check_from i n w s'
  | (Throw e, s') => (Throw e, s')
  end.
Proof. unfold check_from. rewrite seq_app. apply for_each_app. Qed.

Lemma job_eq (w : World) (s : State) :
  job w s = check_from 0 (length (youtubeChannels s)) w (advance 1 [] s).
Proof.
  unfold job, new_Date, advance. run_js. now rewrite app_nil_r.
Qed.

(** C9. When the prober returns [null] for a record, its iteration ends
    normally with the array unchanged and nothing sent, and the loop goes on
    with the next index exactly as it would from that state. *)
Theorem probe_failure_is_isolated (i n : nat) (w : World) (s s0 s1 : State)
    (ch : Channel) :
  youtubeChannels s !! i = Some ch ->
  recently_notified ch w s = (Ok false, s0) ->
  checkYouTubeLiveStatus (channelId ch) w s0 = (Ok None, s1) ->
  let s2 := advance 0 [EvSnapshot (channelId ch) None] s1 in
  check_channel i w s = (Ok tt, s2) /\
  youtubeChannels s2 = youtubeChannels s /\
  sends (log s2) = sends (log s) /\
  check_from i (S n) w s = check_from (S i) n w s2.
Proof.
  intros Hi Hr Hp s2.
  destruct (probed_frame ch w s s0 s1 _ _ Hr Hp) as (Hl & Hs & _).
  assert (Hc : check_channel i w s = (Ok tt, s2))
    by (rewrite (check_channel_probed i w s s0 s1 ch _ Hi Hr Hp); reflexivity).
  split; [exact Hc|]. split; [exact Hl|]. split.
  - subst s2. cbn. rewrite sends_app. cbn. now rewrite app_nil_r.
  - rewrite check_from_S, Hc. reflexivity.
Qed.

Lemma probe_failure_is_isolated_witness :
  let a := Sample.record "UCfail" (Some "chan-42") false None in
  let b := Sample.record "UClive" (Some "chan-42") false None in
  let w := Sample.world_partial 7 "UCfail" in
  let out := job w (Sample.start [a; b]) in
  fst out = Ok tt /\
  youtubeChannels (snd out)
  = [a; Sample.record "UClive" (Some "chan-42") true (Some 7)] /\
  notifications "UClive" (log (snd out)) = 1%nat.
Proof.
  cbn zeta. rewrite job_eq.
  change (length (youtubeChannels (Sample.start _))) with 2%nat.
  destruct (probe_failure_is_isolated 0 1 (Sample.world_partial 7 "UCfail")
    (advance 1 [] (Sample.start
       [Sample.record "UCfail" (Some "chan-42") false None;
        Sample.record "UClive" (Some "chan-42") false None]))
    _ _ (Sample.record "UCfail" (Some "chan-42") false None)
    eq_refl eq_refl eq_refl) as (_ & _ & _ & ->).
  vm_compute. repeat split; reflexivity.
Defined.

(** C10. When the record at index [i] is due a notification and Discord
    rejects the fetch of the target channel or the send, the iteration
    throws; the array is as before the iteration, the failed call is the
    last event, the loop stops there, and so does the job that had reached
    this record; the scheduler goes on with the next job from that state. *)
Theorem delivery_failure_ends_job (i n : nat) (w : World) (s s0 s1 : State)
    (ch : Channel) (target v t th ct : string) :
  youtubeChannels s !! i = Some ch ->
  recently_notified ch w s = (Ok false, s0) ->
  checkYouTubeLiveStatus (channelId ch) w s0 = (Ok (Some (StLive v t th ct)), s1) ->
  notificationChannelId ch = Some target -> target <> "" ->
  isLive ch = false ->
  let m := build_message t v ct th (clock w (S (calls s1))) in
  channels_fetch w (calls s1) target = CfRejected \/
  (channels_fetch w (calls s1) target = CfChannel /\
   send w (S (S (calls s1))) target m = false) ->
  exists s',
    check_channel i w s = (Throw DiscordError, s') /\
    check_from i (S n) w s = (Throw DiscordError, s') /\
    (forall start,
       length (youtubeChannels start) = (i + S n)%nat ->
       check_from 0 i w (advance 1 [] start) = (Ok tt, s) ->
       job w start = (Throw DiscordError, s') /\
       scheduled_job w start = (Ok tt, s') /\
       forall later, run_jobs (w :: later) start = run_jobs later s') /\
    youtubeChannels s' = youtubeChannels s /\
    sends (log s') = (sends (log s) ++
       match channels_fetch w (calls s1) target with
       | CfChannel => [EvSend (channelId ch) target m false]
       | _ => []
       end)%list /\
    exists attempt,
      log s' = (log s1 ++ EvSnapshot (channelId ch) (Some (StLive v t th ct))
                       :: attempt)%list /\
      (attempt = [EvChannelsFetch target] \/
       attempt = [EvChannelsFetch target; EvSend (channelId ch) target m false]).
Proof.
  intros Hi Hr Hp Htarget Hne Hoff m Hfail.
  destruct (probed_frame ch w s s0 s1 _ _ Hr Hp) as (Hl & Hs & _).
  pose proof (check_channel_probed i w s s0 s1 ch _ Hi Hr Hp) as Hc.
  cbv beta iota in Hc. rewrite react_live in Hc.
  assert (Ht : Js.truthy (notificationChannelId ch) = true)
    by (rewrite Htarget; destruct target; [congruence | reflexivity]).
  rewrite Ht, Hoff, Htarget in Hc. cbn [Js.render] in Hc.
  rewrite notify_eq in Hc by (cbn; rewrite Hl; exact Hi).
  cbn [calls advance Nat.add] in Hc. fold m in Hc.
  assert (Hjob : forall s', check_channel i w s = (Throw DiscordError, s') ->
            check_from i (S n) w s = (Throw DiscordError, s') /\
            forall start,
              length (youtubeChannels start) = (i + S n)%nat ->
              check_from 0 i w (advance 1 [] start) = (Ok tt, s) ->
              job w start = (Throw DiscordError, s') /\
              scheduled_job w start = (Ok tt, s') /\
              forall later, run_jobs (w :: later) start = run_jobs later s').
  { intros s' Hs'.
    assert (Hfrom : check_from i (S n) w s = (Throw DiscordError, s'))
      by (rewrite check_from_S, Hs'; reflexivity).
    split; [exact Hfrom|]. intros start Hlen Hpre.
    assert (Hj : job w start = (Throw DiscordError, s'))
      by (rewrite job_eq, Hlen, check_from_split, Hpre; exact Hfrom).
    assert (Hsj : scheduled_job w start = (Ok tt, s'))
      by (unfold scheduled_job, try_catch; now rewrite Hj).
    split; [exact Hj|]. split; [exact Hsj|].
    intros later. cbn [run_jobs]. now rewrite Hsj. }
  destruct Hfail as [Hf | [Hf Hsend]]; rewrite Hf in Hc |- *.
  - eexists. split; [exact Hc|]. destruct (Hjob _ Hc) as [H1 H2].
    split; [exact H1|]. split; [exact H2|]. cbn.
    split; [exact Hl|]. split.
    + rewrite !sends_app. cbn. rewrite !app_nil_r. exact Hs.
    + exists [EvChannelsFetch target]. rewrite <- app_assoc. cbn. auto.
  - rewrite Hsend in Hc.
    eexists. split; [exact Hc|]. destruct (Hjob _ Hc) as [H1 H2].
    split; [exact H1|]. split; [exact H2|]. cbn.
    split; [exact Hl|]. split.
    + rewrite !sends_app. cbn. rewrite Hs, app_nil_r. reflexivity.
    + eexists. rewrite <- app_assoc. cbn. split; [reflexivity | auto].
Qed.

Lemma delivery_failure_ends_job_witness :
  let a := Sample.record "UC1" (Some "chan-42") false None in
  let b := Sample.record "UC2" (Some "chan-42") false None in
  let w := Sample.world_undelivered 7 in
  exists s',
    scheduled_job w (Sample.start [a; b]) = (Ok tt, s') /\
    youtubeChannels s' = [a; b] /\
    length (sends (log s')) = 1%nat.
Proof.
  cbn zeta.
  destruct (delivery_failure_ends_job 0 1 (Sample.world_undelivered 7)
    (advance 1 [] (Sample.start
       [Sample.record "UC1" (Some "chan-42") false None;
        Sample.record "UC2" (Some "chan-42") false None]))
    _ _ (Sample.record "UC1" (Some "chan-42") false None)
    "chan-42" _ _ _ _ eq_refl eq_refl eq_refl eq_refl
    ltac:(discriminate) eq_refl (or_intror (conj eq_refl eq_refl)))
    as (s' & _ & _ & Hjob & Hl & Hs & _).
  exists s'. split; [|split].
  - apply (Hjob (Sample.start _)); reflexivity.
  - rewrite Hl. reflexivity.
  - rewrite Hs. reflexivity.
Defined.

(** ** Live snapshots and the [isLive] field *)

(** Against C2 as stated: two jobs in which the prober reports the channel
    live and [isLive] stays [false]: the record has no notification target; the record has
    one and [client.channels.fetch] resolves to [null]. The field does not
    follow the snapshot. *)
Lemma isLive_not_set_without_target :
  let live := EvSnapshot "UC1"
                (Some (StLive "vid1" "Launch"
                         "https://i.ytimg.com/vi/vid1/hqdefault.jpg" "Some Channel")) in
  let ch := Sample.record "UC1" None false None in
  let out := job (Sample.world_live 7) (Sample.start [ch]) in
  let ch' := Sample.record "UC1" (Some "chan-42") false None in
  let out' := job (Sample.world_no_target 7) (Sample.start [ch']) in
  (fst out = Ok tt /\ In live (log (snd out)) /\
   youtubeChannels (snd out) = [ch] /\ isLive ch = false) /\
  (fst out' = Ok tt /\ In live (log (snd out')) /\
   youtubeChannels (snd out') = [ch'] /\ isLive ch' = false).
Proof.
  vm_compute. repeat split; try reflexivity; right; left; reflexivity.
Qed.

(** The loop body on a live snapshot, by the record and by what Discord
    answers. *)
Lemma check_channel_live (i : nat) (w : World) (s s0 s1 : State)
    (ch : Channel) (v t th ct : string) :
  youtubeChannels s !! i = Some ch ->
  recently_notified ch w s = (Ok false, s0) ->
  checkYouTubeLiveStatus (channelId ch) w s0 = (Ok (Some (StLive v t th ct)), s1) ->
  let target := Js.render (notificationChannelId ch) in
  let m := build_message t v ct th (clock w (S (calls s1))) in
  let delivered :=
    (Js.truthy (notificationChannelId ch) && negb (isLive ch)
     && found (channels_fetch w (calls s1) target)
     && send w (S (S (calls s1))) target m)%bool in
  let out := check_channel i w s in
  youtubeChannels (snd out) =
    (if delivered
     then <[i := mkChannel (channelId ch) (channelName ch)
                   (notificationChannelId ch) (addedBy ch) (addedAt ch)
                   true (Some (clock w (S (S (S (calls s1))))))]>
            (youtubeChannels s)
     else youtubeChannels s) /\
  (delivered = true ->
   fst out = Ok tt /\
   sends (log (snd out))
   = (sends (log s) ++ [EvSend (channelId ch) target m true])%list) /\
  (Js.truthy (notificationChannelId ch) = false ->
   out = (Ok tt, advance 0 [EvSnapshot (channelId ch) (Some (StLive v t th ct))] s1)).
Proof.
  intros Hi Hr Hp target m delivered out. subst out.
  destruct (probed_frame ch w s s0 s1 _ _ Hr Hp) as (Hl & Hs & _).
  rewrite (check_channel_probed i w s s0 s1 ch _ Hi Hr Hp).
  cbv beta iota. rewrite react_live. subst delivered.
  destruct (Js.truthy (notificationChannelId ch)); cbn [andb negb].
  2:{ cbn. repeat split; try discriminate. exact Hl. }
  destruct (isLive ch); cbn [andb negb].
  { cbn. repeat split; try discriminate. exact Hl. }
  rewrite notify_eq by (cbn; rewrite Hl; exact Hi).
  cbn [calls advance Nat.add]. fold target m.
  destruct (channels_fetch w (calls s1) target); cbn [found andb].
  1,2: cbn; repeat split; try discriminate; exact Hl.
  destruct (send w (S (S (calls s1))) target m); cbn.
  - rewrite Hl. split; [reflexivity|]. split; [|discriminate].
    intros _. split; [reflexivity|].
    rewrite !sends_app. cbn. rewrite Hs, app_nil_r. reflexivity.
  - repeat split; try discriminate. exact Hl.
Qed.

(** C2, as the code has it. When a record is probed and the snapshot is
    live, [isLive] becomes [true], and [lastNotified] the time of the clock,
    exactly when a notification is delivered: the target is set, the record
    was not live, the target channel is found and the send succeeds. In
    every other case the array is unchanged; without a target Discord is not
    called at all. *)
Theorem isLive_follows_delivery (i : nat) (w : World) (s s0 s1 : State)
    (ch : Channel) (v t th ct : string) :
  youtubeChannels s !! i = Some ch ->
  recently_notified ch w s = (Ok false, s0) ->
  checkYouTubeLiveStatus (channelId ch) w s0 = (Ok (Some (StLive v t th ct)), s1) ->
  let target := Js.render (notificationChannelId ch) in
  let m := build_message t v ct th (clock w (S (calls s1))) in
  let delivered :=
    (Js.truthy (notificationChannelId ch) && negb (isLive ch)
     && found (channels_fetch w (calls s1) target)
     && send w (S (S (calls s1))) target m)%bool in
  let out := check_channel i w s in
  youtubeChannels (snd out) =
    (if delivered
     then <[i := mkChannel (channelId ch) (channelName ch)
                   (notificationChannelId ch) (addedBy ch) (addedAt ch)
                   true (Some (clock w (S (S (S (calls s1))))))]>
            (youtubeChannels s)
     else youtubeChannels s) /\
  (delivered = true ->
   fst out = Ok tt /\
   sends (log (snd out))
   = (sends (log s) ++ [EvSend (channelId ch) target m true])%list) /\
  (Js.truthy (notificationChannelId ch) = false ->
   out = (Ok tt, advance 0 [EvSnapshot (channelId ch) (Some (StLive v t th ct))] s1)).
Proof.
  intros Hi Hr Hp. exact (check_channel_live i w s s0 s1 ch v t th ct Hi Hr Hp).
Qed.

Lemma isLive_follows_delivery_witness :
  let ch := Sample.record "UC1" (Some "chan-42") false None in
  let out := check_channel 0 (Sample.world_live 7) (Sample.start [ch]) in
  youtubeChannels (snd out)
  = [Sample.record "UC1" (Some "chan-42") true (Some 7)].
Proof.
  cbn zeta.
  exact (proj1 (isLive_follows_delivery 0 (Sample.world_live 7)
    (Sample.start [Sample.record "UC1" (Some "chan-42") false None])
    _ _ (Sample.record "UC1" (Some "chan-42") false None) _ _ _ _
    eq_refl eq_refl eq_refl)).
Defined.

(** ** At most one notification per live run *)

Lemma keys_insert (l : list Channel) (i : nat) (ch c' : Channel) :
  l !! i = Some ch -> channelId c' = channelId ch ->
  map channelId (<[i := c']> l) = map channelId l.
Proof.
  intros Hi Hk. change (channelId <$> <[i:=c']> l = channelId <$> l).
  rewrite list_fmap_insert, Hk. apply list_insert_id.
  rewrite list_lookup_fmap, Hi. reflexivity.
Qed.

Lemma unique_keys_lookup (l : list Channel) (i j : nat) (a b : Channel) :
  unique_keys l -> l !! i = Some a -> l !! j = Some b ->
  channelId a = channelId b -> i = j.
Proof.
  intros Hu Ha Hb Hk.
  apply (NoDup_lookup (channelId <$> l) i j (channelId a) Hu);
    rewrite list_lookup_fmap; [rewrite Ha | rewrite Hb, Hk]; reflexivity.
Qed.

Lemma In_insert (l : list Channel) (i : nat) (c c' : Channel) :
  In c (<[i := c']> l) ->
  c = c' \/ exists j, j <> i /\ l !! j = Some c.
Proof.
  intros H. apply list_elem_of_In, list_elem_of_lookup in H as [j Hj].
  apply list_lookup_insert_Some in Hj as [(-> & -> & _) | (Hne & Hj)]; eauto.
Qed.

Lemma watch_log_app (k : string) (st : option bool) (l1 l2 : list Event) :
  watch_log k st (l1 ++ l2) = watch_log k (watch_log k st l1) l2.
Proof. apply fold_left_app. Qed.

Lemma watch_log_None (k : string) (l : list Event) : watch_log k None l = None.
Proof. induction l as [|e l IH]; [reflexivity | exact IH]. Qed.

Section Monitor.

Variable k : string.

(** a state that differs from a settled one by events the monitor ignores *)
Lemma settled_quiet (s s' : State) (evs : list Event) :
  settled k s ->
  youtubeChannels s' = youtubeChannels s ->
  log s' = (log s ++ evs)%list ->
  (forall st, watch_log k (Some st) evs = Some st) ->
  settled k s'.
Proof.
  intros (Hu & fired & Hw & Hlive) Hl Hlog Hq. unfold settled.
  rewrite Hl, Hlog. split; [exact Hu|]. exists fired.
  rewrite watch_log_app, Hw. auto.
Qed.

(** the record at [i] goes offline *)
Lemma settled_offline (s s' : State) (i : nat) (ch : Channel) (evs : list Event) :
  settled k s ->
  youtubeChannels s !! i = Some ch ->
  youtubeChannels s' = <[i := set_isLive false ch]> (youtubeChannels s) ->
  log s' = (log s ++ evs)%list ->
  (forall st, watch_log k (Some st) evs
              = Some (if String.eqb (channelId ch) k then false else st)) ->
  settled k s'.
Proof.
  intros (Hu & fired & Hw & Hlive) Hi Hl Hlog Hq. unfold settled, unique_keys.
  rewrite Hl, Hlog, (keys_insert _ i ch) by (exact Hi || reflexivity).
  split; [exact Hu|].
  rewrite watch_log_app, Hw, Hq.
  destruct (String.eqb_spec (channelId ch) k) as [Hk | Hk].
  - exists false. split; [reflexivity | discriminate].
  - exists fired. split; [reflexivity|].
    intros Hf c Hc Hck. apply In_insert in Hc as [-> | (j & _ & Hj)].
    + contradiction.
    + apply Hlive; [exact Hf | | exact Hck].
      apply list_elem_of_In. eapply list_elem_of_lookup_2. exact Hj.
Qed.

(** a notification for the record at [i], which was not live, is delivered *)
Lemma settled_notified (s s' : State) (i : nat) (ch c' : Channel) (evs : list Event) :
  settled k s ->
  youtubeChannels s !! i = Some ch ->
  isLive ch = false ->
  channelId c' = channelId ch -> isLive c' = true ->
  youtubeChannels s' = <[i := c']> (youtubeChannels s) ->
  log s' = (log s ++ evs)%list ->
  (forall st, watch_log k (Some st) evs
              = if String.eqb (channelId ch) k
                then (if st then None else Some true) else Some st) ->
  settled k s'.
Proof.
  intros (Hu & fired & Hw & Hlive) Hi Hoff Hk' Hlive' Hl Hlog Hq.
  unfold settled, unique_keys.
  rewrite Hl, Hlog, (keys_insert _ i ch) by assumption.
  split; [exact Hu|].
  rewrite watch_log_app, Hw, Hq.
  assert (Hin : In ch (youtubeChannels s))
    by (apply list_elem_of_In; eapply list_elem_of_lookup_2; exact Hi).
  destruct (String.eqb_spec (channelId ch) k) as [Hk | Hk].
  - assert (fired = false) as ->.
    { destruct fired; [|reflexivity].
      rewrite (Hlive eq_refl ch Hin Hk) in Hoff. discriminate. }
    exists true. split; [reflexivity|].
    intros _ c Hc Hck. apply In_insert in Hc as [-> | (j & Hne & Hj)].
    + exact Hlive'.
    + exfalso. apply Hne. symmetry.
      apply (unique_keys_lookup _ i j ch c Hu Hi Hj). congruence.
  - exists fired. split; [reflexivity|].
    intros Hf c Hc Hck. apply In_insert in Hc as [-> | (j & _ & Hj)].
    + congruence.
    + apply Hlive; [exact Hf | | exact Hck].
      apply list_elem_of_In. eapply list_elem_of_lookup_2. exact Hj.
Qed.

End Monitor.

Section Settled.

Variable k : string.

Lemma check_channel_cooling (i : nat) (w : World) (s s0 : State) (ch : Channel) :
  youtubeChannels s !! i = Some ch ->
  recently_notified ch w s = (Ok true, s0) ->
  check_channel i w s = (Ok tt, s0).
Proof.
  intros Hi Hr. unfold check_channel, bind at 1, get at 1.
  rewrite Hi. unfold bind at 1. now rewrite Hr.
Qed.

Lemma check_channel_absent (i : nat) (w : World) (s : State) :
  youtubeChannels s !! i = None -> check_channel i w s = (Ok tt, s).
Proof.
  intros Hi. unfold check_channel, bind at 1, get at 1. now rewrite Hi.
Qed.

(** One iteration of the loop keeps the monitor satisfied. *)
Lemma check_channel_settled (i : nat) (w : World) (s : State) :
  settled k s -> settled k (snd (check_channel i w s)).
Proof.
  intros Hs.
  destruct (youtubeChannels s !! i) as [ch|] eqn:Hi;
    [|now rewrite check_channel_absent].
  destruct (recently_notified ch w s) as [r s0] eqn:Hr.
  destruct (recently_notified_frame _ _ _ _ _ Hr) as (n & b & -> & Hs0).
  assert (Hset0 : settled k s0).
  { apply (settled_quiet k s s0 []); [exact Hs | now subst | now subst | reflexivity]. }
  assert (Hl0 : youtubeChannels s0 = youtubeChannels s) by now subst.
  destruct b; [now rewrite (check_channel_cooling i w s s0 ch)|].
  destruct (probe_total w s0 (channelId ch)) as (st & evs & m & Hp & Hev).
  rewrite (check_channel_probed i w s s0 _ ch st Hi Hr Hp).
  set (s1 := advance m evs s0).
  assert (Hset1 : settled k s1).
  { apply (settled_quiet k s0 s1 evs); [exact Hset0 | reflexivity | reflexivity |].
    destruct Hev as [-> | ->]; reflexivity. }
  assert (Hi1 : youtubeChannels s1 !! i = Some ch) by (cbn; rewrite Hl0; exact Hi).
  clearbody s1. clear Hp Hev Hs Hset0 Hr Hs0 Hl0 Hi s s0.
  destruct st as [[v t th ct|]|]; cbn [snd].
  - (* live *)
    rewrite react_live.
    destruct (Js.truthy (notificationChannelId ch)).
    2:{ eapply settled_quiet; [exact Hset1 | reflexivity | reflexivity | reflexivity]. }
    destruct (isLive ch) eqn:Hlive.
    { eapply settled_quiet; [exact Hset1 | reflexivity | reflexivity | reflexivity]. }
    rewrite notify_eq by exact Hi1. cbn [advance calls Nat.add].
    destruct (channels_fetch w (calls s1) _).
    1,2: eapply settled_quiet;
      [exact Hset1 | reflexivity | cbn; rewrite <- app_assoc; reflexivity | reflexivity].
    destruct (send w (S (S (calls s1))) _ _).
    + eapply (settled_notified k s1 _ i ch);
        [exact Hset1 | exact Hi1 | exact Hlive | | | reflexivity
        | cbn; rewrite <- app_assoc; reflexivity |]; [reflexivity | reflexivity |].
      intros st. cbn. destruct (String.eqb (channelId ch) k); [|reflexivity].
      destruct st; reflexivity.
    + eapply settled_quiet;
        [exact Hset1 | reflexivity | cbn; rewrite <- app_assoc; reflexivity | reflexivity].
  - (* offline *)
    rewrite react_offline by exact Hi1. cbn [advance calls Nat.add].
    destruct (isLive ch) eqn:Hlive.
    + eapply (settled_offline k s1 _ i ch);
        [exact Hset1 | exact Hi1 | reflexivity
        | cbn; rewrite <- app_assoc; reflexivity |].
      intros st. cbn. destruct (String.eqb (channelId ch) k); reflexivity.
    + eapply (settled_offline k s1 _ i ch);
        [exact Hset1 | exact Hi1 | | reflexivity |].
      * cbn. symmetry. apply list_insert_id. rewrite Hi1. f_equal.
        destruct ch; cbn in *. now subst.
      * intros st. cbn. destruct (String.eqb (channelId ch) k); reflexivity.
  - (* the prober failed *)
    eapply settled_quiet; [exact Hset1 | reflexivity | reflexivity | reflexivity].
Qed.

Lemma for_each_settled (l : list nat) (w : World) (s : State) :
  settled k s -> settled k (snd (for_each l check_channel w s)).
Proof.
  revert s. induction l as [|i l IH]; intros s Hs; [exact Hs|].
  cbn [for_each]. unfold bind.
  pose proof (check_channel_settled i w s Hs) as H1.
  destruct (check_channel i w s) as [[[]|e] s']; [apply IH|]; exact H1.
Qed.

Lemma scheduled_job_settled (w : World) (s : State) :
  settled k s -> settled k (snd (scheduled_job w s)).
Proof.
  intros Hs. unfold scheduled_job, try_catch. rewrite job_eq.
  assert (H0 : settled k (advance 1 [] s))
    by (apply (settled_quiet k s _ []); [exact Hs | reflexivity | reflexivity | reflexivity]).
  pose proof (for_each_settled (seq 0 (length (youtubeChannels s))) w _ H0) as H1.
  unfold check_from.
  destruct (for_each _ check_channel w (advance 1 [] s)) as [[[]|e] s']; exact H1.
Qed.

Lemma run_jobs_settled (worlds : list World) (s : State) :
  settled k s -> settled k (run_jobs worlds s).
Proof.
  revert s. induction worlds as [|w more IH]; intros s Hs; [exact Hs|].
  cbn [run_jobs]. apply IH, scheduled_job_settled, Hs.
Qed.

(** a log the monitor accepts has at most one delivered notification in any
    stretch without an offline snapshot *)
Lemma watch_run (run : list Event) (st st' : bool) :
  watch_log k (Some st) run = Some st' ->
  (forall e, In e run -> offline_for k e = false) ->
  (notifications k run + (if st then 1 else 0) <= 1)%nat.
Proof.
  revert st. induction run as [|e run IH]; intros st Hw Hoff.
  - destruct st; cbn; lia.
  - cbn in Hw. unfold notifications. cbn [List.filter].
    rewrite (Hoff e (or_introl eq_refl)) in Hw.
    assert (Hrest : forall e', In e' run -> offline_for k e' = false)
      by (intros e' He'; apply Hoff; now right).
    destruct (delivered_for k e).
    + destruct st.
      * fold (watch_log k None run) in Hw. rewrite watch_log_None in Hw. discriminate.
      * specialize (IH true Hw Hrest). unfold notifications in IH.
        cbn [length]. lia.
    + exact (IH st Hw Hrest).
Qed.

End Settled.

(** ** Jobs over a single record *)

Lemma configured_truthy (w : World) : configured w -> Js.truthy (YOUTUBE_API_KEY w) = true.
Proof. intros (key & Hk & Hne). eapply truthy_key; eassumption. Qed.

Lemma probe_live (w : World) (s : State) (k : string) :
  shows_live w k ->
  exists v t th ct,
    checkYouTubeLiveStatus k w s
    = (Ok (Some (StLive v t th ct)), advance 1 [EvFetch (live_url w k)] s).
Proof.
  intros [Hc Hlive]. rewrite probe_eq by (apply configured_truthy, Hc).
  destruct (Hlive (calls s)) as (x & more & r & d & -> & -> & -> & ->).
  eauto.
Qed.

Lemma probe_offline (w : World) (s : State) (k : string) :
  shows_offline w k ->
  checkYouTubeLiveStatus k w s
  = (Ok (Some StOffline), advance 1 [EvFetch (live_url w k)] s).
Proof.
  intros [Hc Hoff]. rewrite probe_eq by (apply configured_truthy, Hc).
  destruct (Hoff (calls s)) as (r & d & -> & -> & -> & [-> | ->]); reflexivity.
Qed.

Lemma due_not_recent (ch : Channel) (w : World) (s : State) :
  due ch w ->
  exists n, recently_notified ch w s = (Ok false, advance n [] s).
Proof.
  unfold due. rewrite recently_notified_eq.
  destruct (lastNotified ch) as [t0|]; intros H.
  - exists 1%nat. specialize (H (calls s)).
    apply Z.ltb_ge in H. now rewrite H.
  - exists 0%nat. now rewrite advance_0.
Qed.

Lemma scheduled_job_single (w : World) (s : State) (ch : Channel) :
  youtubeChannels s = [ch] ->
  snd (scheduled_job w s) = snd (check_channel 0 w (advance 1 [] s)).
Proof.
  intros H. unfold scheduled_job, try_catch. rewrite job_eq, H. cbn [length].
  rewrite check_from_S.
  destruct (check_channel 0 w (advance 1 [] s)) as [[[]|e] s']; reflexivity.
Qed.

Section Single.

Variables (w : World) (s : State) (ch : Channel).
Hypothesis Hreg : youtubeChannels s = [ch].

Let s' := snd (scheduled_job w s).

Lemma single_at_0 : youtubeChannels (advance 1 [] s) !! 0%nat = Some ch.
Proof. cbn. now rewrite Hreg. Qed.

(** within the cooldown the job does nothing *)
Lemma step_cooling (t0 : Z) :
  lastNotified ch = Some t0 ->
  (forall n, clock w n - t0 < cooldown) ->
  youtubeChannels s' = [ch] /\ log s' = log s.
Proof.
  intros Ht Hlt. subst s'. rewrite (scheduled_job_single w s ch Hreg).
  rewrite (check_channel_skipped 0 w _ ch t0 single_at_0 Ht (Hlt _)).
  cbn. now rewrite !app_nil_r.
Qed.

(** an offline record that is due and shown live is notified once *)
Lemma step_fires (target : string) :
  notificationChannelId ch = Some target -> target <> "" ->
  isLive ch = false ->
  due ch w -> shows_live w (channelId ch) -> delivers w ->
  exists n m,
    youtubeChannels s'
    = [mkChannel (channelId ch) (channelName ch) (notificationChannelId ch)
                 (addedBy ch) (addedAt ch) true (Some (clock w n))] /\
    sends (log s') = (sends (log s) ++ [EvSend (channelId ch) target m true])%list.
Proof.
  intros Htarget Hne Hoff Hdue Hlive [Hfetch Hsend]. subst s'.
  rewrite (scheduled_job_single w s ch Hreg).
  destruct (due_not_recent ch w (advance 1 [] s) Hdue) as (n & Hr).
  destruct (probe_live w (advance n [] (advance 1 [] s)) _ Hlive)
    as (v & t & th & ct & Hp).
  destruct (check_channel_live 0 w _ _ _ ch v t th ct single_at_0 Hr Hp)
    as (Hl & Hd & _).
  assert (Ht : Js.truthy (notificationChannelId ch) = true)
    by (rewrite Htarget; destruct target; [congruence | reflexivity]).
  rewrite Ht, Hoff, Hfetch, Hsend in Hl, Hd. cbn [andb negb found] in Hl, Hd.
  destruct (Hd eq_refl) as [_ Hs]. rewrite Hl, Hs. cbn [advance youtubeChannels].
  rewrite Hreg, Htarget. cbn. rewrite app_nil_r. eauto.
Qed.

(** a record that is due and shown offline is marked offline, silently *)
Lemma step_offline :
  due ch w -> shows_offline w (channelId ch) ->
  youtubeChannels s' = [set_isLive false ch] /\ sends (log s') = sends (log s).
Proof.
  intros Hdue Hoff. subst s'. rewrite (scheduled_job_single w s ch Hreg).
  destruct (due_not_recent ch w (advance 1 [] s) Hdue) as (n & Hr).
  pose proof (probe_offline w (advance n [] (advance 1 [] s)) _ Hoff) as Hp.
  rewrite (check_channel_probed 0 w _ _ _ ch _ single_at_0 Hr Hp).
  rewrite react_offline by (cbn; now rewrite Hreg).
  destruct (isLive ch) eqn:Hlive; cbn; rewrite ?Hreg, ?sends_app; cbn;
    rewrite ?sends_app, ?app_nil_r; cbn; rewrite ?app_nil_r.
  - split; reflexivity.
  - split; [|reflexivity]. f_equal. destruct ch; cbn in *. now subst.
Qed.

(** a record marked live and shown live is left alone *)
Lemma step_still_live :
  isLive ch = true -> shows_live w (channelId ch) ->
  youtubeChannels s' = [ch] /\ sends (log s') = sends (log s).
Proof.
  intros Hlive Hshow. subst s'. rewrite (scheduled_job_single w s ch Hreg).
  destruct (recently_notified ch w (advance 1 [] s)) as [r s0] eqn:Hr.
  destruct (recently_notified_frame _ _ _ _ _ Hr) as (n & b & -> & ->).
  destruct b.
  - rewrite (check_channel_cooling 0 w _ _ ch single_at_0 Hr). cbn.
    rewrite !app_nil_r. auto.
  - destruct (probe_live w (advance n [] (advance 1 [] s)) _ Hshow)
      as (v & t & th & ct & Hp).
    rewrite (check_channel_probed 0 w _ _ _ ch _ single_at_0 Hr Hp).
    cbv beta iota. rewrite react_live, Hlive.
    destruct (Js.truthy (notificationChannelId ch)); cbn;
      rewrite !sends_app; cbn; rewrite !app_nil_r; auto.
Qed.

End Single.


Lemma world_live_shows (now : Z) (k : string) : shows_live (Sample.world_live now) k.
Proof.
  split.
  - exists "KEY". split; [reflexivity | discriminate].
  - intros n. exists Sample.stream, []. eexists _, _. repeat split; reflexivity.
Qed.

Lemma world_live_delivers (now : Z) : delivers (Sample.world_live now).
Proof. split; reflexivity. Qed.


(** ** The registry commands *)

Lemma resolve_frame (identifier : option Identifier) (w : World) (s : State) :
  exists answer n evs,
    resolveToChannelId identifier w s = (Ok answer, advance n evs s).
Proof.
  destruct identifier as [[[] v]|].
  - rewrite resolve_id. exists (Some v), 0%nat, []. now rewrite advance_0.
  - rewrite resolve_handle.
    destruct (channels_forHandle w (calls s) (forHandle_url w v)) as [|r]; [eauto|].
    destruct (ok r); [|eauto].
    destruct (json r) as [d|]; [|eauto].
    destruct (items d) as [[|x l]|]; eauto.
  - rewrite resolve_custom. eauto.
  - exists None, 0%nat, []. now rewrite advance_0.
Qed.

(** [add_resolved], by the duplicate test and the answer of the API. *)
Lemma add_resolved_eq (message : Incoming) (k : string) (w : World) (s : State) :
  let l := youtubeChannels s in
  let url := snippet_url w k in
  let asked := advance 1 [EvFetch url] s in
  add_resolved message k w s =
  match find (fun c => String.eqb (channelId c) k) l with
  | Some existing =>
      (Ok (AlreadyMonitored
             (if Js.truthy (notificationChannelId existing)
              then notificationChannelId existing else None)), s)
  | None =>
      match channels_snippet w (calls s) url with
      | Rejected => (Throw NetworkError, asked)
      | Resolved r =>
          if ok r then
            match json r with
            | None => (Throw JsonError, asked)
            | Some data =>
                match items data with
                | Some (first :: _) =>
                    let l' := (l ++ [mkChannel k (info_title first)
                                       (Some (channel_id message))
                                       (author_tag message)
                                       (clock w (S (calls s))) false None])%list in
                    (Ok (Added (info_title first)),
                     mkState l' (3 + calls s)
                       (log s ++ [EvFetch url;
                                  EvWriteFile l' (writeFileSync w (S (S (calls s))))]))
                | _ => (Ok CouldNotFind, asked)
                end
            end
          else (Throw (ApiError (status r) (statusText r)), asked)
      end
  end.
Proof.
  intros l url asked. subst l url asked.
  unfold add_resolved, fetch, response_json, push, saveChannels, new_Date, advance.
  run_js.
  destruct (find _ (youtubeChannels s)); [reflexivity|]. cbn.
  destruct (channels_snippet w (calls s) (snippet_url w k)) as [|r]; [reflexivity|].
  cbn. destruct (ok r); cbn; [|reflexivity].
  destruct (json r) as [d|]; [|reflexivity].
  destruct (items d) as [[|x l]|]; cbn; try reflexivity.
  rewrite <- !app_assoc. reflexivity.
Qed.

Lemma find_key_None (k : string) (l : list Channel) :
  find (fun c => String.eqb (channelId c) k) l = None ->
(k ∉ map channelId l) /\
  List.filter (fun c => String.eqb (channelId c) k) l = [].
Proof.
  induction l as [|c l IH]; cbn; intros H.
  - split; [apply not_elem_of_nil | reflexivity].
  - destruct (String.eqb_spec (channelId c) k) as [|Hne]; [discriminate|].
    destruct (IH H) as [Hn Hf]. split; [|exact Hf].
    intros Hin. apply elem_of_cons in Hin as [Heq | Hin]; [congruence | contradiction].
Qed.

Lemma find_key_Some (k : string) (l : list Channel) (c : Channel) :
  In c l -> channelId c = k ->
  exists existing, find (fun c => String.eqb (channelId c) k) l = Some existing.
Proof.
  intros Hin Hk.
  destruct (find (fun c => String.eqb (channelId c) k) l) eqn:Hf; [eauto|].
  pose proof (find_none _ _ Hf c Hin) as Hc. cbn in Hc.
  rewrite Hk, String.eqb_refl in Hc. discriminate.
Qed.

Lemma unique_keys_push (l : list Channel) (c : Channel) :
  unique_keys l -> channelId c ∉ map channelId l -> unique_keys (l ++ [c]).
Proof.
  intros Hu Hn. unfold unique_keys. rewrite map_app. apply NoDup_app.
  split; [exact Hu|]. split; [|apply NoDup_singleton].
  intros x Hx Hx'. apply list_elem_of_singleton in Hx'. now subst.
Qed.

Lemma unique_keys_filter (keep : Channel -> bool) (l : list Channel) :
  unique_keys l -> unique_keys (List.filter keep l).
Proof.
  unfold unique_keys. induction l as [|c l IH]; cbn; intros Hu; [exact Hu|].
  apply NoDup_cons in Hu as [Hn Hu].
  destruct (keep c); [|exact (IH Hu)].
  cbn. apply NoDup_cons. split; [|exact (IH Hu)].
  intros Hin. apply Hn.
  apply (list_elem_of_fmap channelId) in Hin as (x & -> & Hx).
  apply (list_elem_of_fmap_2 channelId).
  apply list_elem_of_In in Hx. apply filter_In in Hx as [Hx _].
  now apply list_elem_of_In.
Qed.

(** the permission test: an administrator goes on, anyone else makes the
    handler throw before it has done anything *)
Lemma addchannel_cases (message : Incoming) (args : list string)
    (w : World) (s : State) :
  addchannel message args w s =
  if is_administrator message then
    (match args with
     | [] => ret ProvideUrl
     | channelUrl :: _ =>
         match getYoutubeIdentifier channelUrl with
         | None => ret InvalidUrl
         | Some identifier =>
             try_catch
               (resolved <- resolveToChannelId (Some identifier) ;;
                if negb (Js.truthy resolved) then ret CouldNotFind
                else add_resolved message (Js.render resolved))
               (fun error => ret (ErrorAdding error))
         end
     end) w s
  else (Throw RangeError, s).
Proof.
  unfold addchannel, bind at 1. unfold permissions_has_ADMINISTRATOR.
  destruct (is_administrator message); reflexivity.
Qed.

Lemma removechannel_cases (message : Incoming) (args : list string)
    (w : World) (s : State) :
  removechannel message args w s =
  if is_administrator message then
    (match args with
     | [] => ret ProvideUrlOrName
     | _ :: _ =>
         let query := Js.join " " args in
         removed <-
           match getYoutubeIdentifier query with
           | Some identifier =>
               try_catch
                 (resolved <- resolveToChannelId (Some identifier) ;;
                  if Js.truthy resolved
                  then filter_channels (other_id (Js.render resolved))
                  else ret false)
                 (fun _ => ret false)
           | None => ret false
           end ;;
         removed <-
           (if negb removed then filter_channels (name_without query)
            else ret removed) ;;
         if (removed : bool) then saveChannels ;;; ret RemovedFromList
         else ret NotInList
     end) w s
  else (Throw RangeError, s).
Proof.
  unfold removechannel, bind at 1. unfold permissions_has_ADMINISTRATOR.
  destruct (is_administrator message); reflexivity.
Qed.

Lemma add_resolved_keys (message : Incoming) (k : string) (w : World) (s : State) :
  unique_keys (youtubeChannels s) ->
  unique_keys (youtubeChannels (snd (add_resolved message k w s))).
Proof.
  intros Hu. rewrite add_resolved_eq.
  destruct (find _ (youtubeChannels s)) eqn:Hf; [exact Hu|].
  destruct (channels_snippet w (calls s) (snippet_url w k)) as [|r]; [exact Hu|].
  destruct (ok r); [|exact Hu].
  destruct (json r) as [d|]; [|exact Hu].
  destruct (items d) as [[|x l]|]; try exact Hu.
  cbn. apply unique_keys_push; [exact Hu|]. cbn. apply (find_key_None _ _ Hf).
Qed.

Lemma addchannel_keys (message : Incoming) (args : list string) (w : World) (s : State) :
  unique_keys (youtubeChannels s) ->
  unique_keys (youtubeChannels (snd (addchannel message args w s))).
Proof.
  intros Hu. rewrite addchannel_cases.
  destruct (is_administrator message); [|exact Hu].
  destruct args as [|channelUrl rest]; [exact Hu|].
  destruct (getYoutubeIdentifier channelUrl) as [identifier|]; [|exact Hu].
  unfold try_catch, bind at 1.
  destruct (resolve_frame (Some identifier) w s) as (answer & n & evs & ->).
  destruct (Js.truthy answer); cbn [negb]; [|exact Hu].
  pose proof (add_resolved_keys message (Js.render answer) w (advance n evs s) Hu) as H.
  destruct (add_resolved message (Js.render answer) w (advance n evs s)) as [[r|e] s'];
    exact H.
Qed.

Lemma filter_channels_eq (keep : Channel -> bool) (w : World) (s : State) :
  filter_channels keep w s =
  (Ok (Nat.ltb (length (List.filter keep (youtubeChannels s)))
               (length (youtubeChannels s))),
   mkState (List.filter keep (youtubeChannels s)) (calls s) (log s)).
Proof. reflexivity. Qed.

Ltac case_ltb :=
  match goal with
  | |- context [Nat.ltb ?a ?b] => destruct (Nat.ltb a b)
  | |- context [Nat.leb ?a ?b] => destruct (Nat.leb a b)
  end.

(** [removechannel] for an administrator and a query: the attempt by id,
    then the attempt by name, then the save. *)
Lemma removechannel_eq (message : Incoming) (arg : string) (rest : list string)
    (w : World) (s : State) :
  is_administrator message = true ->
  let query := Js.join " " (arg :: rest) in
  let by_name (s0 : State) :=
    let kept := List.filter (name_without query) (youtubeChannels s0) in
    if Nat.ltb (length kept) (length (youtubeChannels s0))
    then (Ok RemovedFromList,
          advance 1 [EvWriteFile kept (writeFileSync w (calls s0))]
            (mkState kept (calls s0) (log s0)))
    else (Ok NotInList, mkState kept (calls s0) (log s0)) in
  removechannel message (arg :: rest) w s =
  match getYoutubeIdentifier query with
  | None => by_name s
  | Some identifier =>
      match resolveToChannelId (Some identifier) w s with
      | (Ok resolved, s0) =>
          if Js.truthy resolved then
            let kept := List.filter (other_id (Js.render resolved)) (youtubeChannels s0) in
            if Nat.ltb (length kept) (length (youtubeChannels s0))
            then (Ok RemovedFromList,
                  advance 1 [EvWriteFile kept (writeFileSync w (calls s0))]
                    (mkState kept (calls s0) (log s0)))
            else by_name (mkState kept (calls s0) (log s0))
          else by_name s0
      | (Throw _, s0) => by_name s0
      end
  end.
Proof.
  intros Hadmin query by_name. rewrite removechannel_cases, Hadmin. cbv zeta.
  fold query. unfold bind at 1.
  destruct (getYoutubeIdentifier query) as [identifier|].
  - unfold try_catch, bind at 1.
    destruct (resolveToChannelId (Some identifier) w s) as [[resolved|e] s0].
    + destruct (Js.truthy resolved).
      * rewrite filter_channels_eq.
        case_ltb; cbn [negb]; [reflexivity|].
        unfold bind at 1. rewrite filter_channels_eq. subst by_name. cbv beta zeta. cbn [youtubeChannels calls log].
        case_ltb; reflexivity.
      * unfold ret at 1. cbn [negb]. unfold bind at 1. rewrite filter_channels_eq.
        subst by_name. cbv beta zeta. cbn [youtubeChannels calls log]. case_ltb; reflexivity.
    + unfold ret at 1. cbn [negb]. unfold bind at 1. rewrite filter_channels_eq.
      subst by_name. cbv beta zeta. cbn [youtubeChannels calls log]. case_ltb; reflexivity.
  - unfold ret at 1. cbn [negb]. unfold bind at 1. rewrite filter_channels_eq.
    subst by_name. cbv beta zeta. cbn [youtubeChannels calls log]. case_ltb; reflexivity.
Qed.

Lemma removechannel_keys (message : Incoming) (args : list string) (w : World) (s : State) :
  unique_keys (youtubeChannels s) ->
  unique_keys (youtubeChannels (snd (removechannel message args w s))).
Proof.
  intros Hu.
  destruct (is_administrator message) eqn:Hadmin;
    [|rewrite removechannel_cases, Hadmin; exact Hu].
  destruct args as [|arg rest]; [rewrite removechannel_cases, Hadmin; exact Hu|].
  rewrite removechannel_eq by exact Hadmin. cbv zeta.
  assert (Hname : forall s0, unique_keys (youtubeChannels s0) ->
    unique_keys (youtubeChannels (snd
      (if Nat.ltb (length (List.filter (name_without (Js.join " " (arg :: rest)))
                             (youtubeChannels s0)))
                  (length (youtubeChannels s0))
       then (Ok RemovedFromList,
             advance 1 [EvWriteFile
                          (List.filter (name_without (Js.join " " (arg :: rest)))
                             (youtubeChannels s0))
                          (writeFileSync w (calls s0))]
               (mkState (List.filter (name_without (Js.join " " (arg :: rest)))
                           (youtubeChannels s0)) (calls s0) (log s0)))
       else (Ok NotInList,
             mkState (List.filter (name_without (Js.join " " (arg :: rest)))
                        (youtubeChannels s0)) (calls s0) (log s0)))))).
  { intros s0 H0. case_ltb; cbn; apply unique_keys_filter, H0. }
  destruct (getYoutubeIdentifier _) as [identifier|]; [|apply Hname, Hu].
  destruct (resolve_frame (Some identifier) w s) as (answer & n & evs & ->).
  destruct (Js.truthy answer); [|apply Hname, Hu].
  cbn [youtubeChannels advance calls log].
  destruct (Nat.ltb (length (List.filter (other_id (Js.render answer)) (youtubeChannels s)))
                    (length (youtubeChannels s))).
  - cbn. apply unique_keys_filter, Hu.
  - apply (Hname (mkState _ _ _)). cbn. apply unique_keys_filter, Hu.
Qed.

(** One iteration of the job keeps the channel ids of the array. *)
Lemma check_channel_keys (i : nat) (w : World) (s : State) :
  map channelId (youtubeChannels (snd (check_channel i w s)))
  = map channelId (youtubeChannels s).
Proof.
  destruct (youtubeChannels s !! i) as [ch|] eqn:Hi;
    [|now rewrite check_channel_absent].
  destruct (recently_notified ch w s) as [r s0] eqn:Hr.
  destruct (recently_notified_frame _ _ _ _ _ Hr) as (n & b & -> & Hs0).
  destruct b; [rewrite (check_channel_cooling i w s s0 ch Hi Hr); now subst|].
  destruct (probe_total w s0 (channelId ch)) as (st & evs & m & Hp & _).
  rewrite (check_channel_probed i w s s0 _ ch st Hi Hr Hp).
  assert (Hi1 : youtubeChannels (advance 0 [EvSnapshot (channelId ch) st]
                                   (advance m evs s0)) !! i = Some ch)
    by (subst s0; exact Hi).
  subst s0. clear Hr Hp.
  destruct st as [[v t th ct|]|]; cbn [snd].
  - rewrite react_live.
    destruct (Js.truthy (notificationChannelId ch)); [|reflexivity].
    destruct (isLive ch); [reflexivity|].
    rewrite notify_eq by exact Hi1.
    destruct (channels_fetch w _ _); try reflexivity.
    destruct (send w _ _ _); [|reflexivity].
    cbn [snd youtubeChannels advance]. now apply (keys_insert _ i ch).
  - rewrite react_offline by exact Hi1.
    destruct (isLive ch); [|reflexivity].
    cbn [snd youtubeChannels advance]. now apply (keys_insert _ i ch).
  - reflexivity.
Qed.

Lemma scheduled_job_keys (w : World) (s : State) :
  map channelId (youtubeChannels (snd (scheduled_job w s)))
  = map channelId (youtubeChannels s).
Proof.
  unfold scheduled_job, try_catch. rewrite job_eq. unfold check_from.
  assert (H : forall l s0,
    map channelId (youtubeChannels (snd (for_each l check_channel w s0)))
    = map channelId (youtubeChannels s0)).
  { induction l as [|i l IH]; intros s0; [reflexivity|].
    cbn [for_each]. unfold bind.
    pose proof (check_channel_keys i w s0) as H1.
    destruct (check_channel i w s0) as [[[]|e] s1]; cbn [snd] in *;
      [rewrite IH|]; exact H1. }
  specialize (H (seq 0 (length (youtubeChannels s))) (advance 1 [] s)).
  destruct (for_each _ check_channel w (advance 1 [] s)) as [[[]|e] s1]; exact H.
Qed.

(** Handlers that run one after another keep the ids distinct. An
    [addchannel] that succeeds appends one record with the resolved id,
    which no other record has; adding the same id again, in whatever world,
    answers that the channel is already monitored and leaves the state as it
    is. For an administrator and a URL that resolves, [addchannel] is this
    step. The three operations that touch the array, [addchannel],
    [removechannel] and the job, each run from start to end, keep the
    channel ids distinct. *)
Theorem channel_ids_stay_unique :
  (forall message k w s name s',
     add_resolved message k w s = (Ok (Added name), s') ->
     (exists now,
        youtubeChannels s'
        = (youtubeChannels s ++
           [mkChannel k name (Some (channel_id message)) (author_tag message)
                      now false None])%list) /\
     List.filter (fun c => String.eqb (channelId c) k) (youtubeChannels s)
     = [] /\
     length (List.filter (fun c => String.eqb (channelId c) k) (youtubeChannels s'))
     = 1%nat /\
     forall message2 w2,
       exists where_,
         add_resolved message2 k w2 s' = (Ok (AlreadyMonitored where_), s')) /\
  (forall message url rest w s identifier k s0,
     is_administrator message = true ->
     getYoutubeIdentifier url = Some identifier ->
     resolveToChannelId (Some identifier) w s = (Ok (Some k), s0) ->
     k <> "" ->
     addchannel message (url :: rest) w s
     = match add_resolved message k w s0 with
       | (Ok reply, s') => (Ok reply, s')
       | (Throw e, s') => (Ok (ErrorAdding e), s')
       end) /\
  (forall message args w s,
     unique_keys (youtubeChannels s) ->
     unique_keys (youtubeChannels (snd (addchannel message args w s)))) /\
  (forall message args w s,
     unique_keys (youtubeChannels s) ->
     unique_keys (youtubeChannels (snd (removechannel message args w s)))) /\
  (forall w s,
     unique_keys (youtubeChannels s) ->
     unique_keys (youtubeChannels (snd (scheduled_job w s)))).
Proof.
  split; [|split; [|split; [|split]]].
  - intros message k w s name s' Hadd. rewrite add_resolved_eq in Hadd.
    destruct (find _ (youtubeChannels s)) eqn:Hf; [discriminate|].
    destruct (find_key_None _ _ Hf) as [_ Hnone].
    destruct (channels_snippet w (calls s) (snippet_url w k)) as [|r]; [discriminate|].
    destruct (ok r); [|discriminate].
    destruct (json r) as [d|]; [|discriminate].
    destruct (items d) as [[|x l]|]; try discriminate.
    cbv zeta in Hadd. injection Hadd as <- <-. cbn [youtubeChannels].
    split; [eauto|]. split; [exact Hnone|]. split.
    + rewrite List.filter_app, Hnone. cbn. now rewrite String.eqb_refl.
    + intros message2 w2. rewrite add_resolved_eq. cbn [youtubeChannels].
      destruct (find_key_Some k
        (youtubeChannels s ++ [mkChannel k (info_title x) (Some (channel_id message))
                                 (author_tag message) (clock w (S (calls s)))
                                 false None])
        (mkChannel k (info_title x) (Some (channel_id message))
           (author_tag message) (clock w (S (calls s))) false None))
        as (existing & ->); [apply in_or_app; right; now left | reflexivity |].
      eauto.
  - intros message url rest w s identifier k s0 Hadmin Hid Hres Hne.
    rewrite addchannel_cases, Hadmin, Hid.
    unfold try_catch, bind at 1. rewrite Hres.
    assert (Js.truthy (Some k) = true) as -> by (destruct k; [congruence | reflexivity]).
    reflexivity.
  - apply addchannel_keys.
  - apply removechannel_keys.
  - intros w s Hu. unfold unique_keys. now rewrite scheduled_job_keys.
Qed.

Lemma channel_ids_stay_unique_witness :
  let w := Sample.world_live 5 in
  let s := Sample.start [] in
  let s' := snd (addchannel Sample.admin ["https://www.youtube.com/channel/UC1"] w s) in
  youtubeChannels s'
  = [mkChannel "UC1" "Some Channel" (Some "chan-42") "admin#0001" 5 false None] /\
  unique_keys (youtubeChannels s') /\
  exists where_,
    add_resolved Sample.admin "UC1" (Sample.world_offline 9) s'
    = (Ok (AlreadyMonitored where_), s').
Proof.
  cbn zeta. split; [vm_compute; reflexivity|]. split.
  - apply (proj1 (proj2 (proj2 channel_ids_stay_unique))).
    apply NoDup_nil_2.
  - destruct (proj1 channel_ids_stay_unique Sample.admin "UC1"
                (Sample.world_live 5) (Sample.start []) "Some Channel" _ eq_refl)
      as (_ & _ & _ & Hagain).
    exact (Hagain Sample.admin (Sample.world_offline 9)).
Defined.

(** *** Two adds that overlap

    The two stretches of [addchannel], run back to back, are the handler. *)
Lemma add_resolved_in_two_steps (message : Incoming) (k : string)
    (w : World) (s : State) :
  add_resolved message k w s
  = (at_ <- add_resolved_request k ;;
     match at_ with
     | Replied reply => ret reply
     | Awaiting channelId_ promise => add_resolved_resume message channelId_ promise
     end) w s.
Proof.
  unfold add_resolved, add_resolved_request, add_resolved_resume, fetch.
  run_js.
  destruct (find _ (youtubeChannels s)); [reflexivity|]. cbn.
  destruct (channels_snippet w (calls s) (snippet_url w k)); reflexivity.
Qed.

Lemma addchannel_in_two_steps (message : Incoming) (args : list string)
    (w : World) (s : State) :
  addchannel message args w s
  = (at_ <- addchannel_request message args ;; addchannel_resume message at_) w s.
Proof.
  rewrite addchannel_cases.
  unfold addchannel_request, addchannel_resume, permissions_has_ADMINISTRATOR.
  destruct (is_administrator message); [|reflexivity].
  destruct args as [|channelUrl rest]; [reflexivity|].
  destruct (getYoutubeIdentifier channelUrl) as [identifier|]; [|reflexivity].
  unfold bind, ret, try_catch. cbn [negb]. cbv beta iota zeta.
  destruct (resolve_frame (Some identifier) w s) as (answer & n & evs & ->).
  destruct (Js.truthy answer); cbn [negb]; [|reflexivity].
  rewrite add_resolved_in_two_steps. unfold bind, ret.
  destruct (add_resolved_request (Js.render answer) w (advance n evs s))
    as [[[reply | k promise] | e] s1]; reflexivity.
Qed.

Lemma find_absent (k : string) (l : list Channel) :
  ~ In k (map channelId l) ->
  find (fun c => String.eqb (channelId c) k) l = None.
Proof.
  induction l as [|c l IH]; cbn; intros Hn; [reflexivity|].
  destruct (String.eqb_spec (channelId c) k) as [He | _]; [tauto|].
  apply IH. tauto.
Qed.

(** Whenever both lookups of the details succeed, two overlapping adds of a
    channel that no record has both push a record for it. *)
Lemma overlapping_adds_both_push (message1 message2 : Incoming) (url k : string)
    (w : World) (s : State) (r1 r2 : Response ChannelInfo)
    (d1 d2 : Listing ChannelInfo) (x1 x2 : ChannelInfo)
    (more1 more2 : list ChannelInfo) :
  is_administrator message1 = true ->
  is_administrator message2 = true ->
  getYoutubeIdentifier url = Some (mkIdentifier TyId k) -> k <> "" ->
  ~ In k (map channelId (youtubeChannels s)) ->
  channels_snippet w (calls s) (snippet_url w k) = Resolved r1 ->
  ok r1 = true -> json r1 = Some d1 -> items d1 = Some (x1 :: more1) ->
  channels_snippet w (S (calls s)) (snippet_url w k) = Resolved r2 ->
  ok r2 = true -> json r2 = Some d2 -> items d2 = Some (x2 :: more2) ->
  exists now1 now2 st,
    overlapping_adds message1 [url] message2 [url] w s
    = (Ok (Added (info_title x1), Added (info_title x2)), st) /\
    youtubeChannels st
    = (youtubeChannels s ++
       [mkChannel k (info_title x1) (Some (channel_id message1))
          (author_tag message1) now1 false None;
        mkChannel k (info_title x2) (Some (channel_id message2))
          (author_tag message2) now2 false None])%list.
Proof.
  intros Ha1 Ha2 Hurl Hk Hnew Hr1 Hok1 Hj1 Hi1 Hr2 Hok2 Hj2 Hi2.
  pose proof (find_absent k _ Hnew) as Hfind.
  assert (Hreq : forall message st,
            is_administrator message = true ->
            youtubeChannels st = youtubeChannels s ->
            addchannel_request message [url] w st
            = (Ok (Awaiting k (channels_snippet w (calls st) (snippet_url w k))),
               advance 1 [EvFetch (snippet_url w k)] st)).
  { intros message st Ha Hst.
    unfold addchannel_request, permissions_has_ADMINISTRATOR.
    rewrite Ha, Hurl. unfold bind at 1. unfold ret at 1. cbn [negb].
    unfold try_catch, bind at 1. rewrite resolve_id.
    assert (Js.truthy (Some k) = true) as -> by (destruct k; [congruence | reflexivity]).
    cbn [negb Js.render]. unfold add_resolved_request. run_js.
    rewrite Hst, Hfind. reflexivity. }
  unfold overlapping_adds. unfold bind at 1.
  rewrite (Hreq message1 s Ha1 eq_refl). cbv beta iota. unfold bind at 1.
  rewrite (Hreq message2 (advance 1 [EvFetch (snippet_url w k)] s) Ha2 eq_refl).
  cbv beta iota. cbn [advance calls youtubeChannels log]. rewrite Hr1.
  replace (channels_snippet w (1 + calls s) (snippet_url w k)) with (Resolved r2)
    by (symmetry; exact Hr2).
  unfold addchannel_resume, add_resolved_resume, response_json, push, saveChannels,
    new_Date.
  run_js. rewrite Hok1. cbn. rewrite Hj1. cbn. rewrite Hi1. cbn.
  rewrite Hok2. cbn. rewrite Hj2. cbn. rewrite Hi2. cbn.
  eexists _, _, _. split; [reflexivity|]. cbn. now rewrite <- app_assoc.
Qed.

(** C6. The duplicate test and the [push] of [addchannel] stand on either
    side of an await, and nothing keeps a second handler out in between.
    Two adds of one channel that overlap, the second started while the
    first awaits its response, both pass the test and both push: from an
    empty array both reply "added" and the array ends with two records of
    one id. The same two commands, one after the other, leave one record
    and answer the second with "already monitored". *)
Theorem overlapping_adds_duplicate_a_key :
  let url := "https://www.youtube.com/channel/UC1" in
  let w := Sample.world_live 5 in
  let s := Sample.start [] in
  let overlapped := overlapping_adds Sample.admin [url] Sample.admin [url] w s in
  let in_turn := (reply1 <- addchannel Sample.admin [url] ;;
                  reply2 <- addchannel Sample.admin [url] ;;
                  ret (reply1, reply2)) w s in
  unique_keys (youtubeChannels s) /\
  fst overlapped = Ok (Added "Some Channel", Added "Some Channel") /\
  map channelId (youtubeChannels (snd overlapped)) = ["UC1"; "UC1"] /\
  ~ unique_keys (youtubeChannels (snd overlapped)) /\
  fst in_turn = Ok (Added "Some Channel", AlreadyMonitored (Some "chan-42")) /\
  map channelId (youtubeChannels (snd in_turn)) = ["UC1"].
Proof.
  cbv zeta.
  assert (Hkeys : map channelId
                    (youtubeChannels
                       (snd (overlapping_adds Sample.admin
                               ["https://www.youtube.com/channel/UC1"] Sample.admin
                               ["https://www.youtube.com/channel/UC1"]
                               (Sample.world_live 5) (Sample.start []))))
                  = ["UC1"; "UC1"]) by (vm_compute; reflexivity).
  split; [apply NoDup_nil_2|].
  split; [vm_compute; reflexivity|].
  split; [exact Hkeys|].
  split.
  - unfold unique_keys. rewrite Hkeys. intros Hdup.
    apply NoDup_cons in Hdup as [Hnot _]. apply Hnot. now left.
  - split; vm_compute; reflexivity.
Qed.

Lemma filter_shorter (keep : Channel -> bool) (l : list Channel) :
  Nat.ltb (length (List.filter keep l)) (length l) = true <->
  exists c, In c l /\ keep c = false.
Proof.
  induction l as [|c l IH]; cbn [List.filter length].
  - split; [discriminate | intros (c & [] & _)].
  - destruct (keep c) eqn:Hc; cbn [length].
    + change (Nat.ltb (S ?a) (S ?b)) with (Nat.ltb a b). rewrite IH.
      split; intros (x & Hx & Hk); [exists x; split; [now right | exact Hk]|].
      destruct Hx as [-> | Hx]; [congruence | eauto].
    + split; [intros _; exists c; split; [now left | exact Hc]|].
      intros _. apply Nat.ltb_lt.
      pose proof (List.filter_length_le keep l). lia.
Qed.

Lemma filter_not_shorter (keep : Channel -> bool) (l : list Channel) :
  Nat.ltb (length (List.filter keep l)) (length l) = false ->
  List.filter keep l = l.
Proof.
  intros H. apply forallb_filter_id. apply forallb_forall. intros c Hc.
  destruct (keep c) eqn:Hk; [reflexivity|].
  assert (Nat.ltb (length (List.filter keep l)) (length l) = true)
    by (apply filter_shorter; eauto).
  congruence.
Qed.

(** [includes] is the substring test *)
Lemma startsWith_spec (p s : string) :
  Js.startsWith p s = true <-> exists b, s = p ++ b.
Proof.
  revert s. induction p as [|a p IH]; intros s; cbn.
  - split; [eauto | reflexivity].
  - destruct s as [|c s].
    + split; [discriminate | intros (b & Hb); discriminate].
    + rewrite andb_true_iff, IH. split.
      * intros [Ha (b & ->)]. apply Ascii.eqb_eq in Ha as ->. eauto.
      * intros (b & [= -> ->]). split; [apply Ascii.eqb_refl | eauto].
Qed.

Lemma includes_spec (q s : string) :
  Js.includes q s = true <-> exists a b, s = a ++ q ++ b.
Proof.
  induction s as [|c s IH].
  - cbn [Js.includes]. rewrite orb_false_r, startsWith_spec. split.
    + intros (b & ->). exists "", b. reflexivity.
    + intros ([|x a] & b & H); [eauto | discriminate].
  - cbn [Js.includes]. rewrite orb_true_iff, startsWith_spec, IH. split.
    + intros [(b & ->) | (a & b & ->)]; [exists "", b | exists (String c a), b];
        reflexivity.
    + intros ([|x a] & b & H); [left; eauto|].
      injection H as -> ->. right. eauto.
Qed.

(** *** Matching through [toLowerCase] ignores case

    For every pair of characters, being the same letter is having the same
    image under the lower-casing of a character. *)
Lemma same_letter_codes :
  forallb (fun n =>
    forallb (fun m =>
      Bool.eqb (same_letter (ascii_of_nat n) (ascii_of_nat m))
               (Ascii.eqb (Js.lower_char (ascii_of_nat n))
                          (Js.lower_char (ascii_of_nat m))))
      (seq 0 256))
    (seq 0 256) = true.
Proof. vm_compute. reflexivity. Qed.

Lemma same_letter_lower (a b : ascii) :
  same_letter a b = Ascii.eqb (Js.lower_char a) (Js.lower_char b).
Proof.
  pose proof same_letter_codes as H.
  rewrite forallb_forall in H.
  specialize (H (nat_of_ascii a)).
  rewrite forallb_forall in H.
  assert (Ha : In (nat_of_ascii a) (seq 0 256))
    by (apply in_seq; pose proof (nat_ascii_bounded a); lia).
  assert (Hb : In (nat_of_ascii b) (seq 0 256))
    by (apply in_seq; pose proof (nat_ascii_bounded b); lia).
  specialize (H Ha (nat_of_ascii b) Hb).
  rewrite !ascii_nat_embedding in H. now apply Bool.eqb_prop in H.
Qed.

Lemma starts_ignoring_case_lower (p s : string) :
  starts_ignoring_case p s
  = Js.startsWith (Js.toLowerCase p) (Js.toLowerCase s).
Proof.
  revert s. induction p as [|a p IH]; intros s; [reflexivity|].
  destruct s as [|b s]; [reflexivity|].
  cbn [starts_ignoring_case Js.toLowerCase Js.startsWith].
  now rewrite same_letter_lower, IH.
Qed.

Lemma contains_ignoring_case_lower (q s : string) :
  contains_ignoring_case q s
  = Js.includes (Js.toLowerCase q) (Js.toLowerCase s).
Proof.
  induction s as [|c s IH].
  - cbn [contains_ignoring_case Js.includes Js.toLowerCase].
    now rewrite (starts_ignoring_case_lower q "").
  - cbn [contains_ignoring_case]. rewrite (starts_ignoring_case_lower q (String c s)).
    cbn [Js.toLowerCase Js.includes]. now rewrite IH.
Qed.

(** [removechannel] for an administrator and a non-empty query, with the
    match on names as the code writes it, through [toLowerCase] *)
Lemma removechannel_contract (message : Incoming) (arg : string) (rest : list string)
    (w : World) (s : State) :
  is_administrator message = true ->
  let query := Js.join " " (arg :: rest) in
  let l := youtubeChannels s in
  let out := removechannel message (arg :: rest) w s in
  let l' := youtubeChannels (snd out) in
  (forall identifier k s0,
     getYoutubeIdentifier query = Some identifier ->
     resolveToChannelId (Some identifier) w s = (Ok (Some k), s0) ->
     k <> "" ->
     (exists c, In c l /\ channelId c = k) ->
     l' = List.filter (fun c => negb (String.eqb (channelId c) k)) l /\
     fst out = Ok RemovedFromList) /\
  (getYoutubeIdentifier query = None \/
   (exists identifier answer s0,
      getYoutubeIdentifier query = Some identifier /\
      resolveToChannelId (Some identifier) w s = (Ok answer, s0) /\
      (Js.truthy answer = false \/
       forall c, In c l -> channelId c <> Js.render answer)) ->
   l' = List.filter
          (fun c => negb (Js.includes (Js.toLowerCase query)
                            (Js.toLowerCase (channelName c)))) l) /\
  (fst out = Ok RemovedFromList \/ fst out = Ok NotInList) /\
  (fst out = Ok RemovedFromList <-> (length l' < length l)%nat) /\
  (l = [] -> fst out = Ok NotInList /\ l' = []).
Proof.
  intros Hadmin query l out l'.
  assert (Hname : forall s0, youtubeChannels s0 = l ->
    let o := if Nat.ltb (length (List.filter (name_without query) (youtubeChannels s0)))
                        (length (youtubeChannels s0))
             then (Ok RemovedFromList,
                   advance 1 [EvWriteFile (List.filter (name_without query)
                                             (youtubeChannels s0))
                                (writeFileSync w (calls s0))]
                     (mkState (List.filter (name_without query) (youtubeChannels s0))
                        (calls s0) (log s0)))
             else (Ok NotInList,
                   mkState (List.filter (name_without query) (youtubeChannels s0))
                     (calls s0) (log s0)) in
    youtubeChannels (snd o) = List.filter (name_without query) l /\
    (fst o = Ok RemovedFromList \/ fst o = Ok NotInList) /\
    (fst o = Ok RemovedFromList <->
     (length (youtubeChannels (snd o)) < length l)%nat) /\
    (l = [] -> fst o = Ok NotInList)).
  { intros s0 Hl0. cbv zeta. rewrite Hl0.
    destruct (Nat.ltb _ _) eqn:Hlt; cbn [fst snd youtubeChannels advance].
    - apply Nat.ltb_lt in Hlt. repeat split; auto.
      intros Hnil. rewrite Hnil in Hlt. cbn in Hlt. lia.
    - apply Nat.ltb_ge in Hlt. repeat split; auto; try discriminate.
      intros Hlt'. lia. }
  assert (Hout : out = removechannel message (arg :: rest) w s) by reflexivity.
  rewrite removechannel_eq in Hout by exact Hadmin. cbv zeta in Hout.
  fold query in Hout.
  destruct (getYoutubeIdentifier query) as [identifier|] eqn:Hid.
  2:{ destruct (Hname s eq_refl) as (H1 & H2 & H3 & H4). cbv zeta in H1, H2, H3, H4.
      rewrite <- Hout in H1, H2, H3, H4. fold l' in H1, H3.
      split; [intros ? ? ? [=]|]. split; [intros _; exact H1|].
      split; [exact H2|]. split; [exact H3|].
      intros Hnil. split; [auto|]. rewrite H1, Hnil. reflexivity. }
  destruct (resolve_frame (Some identifier) w s) as (answer & n & evs & Hres).
  rewrite Hres in Hout.
  destruct (Js.truthy answer) eqn:Htruthy.
  2:{ destruct (Hname (advance n evs s) eq_refl) as (H1 & H2 & H3 & H4).
      cbv zeta in H1, H2, H3, H4.
      rewrite <- Hout in H1, H2, H3, H4. fold l' in H1, H3.
      split.
      { intros identifier' k s0 [= <-] Hres' Hne _. rewrite Hres in Hres'.
        injection Hres' as Ha _. subst answer.
        destruct k; [congruence | discriminate]. }
      split; [intros _; exact H1|].
      split; [exact H2|]. split; [exact H3|].
      intros Hnil. split; [auto|]. rewrite H1, Hnil. reflexivity. }
  cbn [youtubeChannels advance calls log] in Hout. fold l in Hout.
  destruct (Nat.ltb (length (List.filter (other_id (Js.render answer)) l)) (length l))
    eqn:Hlt.
  - (* removed by id *)
    assert (Hl' : l' = List.filter (other_id (Js.render answer)) l)
      by (subst l'; rewrite Hout; reflexivity).
    assert (Hfst : fst out = Ok RemovedFromList) by (rewrite Hout; reflexivity).
    pose proof Hlt as Hex. apply filter_shorter in Hex as (c & Hc & Hk).
    apply Nat.ltb_lt in Hlt.
    split.
    { intros identifier' k s0 [= <-] Hres' Hne _. rewrite Hres in Hres'.
      injection Hres' as Ha _. subst answer. cbn [Js.render] in Hl'. auto. }
    split.
    { intros [[=] | (identifier' & answer' & s0 & [= <-] & Hres' & Hno)].
      rewrite Hres in Hres'. injection Hres' as Ha _. subst answer'.
      destruct Hno as [Hno | Hno]; [congruence|].
      exfalso. apply (Hno c Hc). unfold other_id in Hk.
      apply negb_false_iff, String.eqb_eq in Hk. exact Hk. }
    split; [auto|]. split; [rewrite Hl'; split; auto|].
    intros Hnil. rewrite Hnil in Hc. destruct Hc.
  - (* nothing removed by id: by name *)
    rewrite (filter_not_shorter _ _ Hlt) in Hout.
    destruct (Hname (mkState l (n + calls s) (log s ++ evs)) eq_refl)
      as (H1 & H2 & H3 & H4).
    cbv zeta in H1, H2, H3, H4. cbn [youtubeChannels calls log] in H1, H2, H3, H4.
    rewrite <- Hout in H1, H2, H3, H4. fold l' in H1, H3.
    split.
    { intros identifier' k s0 [= <-] Hres' Hne (c & Hc & Hk). rewrite Hres in Hres'.
      injection Hres' as Ha _. subst answer. cbn [Js.render] in Hlt.
      assert (Nat.ltb (length (List.filter (other_id k) l)) (length l) = true).
      { apply filter_shorter. exists c. split; [exact Hc|].
        unfold other_id. now rewrite Hk, String.eqb_refl. }
      congruence. }
    split; [intros _; exact H1|].
    split; [exact H2|]. split; [exact H3|].
    intros Hnil. split; [auto|]. rewrite H1, Hnil. reflexivity.
Qed.



(** * Further properties of the code *)

(** ** What one iteration of the loop does to the state *)

Lemma probe_cases (w : World) (s : State) (cid : string) :
  exists st evs n,
    checkYouTubeLiveStatus cid w s = (Ok st, advance n evs s) /\
    ((Js.truthy (YOUTUBE_API_KEY w) = false /\ st = None /\ evs = [] /\ n = 0%nat) \/
     (Js.truthy (YOUTUBE_API_KEY w) = true /\ evs = [EvFetch (live_url w cid)] /\
      n = 1%nat)).
Proof.
  destruct (Js.truthy (YOUTUBE_API_KEY w)) eqn:Hkey.
  - destruct (probe_total w s cid) as (st & evs & n & Hp & Hev).
    rewrite probe_eq in Hp by assumption.
    rewrite probe_eq by assumption.
    exists (match fst (checkYouTubeLiveStatus cid w s) with Ok st => st | Throw _ => None end),
      [EvFetch (live_url w cid)], 1%nat.
    rewrite probe_eq by assumption. cbn [fst]. split; [|right; auto].
    destruct (search_live w (calls s) (live_url w cid)) as [|r]; [reflexivity|].
    destruct (ok r); [|reflexivity].
    destruct (json r) as [d|]; [|reflexivity].
    destruct (items d) as [[|x l]|]; reflexivity.
  - rewrite probe_no_key by assumption. exists None, [], 0%nat.
    rewrite advance_0. split; [reflexivity | left; auto].
Qed.

Lemma last_write_app (l1 l2 : list Event) :
  last_write (l1 ++ l2) =
  match last_write l2 with
  | Some d => Some d
  | None => last_write l1
  end.
Proof.
  unfold last_write. rewrite fold_left_app.
  generalize (fold_left (fun acc e => match e with EvWriteFile d _ => Some d | _ => acc end)
                l1 None).
  induction l2 as [|e l2 IH] using rev_ind; intros acc; [reflexivity|].
  rewrite !fold_left_app. cbn. destruct e; try apply IH; reflexivity.
Qed.

Lemma count_app (p : Event -> bool) (l1 l2 : list Event) :
  count p (l1 ++ l2) = (count p l1 + count p l2)%nat.
Proof. unfold count. now rewrite List.filter_app, length_app. Qed.

Lemma not_recent_cases (ch : Channel) (w : World) (s : State) :
  (exists t0, lastNotified ch = Some t0 /\ clock w (calls s) - t0 < cooldown) \/
  (exists n, (n <= 1)%nat /\
             recently_notified ch w s = (Ok false, advance n [] s) /\
             forall t0, lastNotified ch = Some t0 -> cooldown <= clock w (calls s) - t0).
Proof.
  rewrite recently_notified_eq. destruct (lastNotified ch) as [t0|].
  - destruct (Z.ltb_spec (clock w (calls s) - t0) cooldown) as [Hlt | Hge].
    + left. eauto.
    + right. exists 1%nat. repeat split; [lia|].
      intros t [= <-]. exact Hge.
  - right. exists 0%nat. rewrite advance_0. repeat split; [lia | discriminate].
Qed.

Ltac leaf_norm :=
  rewrite ?advance_advance;
  cbn [log advance snd fst youtubeChannels calls app Nat.add];
  rewrite <- ?app_assoc; cbn [app].

Ltac leaf_quiet :=
  leaf_norm;
  eexists; split; [reflexivity|];
  split; [cbn; lia|];
  split; [unfold count; cbn; repeat split; lia|];
  split; [right; split; reflexivity|];
  split; [intros Hk; try congruence; repeat split; reflexivity|];
  left; reflexivity.

(** Everything one iteration of the loop can do: the events it adds, how many
    calls of each kind, what it writes, and how it moves its record. *)
Lemma check_channel_summary (i : nat) (w : World) (s : State) :
  let out := check_channel i w s in
  exists evs,
    log (snd out) = (log s ++ evs)%list /\
    (calls s <= calls (snd out))%nat /\
    ((count is_fetch evs <= 1)%nat /\ (count is_channels_fetch evs <= 1)%nat /\
     (count is_send evs <= 1)%nat /\ (count is_write evs <= 1)%nat) /\
    (last_write evs = Some (youtubeChannels (snd out)) \/
     (last_write evs = None /\ youtubeChannels (snd out) = youtubeChannels s)) /\
    (Js.truthy (YOUTUBE_API_KEY w) = false ->
     fst out = Ok tt /\ youtubeChannels (snd out) = youtubeChannels s /\
     forallb null_snapshot evs = true) /\
    (youtubeChannels (snd out) = youtubeChannels s \/
     exists ch c', youtubeChannels s !! i = Some ch /\
                   youtubeChannels (snd out) = <[i := c']> (youtubeChannels s) /\
                   record_step w ch c').
Proof.
  cbv zeta.
  destruct (youtubeChannels s !! i) as [ch|] eqn:Hi.
  2:{ rewrite check_channel_absent by exact Hi. exists []. cbn. rewrite app_nil_r.
      repeat split; auto; unfold count; cbn; lia. }
  destruct (not_recent_cases ch w s) as [(t0 & Hlast & Hlt) | (n & Hn & Hr & Hdue)].
  { rewrite (check_channel_skipped i w s ch t0 Hi Hlast Hlt). leaf_quiet. }
  destruct (probe_cases w (advance n [] s) (channelId ch)) as (st & evs & m & Hp & Hc).
  rewrite (check_channel_probed i w s _ _ ch st Hi Hr Hp).
  assert (Hi1 : youtubeChannels (advance 0 [EvSnapshot (channelId ch) st]
                  (advance m evs (advance n [] s))) !! i = Some ch) by exact Hi.
  destruct Hc as [(Hkey & -> & -> & ->) | (Hkey & -> & ->)].
  { leaf_quiet. }
  destruct st as [[v t th ct|]|].
  - rewrite react_live.
    destruct (Js.truthy (notificationChannelId ch)) eqn:Htarget; [|leaf_quiet].
    destruct (isLive ch) eqn:Hlive; [leaf_quiet|].
    rewrite notify_eq by exact Hi1.
    destruct (channels_fetch w _ _); [leaf_quiet | leaf_quiet |].
    destruct (send w _ _ _); [|leaf_quiet].
    leaf_norm; eexists; split; [reflexivity|].
    split; [cbn; lia|].
    split; [unfold count; cbn; repeat split; lia|].
    split; [left; reflexivity|].
    split; [intros Hk; congruence|].
    right. exists ch. eexists. split; [reflexivity|]. split; [reflexivity|].
    apply (step_was_notified w ch _ (calls s) (S (S (S (1 + (n + calls s))))));
      [exact Hlive | exact Htarget | lia | exact Hdue | reflexivity].
  - rewrite react_offline by exact Hi1.
    destruct (isLive ch) eqn:Hlive; [|leaf_quiet].
    leaf_norm; eexists; split; [reflexivity|].
    split; [cbn; lia|].
    split; [unfold count; cbn; repeat split; lia|].
    split; [left; reflexivity|].
    split; [intros Hk; congruence|].
    right. exists ch. eexists. split; [reflexivity|]. split; [reflexivity|].
    apply step_went_offline; [exact Hlive | reflexivity].
  - leaf_quiet.
Qed.

(** The same for the loop over the indices [i], ..., [i + n - 1]. *)
Lemma check_from_summary (n i : nat) (w : World) (s : State) :
  let out := check_from i n w s in
  exists evs,
    log (snd out) = (log s ++ evs)%list /\
    ((count is_fetch evs <= n)%nat /\ (count is_channels_fetch evs <= n)%nat /\
     (count is_send evs <= n)%nat /\ (count is_write evs <= n)%nat) /\
    (last_write evs = Some (youtubeChannels (snd out)) \/
     (last_write evs = None /\ youtubeChannels (snd out) = youtubeChannels s)) /\
    (Js.truthy (YOUTUBE_API_KEY w) = false ->
     fst out = Ok tt /\ youtubeChannels (snd out) = youtubeChannels s /\
     forallb null_snapshot evs = true) /\
    length (youtubeChannels (snd out)) = length (youtubeChannels s) /\
    (forall j, (j < i)%nat ->
       youtubeChannels (snd out) !! j = youtubeChannels s !! j) /\
    (forall j c c',
       youtubeChannels s !! j = Some c -> youtubeChannels (snd out) !! j = Some c' ->
       record_step w c c').
Proof.
  revert i s. induction n as [|n IH]; intros i s; cbv zeta.
  - exists []. cbn. rewrite app_nil_r. unfold count. cbn.
    repeat split; auto.
    intros j c c' H1 H2. apply step_same. congruence.
  - rewrite check_from_S.
    destruct (check_channel_summary i w s)
      as (evs1 & Hlog1 & _ & (Hf1 & Hc1 & Hs1 & Hw1) & Hlast1 & Hkey1 & Harr1).
    cbv zeta in *.
    assert (Hlen1 : length (youtubeChannels (snd (check_channel i w s)))
                    = length (youtubeChannels s)).
    { destruct Harr1 as [-> | (ch & c1 & _ & -> & _)];
        [reflexivity | apply length_insert]. }
    assert (Hother1 : forall j, j <> i ->
              youtubeChannels (snd (check_channel i w s)) !! j
              = youtubeChannels s !! j).
    { intros j Hj. destruct Harr1 as [-> | (ch & c1 & _ & -> & _)];
        [reflexivity | now apply list_lookup_insert_ne]. }
    assert (Hstep1 : forall c c',
              youtubeChannels s !! i = Some c ->
              youtubeChannels (snd (check_channel i w s)) !! i = Some c' ->
              record_step w c c').
    { intros c c' H1 H2. destruct Harr1 as [He | (ch & c1 & Hch & He & Hst)];
        rewrite He in H2.
      - apply step_same. congruence.
      - rewrite list_lookup_insert_eq in H2 by (eapply lookup_lt_Some; exact Hch).
        congruence. }
    destruct (check_channel i w s) as [[[]|e] s1] eqn:Hcc; cbn [fst snd] in *.
    + destruct (IH (S i) s1)
        as (evs2 & Hlog2 & (Hf2 & Hc2 & Hs2 & Hw2) & Hlast2 & Hkey2 & Hlen2 & Hlow2 & Hstep2).
      cbv zeta in *.
      exists (evs1 ++ evs2)%list.
      split; [rewrite Hlog2, Hlog1; now rewrite app_assoc|].
      split; [rewrite !count_app; repeat split; lia|].
      split.
      { rewrite last_write_app.
        destruct Hlast2 as [-> | [-> He2]]; [now left|].
        rewrite He2. exact Hlast1. }
      split.
      { intros Hk. destruct (Hkey1 Hk) as (_ & Ha1 & Hn1).
        destruct (Hkey2 Hk) as (Hr2 & Ha2 & Hn2).
        split; [exact Hr2|]. split; [congruence|].
        rewrite forallb_app, Hn1, Hn2. reflexivity. }
      split; [congruence|].
      split.
      { intros j Hj. rewrite Hlow2 by lia. apply Hother1. lia. }
      intros j c c' H1 H2.
      destruct (decide (j = i)) as [-> | Hne].
      * rewrite Hlow2 in H2 by lia. exact (Hstep1 c c' H1 H2).
      * rewrite <- Hother1 in H1 by exact Hne. exact (Hstep2 j c c' H1 H2).
    + exists evs1.
      split; [exact Hlog1|].
      split; [repeat split; lia|].
      split; [exact Hlast1|].
      split.
      { intros Hk. destruct (Hkey1 Hk) as (Hr & _). discriminate Hr. }
      split; [exact Hlen1|].
      split.
      { intros j Hj. apply Hother1. lia. }
      intros j c c' H1 H2.
      destruct (decide (j = i)) as [-> | Hne].
      * exact (Hstep1 c c' H1 H2).
      * rewrite Hother1 in H2 by exact Hne. apply step_same. congruence.
Qed.

(** The same for a run of the job by the scheduler. *)
Lemma scheduled_job_summary (w : World) (s : State) :
  let s' := snd (scheduled_job w s) in
  let n := length (youtubeChannels s) in
  fst (scheduled_job w s) = Ok tt /\
  exists evs,
    log s' = (log s ++ evs)%list /\
    ((count is_fetch evs <= n)%nat /\ (count is_channels_fetch evs <= n)%nat /\
     (count is_send evs <= n)%nat /\ (count is_write evs <= n)%nat) /\
    (last_write evs = Some (youtubeChannels s') \/
     (last_write evs = None /\ youtubeChannels s' = youtubeChannels s)) /\
    (Js.truthy (YOUTUBE_API_KEY w) = false ->
     youtubeChannels s' = youtubeChannels s /\ forallb null_snapshot evs = true) /\
    Forall2 (record_step w) (youtubeChannels s) (youtubeChannels s').
Proof.
  cbv zeta. unfold scheduled_job, try_catch. rewrite job_eq.
  destruct (check_from_summary (length (youtubeChannels s)) 0 w (advance 1 [] s))
    as (evs & Hlog & Hcount & Hlast & Hkey & Hlen & _ & Hstep).
  cbv zeta in *. cbn [advance youtubeChannels log] in *. rewrite app_nil_r in Hlog.
  assert (Hres : fst (match check_from 0 (length (youtubeChannels s)) w (advance 1 [] s)
                      with
                      | (Ok a, s') => (Ok a, s')
                      | (Throw _, s') => ret tt w s'
                      end) = Ok tt
                 /\ snd (match check_from 0 (length (youtubeChannels s)) w (advance 1 [] s)
                      with
                      | (Ok a, s') => (Ok a, s')
                      | (Throw _, s') => ret tt w s'
                      end) = snd (check_from 0 (length (youtubeChannels s)) w
                                    (advance 1 [] s))).
  { destruct (check_from 0 _ w (advance 1 [] s)) as [[[]|e] s1]; split; reflexivity. }
  destruct Hres as [Hres ->]. split; [exact Hres|].
  exists evs. split; [exact Hlog|]. split; [exact Hcount|]. split; [exact Hlast|].
  split; [intros Hk; destruct (Hkey Hk) as (_ & H1 & H2); auto|].
  apply Forall2_same_length_lookup. split; [now symmetry|].
  intros j c c' H1 H2. exact (Hstep j c c' H1 H2).
Qed.

(** ** The job, record by record *)

Lemma record_step_identity (w : World) (c c' : Channel) :
  record_step w c c' -> identity c' = identity c.
Proof. intros [-> | _ -> | n0 n1 _ _ _ _ ->]; reflexivity. Qed.

Lemma record_step_tracked (w : World) (c c' : Channel) :
  record_step w c c' -> tracked c -> tracked c'.
Proof.
  intros [-> | _ -> | n0 n1 _ _ _ _ ->] Ht; unfold tracked in *; cbn;
    [exact Ht | discriminate | discriminate].
Qed.

Lemma record_step_spacing (w : World) (c c' : Channel) (t0 : Z) :
  clock_monotone w ->
  record_step w c c' -> lastNotified c = Some t0 ->
  lastNotified c' = Some t0 \/
  exists t1, lastNotified c' = Some t1 /\ t0 + 3600000 <= t1.
Proof.
  intros Hmono [-> | _ -> | n0 n1 _ _ Hlt Hdue ->] Ht0; cbn; auto.
  right. eexists. split; [reflexivity|].
  specialize (Hdue t0 Ht0). unfold cooldown in Hdue.
  pose proof (Hmono n0 n1 ltac:(lia)). lia.
Qed.

(** X1. A run of the job keeps the number and the order of the records, and
    moves each record in one of three ways: it leaves it as it is, it turns
    [isLive] from [true] to [false], or it turns [isLive] from [false] to
    [true] and stamps [lastNotified] with a reading of the clock taken after
    the cooldown test; the last only for a record with a notification target
    whose previous stamp, if any, was at least the cooldown old. *)
Theorem job_moves_each_record_one_step (w : World) (s : State) :
  fst (scheduled_job w s) = Ok tt /\
  Forall2 (record_step w) (youtubeChannels s)
          (youtubeChannels (snd (scheduled_job w s))).
Proof.
  destruct (scheduled_job_summary w s) as (Hres & evs & _ & _ & _ & _ & Hstep).
  split; assumption.
Qed.

Lemma scheduled_job_identity (w : World) (s : State) :
  map identity (youtubeChannels (snd (scheduled_job w s)))
  = map identity (youtubeChannels s).
Proof.
  destruct (scheduled_job_summary w s) as (_ & evs & _ & _ & _ & _ & Hstep).
  cbv zeta in Hstep. induction Hstep as [|c c' l l' Hc _ IH]; [reflexivity|].
  cbn. now rewrite IH, (record_step_identity w c c' Hc).
Qed.

(** X2. However many times the job runs, and whatever the world answers, the
    array keeps its length and order and every record keeps its channel id,
    name, notification target, author and date of addition: the job only
    ever writes [isLive] and [lastNotified]. *)
Theorem jobs_keep_identity (worlds : list World) (s : State) :
  map identity (youtubeChannels (run_jobs worlds s))
  = map identity (youtubeChannels s).
Proof.
  revert s. induction worlds as [|w more IH]; intros s; [reflexivity|].
  cbn [run_jobs]. rewrite IH. apply scheduled_job_identity.
Qed.

(** X3. With a clock that never goes back, a run of the job either keeps the
    [lastNotified] of a record or replaces it by a time at least one hour
    later: two notifications of one record are at least an hour apart. *)
Theorem notifications_an_hour_apart (w : World) (s : State) (i : nat)
    (c c' : Channel) (t0 : Z) :
  clock_monotone w ->
  youtubeChannels s !! i = Some c ->
  lastNotified c = Some t0 ->
  youtubeChannels (snd (scheduled_job w s)) !! i = Some c' ->
  lastNotified c' = Some t0 \/
  exists t1, lastNotified c' = Some t1 /\ t0 + 3600000 <= t1.
Proof.
  intros Hmono Hc Ht0 Hc'.
  destruct (scheduled_job_summary w s) as (_ & evs & _ & _ & _ & _ & Hstep).
  cbv zeta in Hstep.
  apply (record_step_spacing w c c' t0 Hmono); [|exact Ht0].
  exact (Forall2_lookup_lr _ _ _ i c c' Hstep Hc Hc').
Qed.

Lemma notifications_an_hour_apart_witness :
  let c := Sample.record "UC1" (Some "chan-42") false (Some 1000) in
  let w := Demo.world_ticking 3601000 in
  exists c',
    youtubeChannels (snd (scheduled_job w (Sample.start [c]))) !! 0%nat = Some c' /\
    (lastNotified c' = Some 1000 \/
     exists t1, lastNotified c' = Some t1 /\ 1000 + 3600000 <= t1).
Proof.
  cbn zeta. eexists. split; [vm_compute; reflexivity|].
  apply (notifications_an_hour_apart (Demo.world_ticking 3601000)
           (Sample.start [Sample.record "UC1" (Some "chan-42") false (Some 1000)])
           0 (Sample.record "UC1" (Some "chan-42") false (Some 1000)) _ 1000).
  - intros n m Hnm. cbn. lia.
  - reflexivity.
  - reflexivity.
  - vm_compute. reflexivity.
Defined.

(** X4. A run of the job over [n] records issues at most [n] requests to the
    YouTube API, at most [n] fetches of a Discord channel, at most [n] sends
    and at most [n] writes of the file. *)
Theorem job_cost (w : World) (s : State) :
  exists evs,
    log (snd (scheduled_job w s)) = (log s ++ evs)%list /\
    (count is_fetch evs <= length (youtubeChannels s))%nat /\
    (count is_channels_fetch evs <= length (youtubeChannels s))%nat /\
    (count is_send evs <= length (youtubeChannels s))%nat /\
    (count is_write evs <= length (youtubeChannels s))%nat.
Proof.
  destruct (scheduled_job_summary w s) as (_ & evs & Hlog & Hcount & _).
  exists evs. split; [exact Hlog | exact Hcount].
Qed.

(** X5. Without an API key, a run of the job ends normally, leaves the array
    as it is, issues no request and sends nothing: all it records is a failed
    probe for each record that is not in its cooldown. *)
Theorem job_without_key (w : World) (s : State) :
  Js.truthy (YOUTUBE_API_KEY w) = false ->
  fst (scheduled_job w s) = Ok tt /\
  youtubeChannels (snd (scheduled_job w s)) = youtubeChannels s /\
  exists evs,
    log (snd (scheduled_job w s)) = (log s ++ evs)%list /\
    forallb null_snapshot evs = true.
Proof.
  intros Hk.
  destruct (scheduled_job_summary w s) as (Hres & evs & Hlog & _ & _ & Hkey & _).
  destruct (Hkey Hk) as [Harr Hnull].
  split; [exact Hres|]. split; [exact Harr|]. exists evs. auto.
Qed.

Lemma job_without_key_witness :
  let a := Sample.record "UC1" (Some "chan-42") false None in
  let b := Sample.record "UC2" (Some "chan-42") true (Some 0) in
  let out := scheduled_job (Demo.world_keyless 9000000) (Sample.start [a; b]) in
  youtubeChannels (snd out) = [a; b] /\
  log (snd out) = [EvSnapshot "UC1" None; EvSnapshot "UC2" None].
Proof.
  cbn zeta.
  destruct (job_without_key (Demo.world_keyless 9000000)
              (Sample.start [Sample.record "UC1" (Some "chan-42") false None;
                             Sample.record "UC2" (Some "chan-42") true (Some 0)])
              eq_refl) as (_ & Harr & _).
  split; [exact Harr | vm_compute; reflexivity].
Defined.

(** ** The commands, outcome by outcome *)

Lemma state_eta (s : State) : s = mkState (youtubeChannels s) (0 + calls s) (log s ++ []).
Proof. destruct s. cbn. now rewrite app_nil_r. Qed.

Lemma last_write_fetches (evs : list Event) :
  forallb is_fetch evs = true -> last_write evs = None.
Proof.
  induction evs as [|e evs IH] using rev_ind; [reflexivity|].
  rewrite forallb_app. intros H. apply andb_prop in H as [H1 H2].
  rewrite last_write_app. destruct e; try discriminate. cbn. exact (IH H1).
Qed.

(** The resolver leaves the array alone and issues at most two requests. *)
Lemma resolve_events (identifier : option Identifier) (w : World) (s : State) :
  exists answer evs,
    resolveToChannelId identifier w s = (Ok answer, advance (length evs) evs s) /\
    forallb is_fetch evs = true /\ (length evs <= 2)%nat.
Proof.
  destruct identifier as [[[] v]|].
  - rewrite resolve_id. exists (Some v), []. rewrite advance_0. cbn. auto.
  - rewrite resolve_handle.
    destruct (channels_forHandle w (calls s) (forHandle_url w v)) as [|r];
      [eexists _, [_]; cbn; auto|].
    destruct (ok r); [|eexists _, [_; _]; cbn; auto].
    destruct (json r) as [d|]; [|eexists _, [_]; cbn; auto].
    destruct (items d) as [[|x l]|];
      [eexists _, [_; _] | eexists _, [_] | eexists _, [_; _]]; cbn; auto.
  - rewrite resolve_custom. eexists _, [_]; cbn; auto.
  - exists None, []. rewrite advance_0. cbn. auto.
Qed.

Lemma add_outcome_quiet (message : Incoming) (s : State) (reply : Reply)
    (n : nat) (evs : list Event) :
  (forall name, reply <> Added name) -> last_write evs = None ->
  add_outcome message s (Ok reply, advance n evs s).
Proof.
  intros Hr Hw. right. exists reply, evs. cbn.
  split; [reflexivity|]. split; [reflexivity|]. left. auto.
Qed.

(** For an administrator [addchannel] never throws; it either leaves the
    array alone and writes nothing, or answers "added", appends one fresh
    record and writes the new array. *)
Lemma addchannel_outcomes (message : Incoming) (args : list string)
    (w : World) (s : State) :
  add_outcome message s (addchannel message args w s).
Proof.
  rewrite addchannel_cases.
  assert (Hstay : forall reply, (forall name, reply <> Added name) ->
            add_outcome message s (ret reply w s)).
  { intros reply Hr. unfold ret. rewrite <- (advance_0 s) at 2.
    now apply add_outcome_quiet. }
  destruct (is_administrator message) eqn:Hadmin; [|left; auto].
  destruct args as [|channelUrl rest]; [apply Hstay; discriminate|].
  destruct (getYoutubeIdentifier channelUrl) as [identifier|];
    [|apply Hstay; discriminate].
  clear Hstay. unfold try_catch, bind at 1.
  destruct (resolve_events (Some identifier) w s) as (answer & evs & -> & Hf & _).
  pose proof (last_write_fetches evs Hf) as Hlw.
  destruct (Js.truthy answer) eqn:Htruthy; cbn [negb];
    [|apply add_outcome_quiet; [discriminate | exact Hlw]].
  rewrite add_resolved_eq. cbv zeta. cbn [youtubeChannels calls log advance].
  destruct (find _ (youtubeChannels s)) eqn:Hfind;
    [apply add_outcome_quiet; [discriminate | exact Hlw]|].
  assert (Hquiet : last_write (evs ++ [EvFetch (snippet_url w (Js.render answer))]) = None)
    by (rewrite last_write_app; cbn; exact Hlw).
  fold (advance (length evs) evs s). rewrite advance_advance.
  destruct (channels_snippet w _ _) as [|r];
    [apply add_outcome_quiet; [discriminate | exact Hquiet]|].
  destruct (ok r); [|apply add_outcome_quiet; [discriminate | exact Hquiet]].
  destruct (json r) as [d|]; [|apply add_outcome_quiet; [discriminate | exact Hquiet]].
  destruct (items d) as [[|x l]|];
    try (apply add_outcome_quiet; [discriminate | exact Hquiet]).
  right. eexists _, _. cbn.
  split; [reflexivity|]. split; [rewrite <- app_assoc; reflexivity|].
  right. eexists _, _, _. split; [reflexivity|]. split; [reflexivity|].
  split; [rewrite last_write_app; reflexivity|].
  split; [exact Hadmin|]. split.
  - intros Hk. destruct answer as [[|a r']|]; cbn in *; discriminate.
  - intros Hin. apply (proj1 (find_key_None _ _ Hfind)). now apply list_elem_of_In.
Qed.

Lemma filter_all (l : list Channel) : List.filter (fun _ => true) l = l.
Proof. induction l as [|c l IH]; cbn; congruence. Qed.

Lemma remove_outcome_quiet (message : Incoming) (s : State) (reply : Reply) :
  reply <> RemovedFromList -> remove_outcome message s (Ok reply, s).
Proof.
  intros Hr. right. exists reply, [], (fun _ => true). cbn.
  rewrite app_nil_r, filter_all. repeat split; auto.
Qed.

(** one filter of the array followed by the save when it removed something *)
Lemma remove_outcome_filter (message : Incoming) (keep : Channel -> bool)
    (w : World) (s st : State) (evs : list Event) :
  youtubeChannels st = youtubeChannels s ->
  log st = (log s ++ evs)%list ->
  last_write evs = None ->
  remove_outcome message s
    (if Nat.ltb (length (List.filter keep (youtubeChannels st)))
                (length (youtubeChannels st))
     then (Ok RemovedFromList,
           advance 1 [EvWriteFile (List.filter keep (youtubeChannels st))
                        (writeFileSync w (calls st))]
             (mkState (List.filter keep (youtubeChannels st)) (calls st) (log st)))
     else (Ok NotInList,
           mkState (List.filter keep (youtubeChannels st)) (calls st) (log st))).
Proof.
  intros Hl Hlog Hw. rewrite Hl, Hlog.
  destruct (Nat.ltb _ _) eqn:Hlt; right.
  - exists RemovedFromList, (evs ++ [EvWriteFile (List.filter keep (youtubeChannels s))
                                       (writeFileSync w (calls st))])%list, keep.
    cbn. split; [reflexivity|]. split; [now rewrite app_assoc|].
    split; [reflexivity|]. left. split; [reflexivity|].
    split; [rewrite last_write_app; reflexivity|]. now apply Nat.ltb_lt.
  - exists NotInList, evs, keep. cbn. repeat split.
    right. split; [discriminate|]. split; [exact Hw|].
    now apply filter_not_shorter.
Qed.

(** For an administrator [removechannel] never throws; it only ever filters
    the array, and it writes the file exactly when it removed something. *)
Lemma removechannel_outcomes (message : Incoming) (args : list string)
    (w : World) (s : State) :
  remove_outcome message s (removechannel message args w s).
Proof.
  destruct (is_administrator message) eqn:Hadmin.
  2:{ rewrite removechannel_cases, Hadmin. left. auto. }
  destruct args as [|arg rest].
  { rewrite removechannel_cases, Hadmin. now apply remove_outcome_quiet. }
  rewrite removechannel_eq by exact Hadmin. cbv zeta.
  destruct (getYoutubeIdentifier _) as [identifier|].
  2:{ apply (remove_outcome_filter message _ w s s []);
        [reflexivity | now rewrite app_nil_r | reflexivity]. }
  destruct (resolve_events (Some identifier) w s) as (answer & evs & -> & Hf & _).
  pose proof (last_write_fetches evs Hf) as Hlw.
  destruct (Js.truthy answer).
  2:{ apply (remove_outcome_filter message _ w s _ evs);
        [reflexivity | reflexivity | exact Hlw]. }
  destruct (Nat.ltb (length (List.filter (other_id (Js.render answer))
                               (youtubeChannels (advance (length evs) evs s))))
                    (length (youtubeChannels (advance (length evs) evs s)))) eqn:Hlt.
  - pose proof (remove_outcome_filter message (other_id (Js.render answer)) w s
                  (advance (length evs) evs s) evs eq_refl eq_refl Hlw) as H.
    now rewrite Hlt in H.
  - rewrite (filter_not_shorter _ _ Hlt).
    apply (remove_outcome_filter message _ w s (mkState _ _ _) evs);
      [reflexivity | reflexivity | exact Hlw].
Qed.

(** ** The dispatcher *)

Lemma listchannels_frame (w : World) (s : State) :
  youtubeChannels (snd (listchannels w s)) = youtubeChannels s /\
  log (snd (listchannels w s)) = log s.
Proof.
  unfold listchannels, addFields, new_Date. run_js.
  destruct (youtubeChannels s) eqn:Hl; cbn [fst snd]; [auto|].
  destruct (_ && _)%bool; cbn; rewrite ?Hl; auto.
Qed.

Lemma dispatch_not_administrator (command : string) (message : Incoming)
    (args : list string) (w : World) (s : State) :
  is_administrator message = false ->
  youtubeChannels (snd (dispatch command message args w s)) = youtubeChannels s /\
  log (snd (dispatch command message args w s)) = log s.
Proof.
  intros Hadmin. unfold dispatch.
  destruct (String.eqb command "addchannel").
  { unfold bind. rewrite addchannel_cases, Hadmin. cbn. auto. }
  destruct (String.eqb command "removechannel").
  { unfold bind. rewrite removechannel_cases, Hadmin. cbn. auto. }
  destruct (String.eqb command "listchannels"); [apply listchannels_frame|].
  destruct (String.eqb command "help"); cbn; auto.
Qed.

(** X6. A message of a bot, a message that does not start with [!], and any
    message of an author without the administrator permission leave the
    array as it is and make no request, send and write: nothing is added to
    the log. *)
Theorem messages_without_effect (message : Posted) (w : World) (s : State) :
  author_bot message = true \/
  Js.startsWith "!" (post_content message) = false \/
  is_administrator (incoming message) = false ->
  youtubeChannels (snd (messageCreate message w s)) = youtubeChannels s /\
  log (snd (messageCreate message w s)) = log s.
Proof.
  intros H. unfold messageCreate.
  destruct (author_bot message); [cbn; auto|].
  unfold command_prefix.
  destruct (Js.startsWith "!" (post_content message)); cbn [negb]; [|cbn; auto].
  destruct H as [H | [H | H]]; try discriminate.
  destruct (Text.split_spaces _) as [|first args]; [cbn; auto|].
  now apply dispatch_not_administrator.
Qed.

Lemma messages_without_effect_witness :
  let visitor := mkIncoming false "chan-42" "visitor#0002" in
  let message := mkPosted false "!removechannel Some Channel" visitor in
  let s := Sample.start [Sample.record "UC1" (Some "chan-42") false None] in
  messageCreate message (Sample.world_live 5) s = (Throw RangeError, s).
Proof.
  cbn zeta.
  pose proof (messages_without_effect
    (mkPosted false "!removechannel Some Channel"
       (mkIncoming false "chan-42" "visitor#0002"))
    (Sample.world_live 5)
    (Sample.start [Sample.record "UC1" (Some "chan-42") false None])
    (or_intror (or_intror eq_refl))) as [_ _].
  vm_compute. reflexivity.
Defined.

(** *** Reading a command line *)

Lemma split_runs_cons (b : bool) (s : string) :
  exists word more, Text.split_runs b s = word :: more.
Proof.
  revert b. induction s as [|c r IH]; intros b; cbn; [eauto|].
  destruct (Ascii.eqb c " ").
  - destruct b; [apply IH | eauto].
  - destruct (IH false) as (word & more & ->). eauto.
Qed.

Lemma space_is_space (c : ascii) : Ascii.eqb c " " = true -> Text.is_space c = true.
Proof. intros H. apply Ascii.eqb_eq in H as ->. reflexivity. Qed.

Lemma not_space_char (c : ascii) : Text.is_space c = false -> Ascii.eqb c " " = false.
Proof.
  intros H. destruct (Ascii.eqb c " ") eqn:He; [|reflexivity].
  rewrite (space_is_space c He) in H. discriminate.
Qed.

(** a word before the rest of the line joins the first piece of the rest *)
Lemma split_runs_word (word rest : string) :
  all_chars (fun c => negb (Text.is_space c)) word = true ->
  Text.split_runs false (word ++ rest) =
  match Text.split_runs false rest with
  | [] => [word]
  | piece :: more => (word ++ piece) :: more
  end.
Proof.
  induction word as [|c r IH]; intros H.
  - change ("" ++ rest) with rest.
    destruct (split_runs_cons false rest) as (p & m & ->). reflexivity.
  - cbn in H. apply andb_prop in H as [Hc Hr]. apply negb_true_iff in Hc.
    change (String c r ++ rest) with (String c (r ++ rest)).
    cbn [Text.split_runs]. rewrite (not_space_char c Hc), (IH Hr).
    destruct (split_runs_cons false rest) as (p & m & ->). reflexivity.
Qed.

Lemma split_runs_after_space (word rest : string) :
  wordlike word ->
  Text.split_runs true (word ++ rest) = Text.split_runs false (word ++ rest).
Proof.
  intros (Hne & H & _). destruct word as [|c r]; [congruence|].
  cbn in H. apply andb_prop in H as [Hc _]. apply negb_true_iff in Hc.
  change (String c r ++ rest) with (String c (r ++ rest)).
  cbn [Text.split_runs]. now rewrite (not_space_char c Hc).
Qed.

Lemma str_app_nil_r (s : string) : s ++ "" = s.
Proof.
  induction s as [|c r IH]; [reflexivity|].
  change (String c r ++ "") with (String c (r ++ "")). now rewrite IH.
Qed.

Lemma str_app_assoc (a b c : string) : (a ++ b) ++ c = a ++ (b ++ c).
Proof.
  induction a as [|x a IH]; [reflexivity|].
  change (String x ((a ++ b) ++ c) = String x (a ++ (b ++ c))). now rewrite IH.
Qed.

(** splitting at spaces undoes joining with single spaces *)
Lemma split_join (words : list string) :
  words <> [] -> Forall wordlike words ->
  Text.split_spaces (Js.join " " words) = words.
Proof.
  unfold Text.split_spaces. induction words as [|word more IH]; [congruence|].
  intros _ Hall. apply Forall_cons in Hall as [Hw Hmore].
  destruct more as [|next more'].
  - cbn. rewrite <- (str_app_nil_r word) at 1.
    rewrite split_runs_word by apply Hw. cbn. now rewrite str_app_nil_r.
  - change (Js.join " " (word :: next :: more'))
      with (word ++ String " " (Js.join " " (next :: more'))).
    rewrite split_runs_word by apply Hw.
    cbn [Text.split_runs]. cbn [Ascii.eqb Bool.eqb]. cbn iota.
    assert (Hj : exists tail, Js.join " " (next :: more') = next ++ tail).
    { destruct more'; [exists ""; cbn; now rewrite str_app_nil_r | eexists; reflexivity]. }
    destruct Hj as (tail & Hj). rewrite Hj.
    apply Forall_cons in Hmore as Hn. destruct Hn as [Hn _].
    rewrite (split_runs_after_space next tail Hn), <- Hj.
    rewrite IH by (congruence || exact Hmore).
    now rewrite str_app_nil_r.
Qed.

Lemma trimEnd_spaceless (s : string) :
  all_chars (fun c => negb (Text.is_space c)) s = true -> Text.trimEnd s = s.
Proof.
  induction s as [|c r IH]; [reflexivity|]. cbn. intros H.
  apply andb_prop in H as [Hc Hr]. apply negb_true_iff in Hc.
  rewrite (IH Hr), Hc. destruct r; reflexivity.
Qed.

Lemma trimEnd_before_word (a word : string) :
  wordlike word -> Text.trimEnd (a ++ word) = a ++ word.
Proof.
  intros (Hne & H & _). induction a as [|c a IH].
  - change ("" ++ word) with word. now apply trimEnd_spaceless.
  - change (String c a ++ word) with (String c (a ++ word)).
    cbn [Text.trimEnd]. rewrite IH. destruct (a ++ word) eqn:He; [|reflexivity].
    destruct a; [change ("" ++ word) with word in He; congruence | discriminate].
Qed.

Lemma join_ends_with_word (word : string) (more : list string) :
  Forall wordlike (word :: more) ->
  exists a last, Js.join " " (word :: more) = a ++ last /\ wordlike last.
Proof.
  revert word. induction more as [|next more IH]; intros word H.
  - exists "", word. apply Forall_cons in H as [Hw _]. auto.
  - apply Forall_cons in H as [_ H]. destruct (IH next H) as (a & last & Hj & Hl).
    exists (word ++ " " ++ a), last. split; [|exact Hl].
    change (Js.join " " (word :: next :: more))
      with (word ++ " " ++ Js.join " " (next :: more)).
    now rewrite Hj, !str_app_assoc.
Qed.

Lemma trim_join (word : string) (more : list string) :
  Forall wordlike (word :: more) ->
  Text.trim (Js.join " " (word :: more)) = Js.join " " (word :: more).
Proof.
  intros H. unfold Text.trim.
  assert (Hs : Text.trimStart (Js.join " " (word :: more)) = Js.join " " (word :: more)).
  { pose proof H as H'. apply Forall_cons in H' as [(Hne & Hw & _) _].
    destruct word as [|c r]; [congruence|].
    cbn in Hw. apply andb_prop in Hw as [Hc _]. apply negb_true_iff in Hc.
    destruct more as [|next more'].
    - cbn. now rewrite Hc.
    - change (Js.join " " (String c r :: next :: more'))
        with (String c (r ++ " " ++ Js.join " " (next :: more'))).
      cbn [Text.trimStart]. now rewrite Hc. }
  rewrite Hs. destruct (join_ends_with_word word more H) as (a & last & -> & Hl).
  now apply trimEnd_before_word.
Qed.

(** X7. A message of a user that is [!], a command word and arguments, all
    of ASCII characters and separated by single spaces, reaches the handler
    named by the command word in lower case, with exactly these arguments:
    commands are recognised whatever their case, and any other word is
    ignored without a reply. *)
Theorem command_line_is_dispatched (message : Posted) (command : string)
    (args : list string) (w : World) (s : State) :
  author_bot message = false ->
  Forall wordlike (command :: args) ->
  post_content message = "!" ++ Js.join " " (command :: args) ->
  messageCreate message w s
  = dispatch (Js.toLowerCase command) (incoming message) args w s /\
  (Js.toLowerCase command = "addchannel" ->
   messageCreate message w s
   = (reply <- addchannel (incoming message) args ;; ret (Said reply)) w s) /\
  (Js.toLowerCase command = "removechannel" ->
   messageCreate message w s
   = (reply <- removechannel (incoming message) args ;; ret (Said reply)) w s) /\
  (Js.toLowerCase command = "listchannels" ->
   messageCreate message w s = listchannels w s) /\
  (Js.toLowerCase command = "help" -> messageCreate message w s = help w s) /\
  (~ In (Js.toLowerCase command)
        ["addchannel"; "removechannel"; "listchannels"; "help"] ->
   messageCreate message w s = (Ok Silent, s)).
Proof.
  intros Hbot Hwords Hcontent.
  assert (Hm : messageCreate message w s
               = dispatch (Js.toLowerCase command) (incoming message) args w s).
  { unfold messageCreate. rewrite Hbot, Hcontent.
    pose proof (trim_join command args Hwords) as Ht.
    pose proof (split_join (command :: args) ltac:(congruence) Hwords) as Hs.
    remember (Js.join " " (command :: args)) as line eqn:Hline.
    change ("!" ++ line) with (String "!" line). unfold command_prefix.
    cbn [Js.startsWith String.length Text.slice]. cbn.
    now rewrite Ht, Hs. }
  split; [exact Hm|]. rewrite Hm. unfold dispatch.
  repeat split.
  - intros ->. reflexivity.
  - intros ->. reflexivity.
  - intros ->. reflexivity.
  - intros ->. reflexivity.
  - intros Hnot.
    repeat match goal with
    | |- context [String.eqb ?a ?b] =>
        destruct (String.eqb_spec a b) as [He | _];
        [exfalso; apply Hnot; rewrite He; cbn; tauto|]
    end.
    reflexivity.
Qed.

Lemma command_line_is_dispatched_witness :
  let message := mkPosted false "!AddChannel https://www.youtube.com/channel/UC1"
                   Sample.admin in
  fst (messageCreate message (Sample.world_live 5) (Sample.start []))
  = Ok (Said (Added "Some Channel")).
Proof.
  cbn zeta.
  destruct (command_line_is_dispatched
    (mkPosted false "!AddChannel https://www.youtube.com/channel/UC1" Sample.admin)
    "AddChannel" ["https://www.youtube.com/channel/UC1"]
    (Sample.world_live 5) (Sample.start []) eq_refl) as (_ & Hadd & _).
  - repeat constructor; discriminate.
  - reflexivity.
  - rewrite (Hadd eq_refl). vm_compute. reflexivity.
Defined.

(** ** What the commands do to the array and to the file *)

(** X8. For an administrator [addchannel] never lets an exception escape:
    it always replies. For anyone else the permission test throws, and the
    handler ends there, without a reply and without an effect. The array
    changes only when the reply is "added", and then by appending exactly
    one record: for an administrator, with a non-empty channel id that no
    record had, the channel of the message as target, its author as
    [addedBy], [isLive] false and no [lastNotified]. *)
Theorem addchannel_adds_one_or_nothing (message : Incoming) (args : list string)
    (w : World) (s : State) :
  let out := addchannel message args w s in
  (is_administrator message = false -> out = (Throw RangeError, s)) /\
  (is_administrator message = true -> exists reply, fst out = Ok reply) /\
  ((youtubeChannels (snd out) = youtubeChannels s /\
    forall name, fst out <> Ok (Added name)) \/
   (exists k name now,
      fst out = Ok (Added name) /\
      youtubeChannels (snd out)
      = (youtubeChannels s ++
         [mkChannel k name (Some (channel_id message)) (author_tag message)
                    now false None])%list /\
      is_administrator message = true /\ k <> "" /\
      ~ In k (map channelId (youtubeChannels s)))).
Proof.
  cbv zeta.
  destruct (addchannel_outcomes message args w s)
    as [(Hadmin & ->)
       | (reply & evs & Hr & _ &
          [(Hl & _ & Hn) | (k & name & now & Hk & Hl & _ & Ha)])].
  - split; [reflexivity|]. split; [congruence|]. left. cbn. split; [reflexivity|].
    discriminate.
  - split.
    { intros Hno. rewrite addchannel_cases, Hno in Hr. discriminate. }
    split; [eauto|]. left. split; [exact Hl|].
    intros name. rewrite Hr. intros [= ->]. now apply (Hn name).
  - split.
    { intros Hno. rewrite addchannel_cases, Hno in Hr. discriminate. }
    split; [eauto|]. right. exists k, name, now. rewrite Hr, Hk. auto.
Qed.

Lemma addchannel_adds_one_or_nothing_witness :
  let visitor := mkIncoming false "chan-42" "visitor#0002" in
  let url := "https://www.youtube.com/channel/UC1" in
  let s := Sample.start [] in
  addchannel visitor [url] (Sample.world_live 5) s = (Throw RangeError, s) /\
  exists reply, fst (addchannel Sample.admin [url] (Sample.world_live 5) s) = Ok reply.
Proof.
  cbn zeta. split.
  - exact (proj1 (addchannel_adds_one_or_nothing
                    (mkIncoming false "chan-42" "visitor#0002")
                    ["https://www.youtube.com/channel/UC1"]
                    (Sample.world_live 5) (Sample.start [])) eq_refl).
  - exact (proj1 (proj2 (addchannel_adds_one_or_nothing Sample.admin
                    ["https://www.youtube.com/channel/UC1"]
                    (Sample.world_live 5) (Sample.start []))) eq_refl).
Defined.

(** X9. Every change of the array reaches the file before the operation
    ends: for [addchannel], for [removechannel] and for a run of the job,
    also one cut short by an exception, either the last write of the
    operation was given the array as it is at the end, or the operation
    wrote nothing and left the array as it was. *)
Theorem changes_are_written :
  (forall message args w s,
     let s' := snd (addchannel message args w s) in
     exists evs,
       log s' = (log s ++ evs)%list /\
       (last_write evs = Some (youtubeChannels s') \/
        (last_write evs = None /\ youtubeChannels s' = youtubeChannels s))) /\
  (forall message args w s,
     let s' := snd (removechannel message args w s) in
     exists evs,
       log s' = (log s ++ evs)%list /\
       (last_write evs = Some (youtubeChannels s') \/
        (last_write evs = None /\ youtubeChannels s' = youtubeChannels s))) /\
  (forall w s,
     let s' := snd (scheduled_job w s) in
     exists evs,
       log s' = (log s ++ evs)%list /\
       (last_write evs = Some (youtubeChannels s') \/
        (last_write evs = None /\ youtubeChannels s' = youtubeChannels s))).
Proof.
  split; [|split]; cbv zeta.
  - intros message args w s.
    destruct (addchannel_outcomes message args w s)
      as [(_ & ->)
         | (reply & evs & _ & Hlog &
            [(Hl & Hw & _) | (k & name & now & _ & _ & Hw & _)])];
      [exists []; cbn; rewrite app_nil_r; auto | exists evs; auto ..].
  - intros message args w s.
    destruct (removechannel_outcomes message args w s)
      as [(_ & ->)
         | (reply & evs & keep & _ & Hlog & _ & [(_ & Hw & _) | (_ & Hw & Hl)])];
      [exists []; cbn; rewrite app_nil_r; auto | exists evs; auto ..].
  - intros w s.
    destruct (scheduled_job_summary w s) as (_ & evs & Hlog & _ & Hw & _).
    exists evs. auto.
Qed.

Lemma tracked_after_steps (w : World) (l l' : list Channel) :
  Forall2 (record_step w) l l' -> Forall tracked l -> Forall tracked l'.
Proof.
  induction 1 as [|c c' l l' Hc _ IH]; intros Hall; [constructor|].
  apply Forall_cons in Hall as [Ht Hall].
  constructor; [exact (record_step_tracked w c c' Hc Ht) | exact (IH Hall)].
Qed.

(** X10. If every record marked live carries a [lastNotified], this is still
    so after [addchannel], after [removechannel] and after any number of
    runs of the job: the job marks a record live only when it stamps it. *)
Theorem live_records_are_stamped (s : State) :
  Forall tracked (youtubeChannels s) ->
  (forall message args w,
     Forall tracked (youtubeChannels (snd (addchannel message args w s)))) /\
  (forall message args w,
     Forall tracked (youtubeChannels (snd (removechannel message args w s)))) /\
  (forall worlds, Forall tracked (youtubeChannels (run_jobs worlds s))).
Proof.
  intros Hall. split; [|split].
  - intros message args w.
    destruct (addchannel_outcomes message args w s)
      as [(_ & ->)
         | (reply & evs & _ & _ & [(-> & _) | (k & name & now & _ & -> & _)])];
      [exact Hall | exact Hall |].
    apply Forall_app. split; [exact Hall|]. repeat constructor. discriminate.
  - intros message args w.
    destruct (removechannel_outcomes message args w s)
      as [(_ & ->) | (reply & evs & keep & _ & _ & -> & _)]; [exact Hall|].
    apply Forall_forall. intros c Hc.
    apply list_elem_of_In, filter_In in Hc as [Hc _].
    apply (proj1 (Forall_forall _ _) Hall). now apply list_elem_of_In.
  - intros worlds. revert s Hall.
    induction worlds as [|w more IH]; intros s Hall; [exact Hall|].
    cbn [run_jobs]. apply IH.
    destruct (scheduled_job_summary w s) as (_ & evs & _ & _ & _ & _ & Hstep).
    exact (tracked_after_steps w _ _ Hstep Hall).
Qed.

Lemma live_records_are_stamped_witness :
  let s := Sample.start [Sample.record "UC1" (Some "chan-42") false None] in
  Forall tracked
    (youtubeChannels (run_jobs [Sample.world_live 0; Sample.world_offline 9000000] s)).
Proof.
  cbn zeta.
  assert (H : Forall tracked
                (youtubeChannels
                   (Sample.start [Sample.record "UC1" (Some "chan-42") false None])))
    by (repeat constructor; discriminate).
  exact (proj2 (proj2 (live_records_are_stamped _ H)) _).
Defined.

(** X11. A record that has no [lastNotified], or one that is an hour old or
    older at the clock reading of its iteration, is probed: the first thing
    the iteration does is the live search for its channel id. One hour
    exactly is past the cooldown. *)
Theorem due_records_are_probed (i : nat) (w : World) (s : State) (ch : Channel) :
  youtubeChannels s !! i = Some ch ->
  Js.truthy (YOUTUBE_API_KEY w) = true ->
  (forall t0, lastNotified ch = Some t0 -> 3600000 <= clock w (calls s) - t0) ->
  exists evs,
    log (snd (check_channel i w s))
    = (log s ++ EvFetch (live_url w (channelId ch)) :: evs)%list.
Proof.
  intros Hi Hkey Hdue.
  destruct (not_recent_cases ch w s) as [(t0 & Hlast & Hlt) | (n & Hn & Hr & _)].
  { specialize (Hdue t0 Hlast). unfold cooldown in Hlt. lia. }
  destruct (probe_cases w (advance n [] s) (channelId ch))
    as (st & evs & m & Hp2 & [(Hk & _) | (_ & -> & ->)]); [congruence|].
  rewrite (check_channel_probed i w s _ _ ch st Hi Hr Hp2).
  assert (Hi1 : youtubeChannels (advance 0 [EvSnapshot (channelId ch) st]
                  (advance 1 [EvFetch (live_url w (channelId ch))] (advance n [] s)))
                !! i = Some ch) by exact Hi.
  destruct st as [[v t th ct|]|].
  - rewrite react_live.
    destruct (Js.truthy (notificationChannelId ch));
      [|leaf_norm; eexists; reflexivity].
    destruct (isLive ch); [leaf_norm; eexists; reflexivity|].
    rewrite notify_eq by exact Hi1.
    destruct (channels_fetch w _ _); try (leaf_norm; eexists; reflexivity).
    destruct (send w _ _ _); leaf_norm; eexists; reflexivity.
  - rewrite react_offline by exact Hi1.
    destruct (isLive ch); leaf_norm; eexists; reflexivity.
  - leaf_norm. eexists. reflexivity.
Qed.

Lemma due_records_are_probed_witness :
  let ch := Sample.record "UC1" (Some "chan-42") true (Some 1000) in
  let w := Sample.world_live 3601000 in
  exists evs,
    log (snd (check_channel 0 w (Sample.start [ch])))
    = EvFetch (live_url w "UC1") :: evs.
Proof.
  cbn zeta.
  apply (due_records_are_probed 0 (Sample.world_live 3601000)
           (Sample.start [Sample.record "UC1" (Some "chan-42") true (Some 1000)])
           (Sample.record "UC1" (Some "chan-42") true (Some 1000))
           eq_refl eq_refl).
  intros t0 [= <-]. cbn. lia.
Defined.

Lemma channel_fields_ok (l : list Channel) :
  forallb field_ok (map channel_field l)
  = forallb (fun c => fits_a_name (channelName c)) l.
Proof.
  induction l as [|c l IH]; [reflexivity|].
  cbn [map forallb]. rewrite IH. f_equal.
  unfold field_ok, channel_field. cbn [field_name field_value].
  destruct (isLive c); cbn; now rewrite !andb_true_r.
Qed.

Lemma listchannels_eq (w : World) (s : State) :
  listchannels w s =
  match youtubeChannels s with
  | [] => (Ok NoChannels, s)
  | _ :: _ =>
      if (Nat.leb (length (youtubeChannels s)) 25 &&
          forallb (fun c => fits_a_name (channelName c)) (youtubeChannels s))%bool
      then
        (Ok (Shown (mkPanel "#0099ff" "Monitored YouTube Channels"
                      "These channels will trigger notifications when they go live:"
                      (map channel_field (youtubeChannels s)) (clock w (calls s)))),
         advance 1 [] s)
      else (Throw ValidationError, s)
  end.
Proof.
  rewrite <- channel_fields_ok.
  unfold listchannels, addFields, new_Date, advance. run_js.
  destruct (youtubeChannels s) eqn:Hl; [reflexivity|]. rewrite <- Hl.
  rewrite length_map.
  destruct (_ && _)%bool; cbn; rewrite ?app_nil_r; reflexivity.
Qed.

(** X12. [listchannels] on an empty array says that nothing is monitored.
    On an array of at most 25 records whose names have 1 to 256 characters
    it builds the embed that shows the records in the order of the array,
    each by its name and its [isLive], and hands it to [message.reply]; on
    any other array the builder throws and the handler ends without a
    reply (names of ASCII characters, so that their length is their number
    of characters). Within these bounds, after an [addchannel] that replied
    "added" the list is the one of before followed by the new channel,
    shown offline; and after a [removechannel] a list that is shown holds
    only fields that were there before. *)
Theorem listchannels_follows_the_commands :
  (forall w s, youtubeChannels s = [] -> listchannels w s = (Ok NoChannels, s)) /\
  (forall w s,
     youtubeChannels s <> [] ->
     forallb (fun c => ascii_only (channelName c)) (youtubeChannels s) = true ->
     listchannels w s =
     if (Nat.leb (length (youtubeChannels s)) 25 &&
         forallb (fun c => fits_a_name (channelName c)) (youtubeChannels s))%bool
     then
       (Ok (Shown (mkPanel "#0099ff" "Monitored YouTube Channels"
                     "These channels will trigger notifications when they go live:"
                     (map channel_field (youtubeChannels s)) (clock w (calls s)))),
        advance 1 [] s)
     else (Throw ValidationError, s)) /\
  (forall message args w s name w2,
     (length (youtubeChannels s) < 25)%nat ->
     forallb (fun c => fits_a_name (channelName c)) (youtubeChannels s) = true ->
     fits_a_name name = true ->
     fst (addchannel message args w s) = Ok (Added name) ->
     fst (listchannels w2 (snd (addchannel message args w s)))
     = Ok (Shown (mkPanel "#0099ff" "Monitored YouTube Channels"
                    "These channels will trigger notifications when they go live:"
                    (map channel_field (youtubeChannels s)
                     ++ [mkField name "⚪ Offline" true])
                    (clock w2 (calls (snd (addchannel message args w s))))))) /\
  (forall message args w s w2 p,
     fst (listchannels w2 (snd (removechannel message args w s))) = Ok (Shown p) ->
     forall f, In f (panel_fields p) -> In f (map channel_field (youtubeChannels s))).
Proof.
  split; [|split; [|split]].
  - intros w s Hl. rewrite listchannels_eq, Hl. reflexivity.
  - intros w s Hl _. rewrite listchannels_eq.
    destruct (youtubeChannels s); [congruence | reflexivity].
  - intros message args w s name w2 Hlen Hnames Hname Hadd.
    destruct (addchannel_outcomes message args w s)
      as [(_ & Hout)
         | (reply & evs & Hr & _ &
            [(_ & _ & Hn) | (k & name' & now & Hk & Hl & _)])].
    + rewrite Hout in Hadd. discriminate.
    + rewrite Hr in Hadd. injection Hadd as ->. now destruct (Hn name).
    + rewrite Hr in Hadd. injection Hadd as Hre. rewrite Hk in Hre.
      injection Hre as ->. rewrite listchannels_eq, Hl.
      rewrite forallb_app, Hnames, length_app, map_app.
      cbn [forallb channelName length]. rewrite Hname.
      assert (Nat.leb (length (youtubeChannels s) + 1) 25 = true) as ->
        by (apply Nat.leb_le; lia).
      destruct (youtubeChannels s); reflexivity.
  - intros message args w s w2 p Hshow f Hf.
    destruct (removechannel_outcomes message args w s)
      as [(_ & Hout) | (reply & evs & keep & _ & _ & Hl & _)].
    + rewrite Hout in Hshow. cbn [snd] in Hshow. rewrite listchannels_eq in Hshow.
      destruct (youtubeChannels s) eqn:Hs; [discriminate|]. rewrite <- Hs in *.
      destruct (_ && _)%bool; [|discriminate].
      cbn [fst] in Hshow. injection Hshow as <-. exact Hf.
    + rewrite listchannels_eq, Hl in Hshow.
      assert (Hp : panel_fields p
                   = map channel_field (List.filter keep (youtubeChannels s))).
      { destruct (List.filter keep (youtubeChannels s)) eqn:Hk; [discriminate|].
        rewrite <- Hk in *. destruct (_ && _)%bool; [|discriminate].
        cbn [fst] in Hshow. now injection Hshow as <-. }
      rewrite Hp in Hf. apply in_map_iff in Hf as (c & <- & Hc).
      apply in_map. now apply filter_In in Hc as [Hc _].
Qed.

Lemma listchannels_follows_the_commands_witness :
  let s := Sample.start [Sample.record "UC0" (Some "chan-42") true (Some 0)] in
  let added := snd (addchannel Sample.admin ["https://www.youtube.com/channel/UC1"]
                      (Sample.world_live 5) s) in
  fst (listchannels (Sample.world_live 6) added)
  = Ok (Shown (mkPanel "#0099ff" "Monitored YouTube Channels"
                 "These channels will trigger notifications when they go live:"
                 [mkField "Some Channel" "🔴 Currently Live!" true;
                  mkField "Some Channel" "⚪ Offline" true] 6)).
Proof.
  cbn zeta.
  exact (proj1 (proj2 (proj2 listchannels_follows_the_commands)) Sample.admin
           ["https://www.youtube.com/channel/UC1"] (Sample.world_live 5)
           (Sample.start [Sample.record "UC0" (Some "chan-42") true (Some 0)])
           "Some Channel" (Sample.world_live 6)
           ltac:(cbn; lia) eq_refl eq_refl eq_refl).
Defined.

Lemma filter_other_id_absent (k : string) (l : list Channel) :
  ~ In k (map channelId l) -> List.filter (other_id k) l = l.
Proof.
  induction l as [|c l IH]; cbn; intros Hn; [reflexivity|].
  unfold other_id at 1.
  destruct (String.eqb_spec (channelId c) k) as [He | Hne]; [tauto|].
  cbn. rewrite IH; [reflexivity | tauto].
Qed.

(** [addchannel] for a URL of the direct-ID shape *)
Lemma addchannel_direct (message : Incoming) (url : string) (rest : list string)
    (w : World) (s : State) (k : string) :
  getYoutubeIdentifier url = Some (mkIdentifier TyId k) -> k <> "" ->
  addchannel message (url :: rest) w s =
  if is_administrator message then
    match add_resolved message k w s with
    | (Ok reply, s') => (Ok reply, s')
    | (Throw e, s') => (Ok (ErrorAdding e), s')
    end
  else (Throw RangeError, s).
Proof.
  intros Hurl Hk. rewrite addchannel_cases, Hurl.
  destruct (is_administrator message); cbn [negb]; [|reflexivity].
  unfold try_catch, bind at 1. rewrite resolve_id.
  destruct k; [congruence|]. reflexivity.
Qed.

(** X13. Adding a channel by its direct URL and removing it by the same URL
    gives the array back: when [addchannel] replied "added" for the URL
    [https://www.youtube.com/channel/ID], a [removechannel] of an
    administrator with that URL, in whatever world, replies "removed" and
    leaves the array as it was before the addition. *)
Theorem add_then_remove_restores (message message2 : Incoming) (c : ascii)
    (r name : string) (w w2 : World) (s : State) :
  all_chars id_char (String c r) = true ->
  is_administrator message2 = true ->
  let url := "https://www.youtube.com/channel/" ++ String c r in
  fst (addchannel message [url] w s) = Ok (Added name) ->
  let out := removechannel message2 [url] w2 (snd (addchannel message [url] w s)) in
  fst out = Ok RemovedFromList /\
  youtubeChannels (snd out) = youtubeChannels s.
Proof.
  intros Hid Hadmin2 url Hadd out.
  pose proof (direct_id_url c r Hid) as Hurl. fold url in Hurl.
  assert (Hstate : exists now,
            youtubeChannels (snd (addchannel message [url] w s))
            = (youtubeChannels s ++
               [mkChannel (String c r) name (Some (channel_id message))
                  (author_tag message) now false None])%list /\
            ~ In (String c r) (map channelId (youtubeChannels s))).
  { revert Hadd. rewrite (addchannel_direct message url [] w s (String c r) Hurl) by discriminate.
    destruct (is_administrator message); [|discriminate].
    rewrite add_resolved_eq. cbv zeta.
    destruct (find _ (youtubeChannels s)) eqn:Hfind; [discriminate|].
    destruct (channels_snippet w _ _) as [|rsp]; [discriminate|].
    destruct (ok rsp); [|discriminate].
    destruct (json rsp) as [d|]; [|discriminate].
    destruct (items d) as [[|x l]|]; try discriminate.
    cbn [fst snd youtubeChannels]. intros [= <-]. eexists. split; [reflexivity|].
    intros Hin. apply (proj1 (find_key_None _ _ Hfind)). now apply list_elem_of_In. }
  destruct Hstate as (now & Hl & Hfresh).
  subst out. rewrite removechannel_eq by exact Hadmin2. cbv zeta.
  change (Js.join " " [url]) with url. rewrite Hurl, resolve_id.
  cbn [Js.truthy Js.render]. rewrite Hl.
  rewrite List.filter_app, (filter_other_id_absent _ _ Hfresh).
  assert (Hgone : forall x : Channel, channelId x = String c r ->
            List.filter (other_id (String c r)) [x] = []).
  { intros x Hx. cbn. unfold other_id. now rewrite Hx, String.eqb_refl. }
  rewrite Hgone by reflexivity.
  rewrite app_nil_r, length_app. cbn [length].
  assert (Nat.ltb (length (youtubeChannels s)) (length (youtubeChannels s) + 1) = true)
    as -> by (apply Nat.ltb_lt; lia).
  split; reflexivity.
Qed.

Lemma add_then_remove_restores_witness :
  let s := Sample.start [Sample.record "UC0" (Some "chan-42") true (Some 0)] in
  let url := "https://www.youtube.com/channel/UC1" in
  let added := snd (addchannel Sample.admin [url] (Sample.world_live 5) s) in
  length (youtubeChannels added) = 2%nat /\
  youtubeChannels (snd (removechannel Sample.admin [url] (Sample.world_offline 6) added))
  = youtubeChannels s.
Proof.
  cbn zeta. split; [vm_compute; reflexivity|].
  exact (proj2 (add_then_remove_restores Sample.admin Sample.admin
                  "U" "C1" "Some Channel" (Sample.world_live 5) (Sample.world_offline 6)
                  (Sample.start [Sample.record "UC0" (Some "chan-42") true (Some 0)])
                  eq_refl eq_refl eq_refl)).
Defined.

Lemma filter_idempotent (keep : Channel -> bool) (l : list Channel) :
  List.filter keep (List.filter keep l) = List.filter keep l.
Proof.
  induction l as [|c l IH]; [reflexivity|]. cbn.
  destruct (keep c) eqn:Hc; [cbn; now rewrite Hc, IH | exact IH].
Qed.

(** X14. After a [removechannel] by name (a query that is not a channel
    URL), no record that is left has a name containing the query, in lower
    case; the same command again replies "not in the list", writes nothing
    and leaves the array as it is. *)
Theorem remove_by_name_is_complete (message : Incoming) (arg : string)
    (rest : list string) (w w2 : World) (s : State) :
  is_administrator message = true ->
  let query := Js.join " " (arg :: rest) in
  getYoutubeIdentifier query = None ->
  let s1 := snd (removechannel message (arg :: rest) w s) in
  (forall c, In c (youtubeChannels s1) ->
     Js.includes (Js.toLowerCase query) (Js.toLowerCase (channelName c)) = false) /\
  removechannel message (arg :: rest) w2 s1 = (Ok NotInList, s1).
Proof.
  intros Hadmin query Hnone s1.
  assert (Hl1 : youtubeChannels s1 = List.filter (name_without query) (youtubeChannels s)).
  { subst s1. rewrite removechannel_eq by exact Hadmin. cbv zeta. fold query.
    rewrite Hnone. case_ltb; reflexivity. }
  split.
  - intros c Hc. rewrite Hl1 in Hc. apply filter_In in Hc as [_ Hc].
    unfold name_without in Hc. now apply negb_true_iff in Hc.
  - rewrite removechannel_eq by exact Hadmin. cbv zeta. fold query.
    rewrite Hnone, Hl1, filter_idempotent.
    assert (Nat.ltb (length (List.filter (name_without query) (youtubeChannels s)))
                    (length (List.filter (name_without query) (youtubeChannels s)))
            = false) as -> by (apply Nat.ltb_ge; lia).
    f_equal. rewrite <- Hl1. now destruct s1.
Qed.

Lemma remove_by_name_is_complete_witness :
  let s := Sample.start [Sample.record "UC1" (Some "chan-42") false None] in
  let s1 := snd (removechannel Sample.admin ["some"; "CHANNEL"] (Sample.world_live 5) s) in
  youtubeChannels s1 = [] /\
  removechannel Sample.admin ["some"; "CHANNEL"] (Sample.world_live 6) s1
  = (Ok NotInList, s1).
Proof.
  cbn zeta. split; [vm_compute; reflexivity|].
  exact (proj2 (remove_by_name_is_complete Sample.admin "some" ["CHANNEL"]
                  (Sample.world_live 5) (Sample.world_live 6)
                  (Sample.start [Sample.record "UC1" (Some "chan-42") false None])
                  eq_refl ltac:(vm_compute; reflexivity))).
Defined.

(** ** The parser, in general *)

Lemma all_chars_app (p : ascii -> bool) (a b : string) :
  all_chars p (a ++ b) = (all_chars p a && all_chars p b)%bool.
Proof.
  induction a as [|c a IH]; [reflexivity|].
  change (String c a ++ b) with (String c (a ++ b)). cbn. now rewrite IH, andb_assoc.
Qed.

Lemma startsWith_drop (l s : string) :
  Js.startsWith l s = true -> s = l ++ Regex.drop_prefix l s.
Proof.
  revert s. induction l as [|a l IH]; intros s H; [now destruct s|].
  destruct s as [|b s]; [discriminate|]. cbn in H.
  apply andb_prop in H as [Hab Hl]. apply Ascii.eqb_eq in Hab as ->.
  change (String b l ++ Regex.drop_prefix (String b l) (String b s))
    with (String b (l ++ Regex.drop_prefix l s)).
  now rewrite <- (IH s Hl).
Qed.

(** the ways of [[...]+]: a non-empty run of class characters, cut off the
    front of the input *)
Lemma class_runs_In (p : ascii -> bool) (s : string) (w : Regex.way) :
  In w (Regex.class_runs p s) ->
  s = Regex.consumed w ++ Regex.rest w /\ Regex.consumed w <> "" /\
  all_chars p (Regex.consumed w) = true /\ Regex.groups w = [].
Proof.
  revert w. induction s as [|c r IH]; intros w; cbn; [tauto|].
  destruct (p c) eqn:Hc; [|intros []].
  intros H. apply in_app_or in H as [H | [<- | []]].
  - apply in_map_iff in H as (w' & <- & Hw'). cbn.
    destruct (IH w' Hw') as (Hs & _ & Hall & _).
    repeat split; [now rewrite Hs at 1 | discriminate | now rewrite Hc, Hall].
  - cbn. repeat split; [discriminate | now rewrite Hc].
Qed.

(** a way of matching cuts the input in what it consumed and the rest *)
Lemma run_splits (r : Regex.t) (s : string) (w : Regex.way) :
  In w (Regex.run r s) -> s = Regex.consumed w ++ Regex.rest w.
Proof.
  revert s w. induction r as [l | p | r1 IH1 r2 IH2 | r1 IH1 | r1 IH1];
    intros s w; cbn [Regex.run].
  - destruct (Js.startsWith l s) eqn:Hl; [|intros []].
    intros [<- | []]. cbn. now apply startsWith_drop.
  - intros H. now apply class_runs_In in H.
  - intros H. apply in_flat_map in H as (w1 & H1 & H).
    apply in_map_iff in H as (w2 & <- & H2). cbn.
    rewrite str_app_assoc, <- (IH2 _ _ H2). now apply IH1.
  - intros H. apply in_app_or in H as [H | [<- | []]]; [now apply IH1 | reflexivity].
  - intros H. apply in_map_iff in H as (w1 & <- & H1). cbn. now apply IH1.
Qed.

Lemma run_lit (l s : string) (w : Regex.way) :
  In w (Regex.run (Regex.Lit l) s) -> Regex.consumed w = l /\ Regex.groups w = [].
Proof.
  cbn [Regex.run]. destruct (Js.startsWith l s); [|intros []].
  intros [<- | []]. auto.
Qed.

Lemma run_group_free (r : Regex.t) (s : string) (w : Regex.way) :
  group_free r = true -> In w (Regex.run r s) -> Regex.groups w = [].
Proof.
  revert s w. induction r as [l | p | r1 IH1 r2 IH2 | r1 IH1 | r1 IH1];
    intros s w Hg; cbn [Regex.run].
  - intros H. now apply run_lit in H.
  - intros H. now apply class_runs_In in H.
  - cbn in Hg. apply andb_prop in Hg as [Hg1 Hg2].
    intros H. apply in_flat_map in H as (w1 & H1 & H).
    apply in_map_iff in H as (w2 & <- & H2). cbn.
    now rewrite (IH1 _ _ Hg1 H1), (IH2 _ _ Hg2 H2).
  - intros H. apply in_app_or in H as [H | [<- | []]]; [now apply (IH1 s) | reflexivity].
  - discriminate.
Qed.

Lemma run_cat_In (r1 r2 : Regex.t) (s : string) (w : Regex.way) :
  In w (Regex.run (Regex.Cat r1 r2) s) ->
  exists w1 w2,
    In w1 (Regex.run r1 s) /\ In w2 (Regex.run r2 (Regex.rest w1)) /\
    w = Regex.mkWay (Regex.consumed w1 ++ Regex.consumed w2) (Regex.rest w2)
                    (Regex.groups w1 ++ Regex.groups w2).
Proof.
  cbn [Regex.run]. intros H. apply in_flat_map in H as (w1 & H1 & H).
  apply in_map_iff in H as (w2 & <- & H2). eauto.
Qed.

Lemma run_group_In (r : Regex.t) (s : string) (w : Regex.way) :
  In w (Regex.run (Regex.Group r) s) ->
  exists w1,
    In w1 (Regex.run r s) /\
    w = Regex.mkWay (Regex.consumed w1) (Regex.rest w1)
                    (Regex.consumed w1 :: Regex.groups w1).
Proof.
  cbn [Regex.run]. intros H. apply in_map_iff in H as (w1 & <- & H1). eauto.
Qed.

(** the ways of the three patterns: something, then [youtube.com/], the
    marker and the captured name *)
Lemma youtube_ways (tail s : string) (w : Regex.way) :
  In w (Regex.run (youtube_regex tail) s) ->
  exists before v,
    Regex.consumed w = before ++ "youtube.com/" ++ tail ++ v /\
    Regex.groups w = [v] /\ v <> "" /\ all_chars id_char v = true.
Proof.
  unfold youtube_regex. intros H.
  apply run_cat_In in H as (w1 & x1 & H1 & H & ->).
  apply run_cat_In in H as (w3 & x3 & H3 & H & ->).
  apply run_cat_In in H as (w5 & x5 & H5 & H & ->).
  apply run_cat_In in H as (w7 & x7 & H7 & H & ->).
  apply run_group_In in H as (w9 & H9 & ->).
  cbn [Regex.consumed Regex.groups].
  apply class_runs_In in H9 as (_ & Hne & Hall & Hg9).
  assert (G1 : Regex.groups w1 = [])
    by (eapply run_group_free; [|exact H1]; reflexivity).
  assert (G3 : Regex.groups w3 = [])
    by (eapply run_group_free; [|exact H3]; reflexivity).
  destruct (run_lit _ _ _ H5) as [C5 G5].
  destruct (run_lit _ _ _ H7) as [C7 G7].
  exists (Regex.consumed w1 ++ Regex.consumed w3), (Regex.consumed w9).
  rewrite G1, G3, G5, G7, Hg9, C5, C7. cbn [app].
  split; [now rewrite !str_app_assoc|]. auto.
Qed.

(** a match of [exec] is a way of matching some suffix of the input *)
Lemma exec_Some (r : Regex.t) (s : string) (m : list string) :
  Regex.exec r s = Some m ->
  exists skipped w,
    s = skipped ++ Regex.consumed w ++ Regex.rest w /\
    In w (Regex.run r (Regex.consumed w ++ Regex.rest w)) /\
    m = Regex.consumed w :: Regex.groups w.
Proof.
  induction s as [|c s IH]; cbn [Regex.exec].
  - destruct (Regex.run r "") as [|w ws] eqn:Hr; [discriminate|].
    intros [= <-]. exists "", w.
    assert (Hw : In w (Regex.run r "")) by (rewrite Hr; now left).
    rewrite <- (run_splits r "" w Hw). auto.
  - destruct (Regex.run r (String c s)) as [|w ws] eqn:Hr.
    + intros H. destruct (IH H) as (skipped & w & Hs & Hw & Hm).
      exists (String c skipped), w. split; [|auto].
      change (String c skipped ++ Regex.consumed w ++ Regex.rest w)
        with (String c (skipped ++ Regex.consumed w ++ Regex.rest w)).
      now rewrite <- Hs.
    + intros [= <-]. exists "", w.
      assert (Hw : In w (Regex.run r (String c s))) by (rewrite Hr; now left).
      rewrite <- (run_splits r _ w Hw). auto.
Qed.

Lemma split_head (sep : ascii) (s : string) :
  exists tail, s = hd "" (Js.split sep s) ++ tail.
Proof.
  induction s as [|c r IH]; cbn [Js.split]; [exists ""; reflexivity|].
  destruct (Ascii.eqb c sep); [exists (String c r); reflexivity|].
  destruct IH as (tail & IH).
  destruct (Js.split sep r) as [|word more]; cbn [hd] in *.
  - exists r. reflexivity.
  - exists tail. change (String c word ++ tail) with (String c (word ++ tail)).
    now rewrite <- IH.
Qed.

Lemma exec_youtube (tail s : string) (m : list string) :
  Regex.exec (youtube_regex tail) s = Some m ->
  (exists a b, s = a ++ ("youtube.com/" ++ tail ++ group1 m) ++ b) /\
  group1 m <> "" /\ all_chars id_char (group1 m) = true.
Proof.
  intros H. apply exec_Some in H as (skipped & w & Hs & Hw & ->).
  apply youtube_ways in Hw as (before & v & Hc & Hg & Hne & Hall).
  rewrite Hg. cbn [group1 nth]. split; [|auto].
  exists (skipped ++ before), (Regex.rest w).
  rewrite Hs, Hc, !str_app_assoc. reflexivity.
Qed.

(** X15. Whatever the input, an identifier returned by the parser is a
    non-empty run of the characters [[a-zA-Z0-9_-]] that stands in the
    input after [youtube.com/] and the marker of its type, [channel/], [@] or
    [c/], and before any [?]. *)
Theorem parsed_identifier_is_in_the_url (url : string) (i : Identifier) :
  getYoutubeIdentifier url = Some i ->
  value i <> "" /\
  all_chars id_char (value i) = true /\
  Js.includes ("youtube.com/" ++ marker (type i) ++ value i)
              (hd "" (Js.split "?" url)) = true /\
  Js.includes ("youtube.com/" ++ marker (type i) ++ value i) url = true.
Proof.
  unfold getYoutubeIdentifier. cbv zeta.
  destruct (split_head "?" url) as (cut & Hcut).
  assert (Hgen : forall t tail m,
            marker t = tail ->
            Regex.exec (youtube_regex tail) (hd "" (Js.split "?" url)) = Some m ->
            value (mkIdentifier t (group1 m)) <> "" /\
            all_chars id_char (value (mkIdentifier t (group1 m))) = true /\
            Js.includes ("youtube.com/" ++ marker (type (mkIdentifier t (group1 m)))
                           ++ value (mkIdentifier t (group1 m)))
                        (hd "" (Js.split "?" url)) = true /\
            Js.includes ("youtube.com/" ++ marker (type (mkIdentifier t (group1 m)))
                           ++ value (mkIdentifier t (group1 m))) url = true).
  { intros t tail m Ht He. cbn [value type]. rewrite Ht.
    apply exec_youtube in He as ((a & b & Hs) & Hne & Hall).
    split; [exact Hne|]. split; [exact Hall|]. split.
    - apply includes_spec. exists a, b. rewrite Hs. now rewrite !str_app_assoc.
    - apply includes_spec. exists a, (b ++ cut). rewrite Hcut at 1. rewrite Hs.
      now rewrite !str_app_assoc. }
  destruct (Regex.exec channelIdRegex _) as [m|] eqn:H1.
  { intros [= <-]. exact (Hgen TyId _ m eq_refl H1). }
  destruct (Regex.exec handleRegex _) as [m|] eqn:H2.
  { intros [= <-]. exact (Hgen TyHandle _ m eq_refl H2). }
  destruct (Regex.exec customRegex _) as [m|] eqn:H3; [|discriminate].
  intros [= <-]. exact (Hgen TyCustom _ m eq_refl H3).
Qed.

Lemma parsed_identifier_is_in_the_url_witness :
  Js.includes "youtube.com/@someHandle"
    "see https://www.youtube.com/@someHandle/live?x=1" = true.
Proof.
  exact (proj2 (proj2 (proj2 (parsed_identifier_is_in_the_url
    "see https://www.youtube.com/@someHandle/live?x=1"
    (mkIdentifier TyHandle "someHandle") ltac:(vm_compute; reflexivity))))).
Defined.

Lemma split_before_sep (sep : ascii) (a b : string) :
  all_chars (fun c => negb (Ascii.eqb c sep)) a = true ->
  hd "" (Js.split sep (a ++ String sep b)) = a.
Proof.
  induction a as [|c a IH]; intros H.
  - change ("" ++ String sep b) with (String sep b). cbn.
    now rewrite Ascii.eqb_refl.
  - cbn in H. apply andb_prop in H as [Hc Ha]. apply negb_true_iff in Hc.
    change (String c a ++ String sep b) with (String c (a ++ String sep b)).
    cbn [Js.split]. rewrite Hc. specialize (IH Ha).
    destruct (Js.split sep (a ++ String sep b)) as [|word more]; cbn in *;
      [now subst | now subst].
Qed.

(** X16. The parser does not look past the first [?]: for an address [u]
    without [?], whatever query string follows it, the result is the one
    for [u] alone. *)
Theorem query_string_is_ignored (u q : string) :
  all_chars (fun c => negb (Ascii.eqb c "?")) u = true ->
  getYoutubeIdentifier (u ++ "?" ++ q) = getYoutubeIdentifier u.
Proof.
  intros H. unfold getYoutubeIdentifier.
  change (u ++ "?" ++ q) with (u ++ String "?" q).
  now rewrite (split_before_sep "?" u q H), (split_without "?" u H).
Qed.

Lemma query_string_is_ignored_witness :
  getYoutubeIdentifier ("youtube.com/c/My-Name" ++ "?" ++ "youtube.com/channel/UC1")
  = Some (mkIdentifier TyCustom "My-Name").
Proof.
  rewrite (query_string_is_ignored "youtube.com/c/My-Name" "youtube.com/channel/UC1"
             eq_refl).
  vm_compute. reflexivity.
Defined.

Lemma str_app_cons (c : ascii) (a b : string) :
  String c a ++ b = String c (a ++ b).
Proof. reflexivity. Qed.

Lemma str_app_nil_l (b : string) : "" ++ b = b.
Proof. reflexivity. Qed.

(** the greedy class takes the whole name first *)
Lemma class_runs_longest (p : ascii -> bool) (v rest : string) :
  v <> "" -> all_chars p v = true ->
  match rest with EmptyString => True | String c _ => p c = false end ->
  exists more, Regex.class_runs p (v ++ rest) = Regex.mkWay v rest [] :: more.
Proof.
  intros Hne Hall Hrest. induction v as [|c v IH]; [congruence|].
  cbn in Hall. apply andb_prop in Hall as [Hc Hv].
  rewrite str_app_cons. cbn [Regex.class_runs]. rewrite Hc.
  destruct v as [|d v].
  - rewrite str_app_nil_l.
    assert (Regex.class_runs p rest = []) as ->.
    { destruct rest as [|x rest]; [reflexivity|]. cbn. now rewrite Hrest. }
    cbn. eauto.
  - destruct (IH ltac:(discriminate) Hv) as [more Hm]. rewrite Hm. cbn. eauto.
Qed.

Lemma exec_head (r : Regex.t) (s : string) (w : Regex.way) (more : list Regex.way) :
  Regex.run r s = w :: more ->
  Regex.exec r s = Some (Regex.consumed w :: Regex.groups w).
Proof. intros H. destruct s; cbn [Regex.exec]; now rewrite H. Qed.

Lemma exec_without (tail s : string) :
  Js.includes ("youtube.com/" ++ tail) s = false ->
  Regex.exec (youtube_regex tail) s = None.
Proof.
  intros H. destruct (Regex.exec _ s) as [m|] eqn:He; [|reflexivity].
  apply exec_youtube in He as ((a & b & Hs) & _).
  assert (Js.includes ("youtube.com/" ++ tail) s = true); [|congruence].
  apply includes_spec. exists a, (group1 m ++ b).
  rewrite Hs, !str_app_assoc. reflexivity.
Qed.

Lemma includes_longer (q more s : string) :
  Js.includes q s = false -> Js.includes (q ++ more) s = false.
Proof.
  intros H. destruct (Js.includes (q ++ more) s) eqn:E; [|reflexivity].
  apply includes_spec in E as (a & b & ->).
  assert (Js.includes q (a ++ (q ++ more) ++ b) = true); [|congruence].
  apply includes_spec. exists a, (more ++ b). now rewrite !str_app_assoc.
Qed.

(** at the start of a usual URL each pattern matches its own marker *)
Lemma run_usual (p : string) (t : IdentifierType) (v rest : string) :
  In p url_prefixes ->
  v <> "" -> all_chars id_char v = true -> ends_name rest ->
  exists w more,
    Regex.run (youtube_regex (marker t)) (p ++ marker t ++ v ++ rest) = w :: more /\
    Regex.groups w = [v].
Proof.
  intros Hp Hne Hall Hrest.
  destruct (class_runs_longest id_char v rest Hne Hall) as [more Hm].
  { destruct rest; [exact I | exact Hrest]. }
  unfold url_prefixes in Hp. cbn [In] in Hp.
  unfold youtube_regex.
  destruct Hp as [<-|[<-|[<-|[<-|[<-|[<-|[]]]]]]]; destruct t; cbn [marker];
    rewrite ?str_app_cons, ?str_app_nil_l;
    cbn -[Regex.class_runs id_char]; rewrite Hm; cbn -[id_char];
    eexists _, _; (split; [reflexivity|]); reflexivity.
Qed.

Lemma no_other_marker (p : string) (t t' : IdentifierType) (v rest : string) :
  In p url_prefixes -> t <> t' ->
  Js.includes "youtube.com/" (v ++ rest) = false ->
  Js.includes ("youtube.com/" ++ marker t') (p ++ marker t ++ v ++ rest) = false.
Proof.
  intros Hp Ht H.
  pose proof (includes_longer "youtube.com/" (marker t') _ H) as Hq.
  unfold url_prefixes in Hp. cbn [In] in Hp.
  destruct Hp as [<-|[<-|[<-|[<-|[<-|[<-|[]]]]]]];
    destruct t, t'; try congruence; cbn [marker] in *;
    rewrite ?str_app_cons, ?str_app_nil_l in *;
    cbn [Js.includes Js.startsWith]; cbn -[Js.includes]; exact Hq.
Qed.

(** X17. The usual channel addresses are parsed as written: after one of
    the six usual beginnings, [channel/], [@] or [c/] followed by a name
    and by anything that ends the name (and holds no [?]) gives back that
    name with the type of the marker. For a handle or a custom name this
    needs that no second [youtube.com/] follows, since a channel address
    anywhere in the input is preferred. *)
Theorem usual_urls_are_parsed
    (p : string) (t : IdentifierType) (v rest : string) :
  In p url_prefixes ->
  v <> "" -> all_chars id_char v = true ->
  ends_name rest ->
  all_chars (fun c => negb (Ascii.eqb c "?")) rest = true ->
  (t <> TyId -> Js.includes "youtube.com/" (v ++ rest) = false) ->
  getYoutubeIdentifier (p ++ marker t ++ v ++ rest) = Some (mkIdentifier t v).
Proof.
  intros Hp Hne Hall Hrest Hq Hother.
  unfold getYoutubeIdentifier.
  rewrite split_without.
  2:{ rewrite !all_chars_app, Hq, (id_char_no_query v Hall), !andb_true_r.
      apply andb_true_intro. split.
      - unfold url_prefixes in Hp. cbn [In] in Hp.
        destruct Hp as [<-|[<-|[<-|[<-|[<-|[<-|[]]]]]]]; reflexivity.
      - destruct t; reflexivity. }
  cbn [hd]. cbv zeta.
  destruct (run_usual p t v rest Hp Hne Hall Hrest) as (w & more & Hrun & Hg).
  pose proof (exec_head _ _ _ _ Hrun) as He. rewrite Hg in He.
  destruct t; cbn [marker] in He |- *.
  - unfold channelIdRegex. now rewrite He.
  - unfold channelIdRegex, handleRegex.
    rewrite (exec_without "channel/").
    2:{ apply (no_other_marker p TyHandle TyId v rest Hp); [discriminate|].
        apply Hother. discriminate. }
    now rewrite He.
  - unfold channelIdRegex, handleRegex, customRegex.
    rewrite (exec_without "channel/").
    2:{ apply (no_other_marker p TyCustom TyId v rest Hp); [discriminate|].
        apply Hother. discriminate. }
    rewrite (exec_without "@").
    2:{ apply (no_other_marker p TyCustom TyHandle v rest Hp); [discriminate|].
        apply Hother. discriminate. }
    now rewrite He.
Qed.

Lemma usual_urls_are_parsed_witness :
  getYoutubeIdentifier ("http://youtube.com/" ++ "@" ++ "some_Handle-1" ++ "/live")
  = Some (mkIdentifier TyHandle "some_Handle-1").
Proof.
  apply (usual_urls_are_parsed "http://youtube.com/" TyHandle "some_Handle-1" "/live").
  - cbn. tauto.
  - discriminate.
  - reflexivity.
  - reflexivity.
  - reflexivity.
  - intros _. reflexivity.
Defined.

Lemma exec_finds (r : Regex.t) (a s : string) :
  Regex.run r s <> [] -> Regex.exec r (a ++ s) <> None.
Proof.
  intros H. induction a as [|x a IH].
  - rewrite str_app_nil_l. destruct s; cbn [Regex.exec];
      destruct (Regex.run r _); congruence.
  - rewrite str_app_cons. cbn [Regex.exec].
    destruct (Regex.run r (String x (a ++ s))); [exact IH | discriminate].
Qed.

(** X18. A channel address anywhere in the input wins over a handle or a
    custom name: when the input, up to its first [?], holds
    [youtube.com/channel/] followed by a character of a name, the result
    has the type of an ID. *)
Theorem channel_address_is_preferred (url before name : string) (c : ascii) :
  hd "" (Js.split "?" url) = before ++ "youtube.com/channel/" ++ String c name ->
  id_char c = true ->
  exists v, getYoutubeIdentifier url = Some (mkIdentifier TyId v).
Proof.
  intros Hurl Hc. unfold getYoutubeIdentifier. cbv zeta. rewrite Hurl.
  destruct (Regex.exec channelIdRegex _) as [m|] eqn:He; [eauto|].
  exfalso. revert He. apply exec_finds.
  unfold channelIdRegex, youtube_regex.
  rewrite ?str_app_cons, ?str_app_nil_l.
  cbn -[id_char Regex.class_runs]. cbn [Regex.class_runs]. rewrite Hc.
  destruct (Regex.class_runs id_char name); cbn; discriminate.
Qed.

Lemma channel_address_is_preferred_witness :
  exists v, getYoutubeIdentifier "youtube.com/@name/youtube.com/channel/UC123?x"
            = Some (mkIdentifier TyId v).
Proof.
  apply (channel_address_is_preferred
           "youtube.com/@name/youtube.com/channel/UC123?x"
           "youtube.com/@name/" "C123" "U"); reflexivity.
Defined.

(** ** The resolver, whatever the API answers *)

(** X19. [resolveToChannelId] never throws and never touches the array: it
    returns an id or [null] after at most two requests to the API, and
    nothing else. Without an identifier it returns [null] at once. For a
    handle whose lookup is rejected, or answers [ok] with a body that cannot
    be read, it returns [null] after that one request: the search by name
    is not tried. *)
Theorem resolver_fails_quietly (identifier : option Identifier)
    (w : World) (s : State) :
  let out := resolveToChannelId identifier w s in
  exists answer evs,
    fst out = Ok answer /\
    youtubeChannels (snd out) = youtubeChannels s /\
    log (snd out) = (log s ++ evs)%list /\
    forallb is_fetch evs = true /\ (length evs <= 2)%nat /\
    (identifier = None -> answer = None /\ evs = []) /\
    (forall h, identifier = Some (mkIdentifier TyHandle h) ->
       channels_forHandle w (calls s) (forHandle_url w h) = Rejected \/
       (exists r, channels_forHandle w (calls s) (forHandle_url w h) = Resolved r /\
                  ok r = true /\ json r = None) ->
       answer = None /\ evs = [EvFetch (forHandle_url w h)]).
Proof.
  intros out. subst out.
  assert (Hparts : forall (out : Result (option string) * State) answer evs n,
            out = (Ok answer, advance n evs s) ->
            forallb is_fetch evs = true -> (length evs <= 2)%nat ->
            fst out = Ok answer /\
            youtubeChannels (snd out) = youtubeChannels s /\
            log (snd out) = (log s ++ evs)%list /\
            forallb is_fetch evs = true /\ (length evs <= 2)%nat).
  { intros out answer evs n -> Hf Hl. cbn. auto. }
  assert (Hpack : forall (out : Result (option string) * State) answer evs
                         (P : Prop),
            (fst out = Ok answer /\
             youtubeChannels (snd out) = youtubeChannels s /\
             log (snd out) = (log s ++ evs)%list /\
             forallb is_fetch evs = true /\ (length evs <= 2)%nat) ->
            P ->
            fst out = Ok answer /\
            youtubeChannels (snd out) = youtubeChannels s /\
            log (snd out) = (log s ++ evs)%list /\
            forallb is_fetch evs = true /\ (length evs <= 2)%nat /\ P).
  { intros out answer evs P (H1 & H2 & H3 & H4 & H5) HP. auto 10. }
  destruct identifier as [[[] v]|].
  - rewrite resolve_id. exists (Some v), []. apply Hpack.
    + apply (Hparts _ _ _ 0%nat); [now rewrite advance_0 | reflexivity | cbn; lia].
    + split; [discriminate|]. intros h [=].
  - rewrite resolve_handle.
    destruct (channels_forHandle w (calls s) (forHandle_url w v)) as [|r] eqn:E.
    { eexists _, _. apply Hpack.
      - eapply Hparts; [reflexivity | reflexivity | cbn; lia].
      - split; [discriminate|]. intros h [= <-] _. auto. }
    destruct (ok r) eqn:Hok.
    2:{ eexists _, _. apply Hpack.
        - eapply Hparts; [reflexivity | reflexivity | cbn; lia].
        - split; [discriminate|].
          intros h [= <-] [Hr | (r' & Hr & Hok' & _)]; congruence. }
    destruct (json r) as [d|] eqn:Hj.
    2:{ eexists _, _. apply Hpack.
        - eapply Hparts; [reflexivity | reflexivity | cbn; lia].
        - split; [discriminate|]. intros h [= <-] _. auto. }
    destruct (items d) as [[|x l]|]; eexists _, _; apply Hpack;
      try (eapply Hparts; [reflexivity | reflexivity | cbn; lia]);
      (split; [discriminate|]);
      intros h [= <-] [Hr | (r' & Hr & _ & Hj')]; congruence.
  - rewrite resolve_custom. eexists _, _. apply Hpack.
    + eapply Hparts; [reflexivity | reflexivity | cbn; lia].
    + split; [discriminate|]. intros h [=].
  - exists None, []. apply Hpack.
    + apply (Hparts _ _ _ 0%nat); [now rewrite advance_0 | reflexivity | cbn; lia].
    + split; [auto|]. intros h [=].
Qed.

Lemma resolver_fails_quietly_witness :
  exists answer evs,
    fst (resolveToChannelId (Some (mkIdentifier TyHandle "someone"))
           (Demo.world_unreachable 0) (Sample.start [])) = Ok answer /\
    answer = None /\
    evs = [EvFetch (forHandle_url (Demo.world_unreachable 0) "someone")].
Proof.
  destruct (resolver_fails_quietly (Some (mkIdentifier TyHandle "someone"))
              (Demo.world_unreachable 0) (Sample.start []))
    as (answer & evs & H1 & _ & _ & _ & _ & _ & Hh).
  exists answer, evs. split; [exact H1|].
  apply (Hh "someone" eq_refl). left. reflexivity.
Defined.
